(** * Multi-Currency-Wallet: the wallet ledger of [server/storage.ts] and
    [server/routes.ts], embedded in Rocq.

    The embedding follows the TypeScript source:
    - a JavaScript [number] is an IEEE 754 binary64 value, modelled by Rocq's
      primitive [float] (same format, same round-to-nearest-even operations);
    - [MemStorage] is a record of its private fields; the [wallets] map is a
      [gmap] keyed by wallet id, the [transactions] map keeps the insertion
      order that [Array.from(map.values())] observes, so it is an association
      list with the replace-or-append behaviour of [Map.prototype.set];
    - every [async] storage method is a function from the store to its result
      and the new store; [new Date()] is an explicit clock reading [now], in
      milliseconds;
    - a route handler returns the response it sends ([res.status(..).json(..)])
      together with the store it leaves behind.

    Wallet and user identifiers are integers ([Z]): the store only ever
    allocates 1, 2, 3, ... and a request naming any other number finds no
    wallet.  A wallet currency is one of [availableCurrencies], the only codes
    the wallet-creation routes let into the store.  The [users] map and the
    routes around it follow in the second part; the password hash is an input
    there and the session is the user that [getUser] returns. *)

From Stdlib Require Import ZArith Zpower QArith Floats Lia Bool List.
From Stdlib Require Import Sorted Permutation.
From stdpp Require Import base option list sorting gmap strings.

Set Warnings "-inexact-float".
Local Open Scope string_scope.
Local Open Scope Z_scope.

(** ** JavaScript numbers *)

Module Js.

(** [!x] is false for a number unless it is [0], [-0] or [NaN]. *)
Definition truthy (x : float) : bool :=
  (negb (x =? 0) && (x =? x))%float.

(** [Number(x)] of a value that already is a number. *)
Definition Number (x : float) : float := x.

(** [x < 0]. *)
Definition negative (x : float) : bool := (x <? 0)%float.

(** On the specification side: the sign bit is clear, or the value is NaN
    (which compares below nothing). *)
Definition SFnot_negative (f : spec_float) : bool :=
  match f with
  | S754_finite true _ _ | S754_infinity true => false
  | _ => true
  end.

(** The rational a finite double denotes; [None] for infinities and NaN. *)
Definition SF2Q (f : spec_float) : option Q :=
  match f with
  | S754_zero _ => Some 0%Q
  | S754_finite s m e =>
      Some (inject_Z (cond_Zopp s (Zpos m)) * Qpower 2 e)%Q
  | S754_infinity _ | S754_nan => None
  end.

Definition value (x : float) : option Q := SF2Q (Prim2SF x).

(** [x - y] and [x + y] were computed without rounding: operands and result
    are finite and the result denotes the exact difference or sum. *)
Definition exact_sub (x y : float) : Prop :=
  match value x, value y, value (x - y)%float with
  | Some a, Some b, Some c => (c == a - b)%Q
  | _, _, _ => False
  end.

Definition exact_add (x y : float) : Prop :=
  match value x, value y, value (x + y)%float with
  | Some a, Some b, Some c => (c == a + b)%Q
  | _, _, _ => False
  end.

(** [x'] is exactly [a] less than [x], or exactly [a] more: the three numbers
    are finite and the values of [x] and [x'] differ by the value of [a]. *)
Definition less_by (x x' a : float) : Prop :=
  match value x, value x', value a with
  | Some q, Some q', Some qa => (q - q' == qa)%Q
  | _, _, _ => False
  end.

Definition more_by (x x' a : float) : Prop := less_by x' x a.

(** The exact values of [s'] and [d'] add up to those of [s] and [d]. *)
Definition same_total (s d s' d' : float) : Prop :=
  match value s, value d, value s', value d' with
  | Some a, Some b, Some a', Some b' => (a' + b' == a + b)%Q
  | _, _, _, _ => False
  end.

End Js.

(** ** shared/schema.ts *)

(** [availableCurrencies] of routes.ts, as the type of wallet currencies. *)
Inductive Currency := USD | EUR | GBP | JPY | CAD | AUD | CHF.

Definition availableCurrencies : list Currency :=
  [USD; EUR; GBP; JPY; CAD; AUD; CHF].

Definition code (c : Currency) : string :=
  match c with
  | USD => "USD" | EUR => "EUR" | GBP => "GBP" | JPY => "JPY"
  | CAD => "CAD" | AUD => "AUD" | CHF => "CHF"
  end.

#[global] Instance Currency_eq_dec : EqDecision Currency.
Proof. solve_decision. Defined.

Module Wallet.
Record t := mk {
  id : Z;
  userId : Z;
  name : option string;
  currency : Currency;
  balance : float;
  isPrimary : option bool;
  createdAt : Z
}.

(** [{ ...wallet, balance }] *)
Definition with_balance (wallet : t) (b : float) : t :=
  {| id := id wallet; userId := userId wallet; name := name wallet;
     currency := currency wallet; balance := b;
     isPrimary := isPrimary wallet; createdAt := createdAt wallet |}.
End Wallet.

Module InsertWallet.
Record t := mk {
  userId : Z;
  name : option string;
  currency : Currency;
  balance : option float;
  isPrimary : option bool
}.
End InsertWallet.

Module InsertTransaction.
Record t := mk {
  userId : Z;
  fromWalletId : option Z;
  toWalletId : option Z;
  type : string;
  amount : float;
  fromCurrency : option Currency;
  toCurrency : option Currency;
  rate : option float;
  description : option string;
  status : string
}.
End InsertTransaction.

Module Transaction.
Record t := mk {
  id : Z;
  userId : Z;
  fromWalletId : option Z;
  toWalletId : option Z;
  type : string;
  amount : float;
  fromCurrency : option Currency;
  toCurrency : option Currency;
  rate : option float;
  description : option string;
  status : string;
  createdAt : Z
}.

(** [{ ...transactionData, id, createdAt }] *)
Definition of_insert (d : InsertTransaction.t) (i now : Z) : t :=
  {| id := i;
     userId := InsertTransaction.userId d;
     fromWalletId := InsertTransaction.fromWalletId d;
     toWalletId := InsertTransaction.toWalletId d;
     type := InsertTransaction.type d;
     amount := InsertTransaction.amount d;
     fromCurrency := InsertTransaction.fromCurrency d;
     toCurrency := InsertTransaction.toCurrency d;
     rate := InsertTransaction.rate d;
     description := InsertTransaction.description d;
     status := InsertTransaction.status d;
     createdAt := now |}.
End Transaction.

(** The bodies of the three validated requests ([transferFundsSchema],
    [convertCurrencySchema], [addFundsSchema]). *)
Module TransferFunds.
Record t := mk {
  fromWalletId : Z;
  toWalletId : Z;
  amount : float;
  description : option string
}.
End TransferFunds.

Module ConvertCurrency.
Record t := mk { fromWalletId : Z; toWalletId : Z; amount : float }.
End ConvertCurrency.

Module AddFunds.
Record t := mk { walletId : Z; amount : float }.
End AddFunds.

(** [z.number().positive(..)]: the one constraint the three schemas put on
    [amount] beyond its being a number. *)
Definition positive_number (x : float) : bool := (0 <? x)%float.

Definition transferFundsSchema (b : TransferFunds.t) : bool :=
  positive_number (TransferFunds.amount b).
Definition convertCurrencySchema (b : ConvertCurrency.t) : bool :=
  positive_number (ConvertCurrency.amount b).
Definition addFundsSchema (b : AddFunds.t) : bool :=
  positive_number (AddFunds.amount b).

(** ** server/storage.ts *)

(** A JavaScript [Map] read in insertion order. *)
Module JsMap.
Section WithValue.
Context {V : Type}.

(** [set] keeps the position of a key that is present and appends a new
    one. *)
Fixpoint set (k : Z) (v : V) (m : list (Z * V)) : list (Z * V) :=
  match m with
  | [] => [(k, v)]
  | (k', v') :: m' =>
      if Z.eqb k' k then (k, v) :: m' else (k', v') :: set k v m'
  end.

Definition values (m : list (Z * V)) : list V := map snd m.
End WithValue.
End JsMap.

Record MemStorage := mkStorage {
  wallets : gmap Z Wallet.t;
  transactions : list (Z * Transaction.t);
  walletId : Z;
  transactionId : Z
}.

(** [new MemStorage()] *)
Definition MemStorage_new : MemStorage :=
  {| wallets := ∅; transactions := []; walletId := 1; transactionId := 1 |}.

Definition getWallet (id : Z) (st : MemStorage) : option Wallet.t :=
  wallets st !! id.

Definition createWallet (walletData : InsertWallet.t) (now : Z)
    (st : MemStorage) : Wallet.t * MemStorage :=
  let id := walletId st in
  let wallet :=
    {| Wallet.id := id;
       Wallet.userId := InsertWallet.userId walletData;
       Wallet.name := InsertWallet.name walletData;
       Wallet.currency := InsertWallet.currency walletData;
       Wallet.balance :=
         match InsertWallet.balance walletData with
         | Some b => if Js.truthy b then b else 0%float
         | None => 0%float
         end;
       Wallet.isPrimary := InsertWallet.isPrimary walletData;
       Wallet.createdAt := now |} in
  (wallet,
   {| wallets := <[id := wallet]> (wallets st);
      transactions := transactions st;
      walletId := id + 1;
      transactionId := transactionId st |}).

Definition updateWalletBalance (id : Z) (balance : float) (st : MemStorage)
    : option Wallet.t * MemStorage :=
  match wallets st !! id with
  | None => (None, st)
  | Some wallet =>
      let updatedWallet := Wallet.with_balance wallet balance in
      (Some updatedWallet,
       {| wallets := <[id := updatedWallet]> (wallets st);
          transactions := transactions st;
          walletId := walletId st;
          transactionId := transactionId st |})
  end.

Definition createTransaction (transactionData : InsertTransaction.t) (now : Z)
    (st : MemStorage) : Transaction.t * MemStorage :=
  let id := transactionId st in
  let transaction := Transaction.of_insert transactionData id now in
  (transaction,
   {| wallets := wallets st;
      transactions := JsMap.set id transaction (transactions st);
      walletId := walletId st;
      transactionId := id + 1 |}).

(** [Array.prototype.sort(compareFn)] and [slice(0, end)].  The sort is stable
    and puts [a] before [b] when [compareFn a b] is negative; an insertion
    sort from the right end has exactly this result whenever [compareFn] is a
    consistent comparator. *)
Module JsArray.
Section Sort.
Context {A : Type} (compareFn : A → A → Z).

Fixpoint insert (x : A) (l : list A) : list A :=
  match l with
  | [] => [x]
  | y :: l' => if compareFn x y <=? 0 then x :: l else y :: insert x l'
  end.

Definition sort (l : list A) : list A := foldr insert [] l.
End Sort.

(** A negative [end] counts from the end of the array. *)
Definition slice0 {A : Type} (l : list A) (e : Z) : list A :=
  let len := Z.of_nat (length l) in
  let k := if e <? 0 then Z.max (len + e) 0 else Z.min e len in
  take (Z.to_nat k) l.
End JsArray.

(** [(a, b) => b.createdAt.getTime() - a.createdAt.getTime()] *)
Definition byCreatedAtDesc (a b : Transaction.t) : Z :=
  Transaction.createdAt b - Transaction.createdAt a.

(** [limit ? list.slice(0, limit) : list]; an absent limit and the limit 0 are
    both falsy. *)
Definition limited {A : Type} (limit : option Z) (l : list A) : list A :=
  match limit with
  | Some n => if n =? 0 then l else JsArray.slice0 l n
  | None => l
  end.

Definition getTransactions (userId : Z) (limit : option Z) (st : MemStorage)
    : list Transaction.t :=
  let userTransactions :=
    JsArray.sort byCreatedAtDesc
      (List.filter (λ transaction, Transaction.userId transaction =? userId)
         (JsMap.values (transactions st))) in
  limited limit userTransactions.

Definition getWalletTransactions (walletId : Z) (limit : option Z)
    (st : MemStorage) : list Transaction.t :=
  let walletTransactions :=
    JsArray.sort byCreatedAtDesc
      (List.filter
         (λ transaction,
            bool_decide (Transaction.fromWalletId transaction = Some walletId)
            || bool_decide (Transaction.toWalletId transaction = Some walletId))
         (JsMap.values (transactions st))) in
  limited limit walletTransactions.

(** ** server/routes.ts *)

(** Exchange rates (simulated). *)
Definition exchangeRates : list (Currency * list (Currency * float)) :=
  [ (USD, [(EUR, 0.915%float); (GBP, 0.79%float); (USD, 1%float)]);
    (EUR, [(USD, 1.093%float); (GBP, 0.863%float); (EUR, 1%float)]);
    (GBP, [(USD, 1.266%float); (EUR, 1.159%float); (GBP, 1%float)]) ].

(** Own-property lookup [o[k]]. *)
Fixpoint property {V : Type} (o : list (Currency * V)) (k : Currency)
    : option V :=
  match o with
  | [] => None
  | (k', v) :: o' => if bool_decide (k' = k) then Some v else property o' k
  end.

(** [exchangeRates[from]?.[to]] *)
Definition rateFor (from to : Currency) : option float :=
  match property exchangeRates from with
  | Some row => property row to
  | None => None
  end.

Inductive Body :=
| Message (message : string)
| ValidationError
| TransferBody (message : string) (transaction : Transaction.t)
    (fromWallet toWallet : option Wallet.t)
| ConversionBody (message : string) (transaction : Transaction.t)
    (fromWallet toWallet : option Wallet.t) (rate convertedAmount : float)
| DepositBody (message : string) (transaction : Transaction.t)
    (wallet : option Wallet.t).

(** [res.status(status).json(body)] *)
Record Response := json { status : Z; body : Body }.

(** [description || 'Transfer between wallets'] *)
Definition descriptionOr (description : option string) (default : string)
    : string :=
  match description with
  | Some EmptyString | None => default
  | Some s => s
  end.

(** POST /api/transfers, after the request body has passed
    [transferFundsSchema]. *)
Definition transfer (user : Z) (data : TransferFunds.t) (now : Z)
    (st : MemStorage) : Response * MemStorage :=
  let fromWalletId := TransferFunds.fromWalletId data in
  let toWalletId := TransferFunds.toWalletId data in
  let amount := TransferFunds.amount data in
  match getWallet fromWalletId st, getWallet toWalletId st with
  | Some fromWallet, Some toWallet =>
      if negb (Wallet.userId fromWallet =? user)
         || negb (Wallet.userId toWallet =? user)
      then (json 403 (Message "You do not have access to these wallets"), st)
      else if negb (bool_decide
                      (Wallet.currency fromWallet = Wallet.currency toWallet))
      then (json 400 (Message
              "Cannot transfer between different currencies. Use conversion instead."),
            st)
      else if (Js.Number (Wallet.balance fromWallet) <? amount)%float
      then (json 400 (Message "Insufficient funds in source wallet"), st)
      else
        let fromBalance :=
          (Js.Number (Wallet.balance fromWallet) - amount)%float in
        let toBalance :=
          (Js.Number (Wallet.balance toWallet) + amount)%float in
        let st1 := (updateWalletBalance fromWalletId fromBalance st).2 in
        let st2 := (updateWalletBalance toWalletId toBalance st1).2 in
        let transaction :=
          {| InsertTransaction.userId := user;
             InsertTransaction.fromWalletId := Some fromWalletId;
             InsertTransaction.toWalletId := Some toWalletId;
             InsertTransaction.type := "transfer";
             InsertTransaction.amount := amount;
             InsertTransaction.fromCurrency :=
               Some (Wallet.currency fromWallet);
             InsertTransaction.toCurrency := Some (Wallet.currency toWallet);
             InsertTransaction.rate := None;
             InsertTransaction.description :=
               Some (descriptionOr (TransferFunds.description data)
                       "Transfer between wallets");
             InsertTransaction.status := "completed" |} in
        let '(newTransaction, st3) := createTransaction transaction now st2 in
        (json 201
           (TransferBody "Transfer successful" newTransaction
              (getWallet fromWalletId st3) (getWallet toWalletId st3)),
         st3)
  | _, _ => (json 404 (Message "One or both wallets not found"), st)
  end.

(** POST /api/conversions, after [convertCurrencySchema]. *)
Definition convert (user : Z) (data : ConvertCurrency.t) (now : Z)
    (st : MemStorage) : Response * MemStorage :=
  let fromWalletId := ConvertCurrency.fromWalletId data in
  let toWalletId := ConvertCurrency.toWalletId data in
  let amount := ConvertCurrency.amount data in
  match getWallet fromWalletId st, getWallet toWalletId st with
  | Some fromWallet, Some toWallet =>
      if negb (Wallet.userId fromWallet =? user)
         || negb (Wallet.userId toWallet =? user)
      then (json 403 (Message "You do not have access to these wallets"), st)
      else if (Js.Number (Wallet.balance fromWallet) <? amount)%float
      then (json 400 (Message "Insufficient funds in source wallet"), st)
      else
        match rateFor (Wallet.currency fromWallet) (Wallet.currency toWallet)
        with
        | Some rate =>
            if negb (Js.truthy rate)
            then (json 400
                    (Message "Exchange rate not available for this pair"), st)
            else
              let convertedAmount := (amount * rate)%float in
              let fromBalance :=
                (Js.Number (Wallet.balance fromWallet) - amount)%float in
              let toBalance :=
                (Js.Number (Wallet.balance toWallet) + convertedAmount)%float
              in
              let st1 := (updateWalletBalance fromWalletId fromBalance st).2 in
              let st2 := (updateWalletBalance toWalletId toBalance st1).2 in
              let transaction :=
                {| InsertTransaction.userId := user;
                   InsertTransaction.fromWalletId := Some fromWalletId;
                   InsertTransaction.toWalletId := Some toWalletId;
                   InsertTransaction.type := "conversion";
                   InsertTransaction.amount := amount;
                   InsertTransaction.fromCurrency :=
                     Some (Wallet.currency fromWallet);
                   InsertTransaction.toCurrency :=
                     Some (Wallet.currency toWallet);
                   InsertTransaction.rate := Some rate;
                   InsertTransaction.description :=
                     Some ("Converted " +:+ code (Wallet.currency fromWallet)
                           +:+ " to " +:+ code (Wallet.currency toWallet));
                   InsertTransaction.status := "completed" |} in
              let '(newTransaction, st3) :=
                createTransaction transaction now st2 in
              (json 201
                 (ConversionBody "Conversion successful" newTransaction
                    (getWallet fromWalletId st3) (getWallet toWalletId st3)
                    rate convertedAmount),
               st3)
        | None =>
            (json 400 (Message "Exchange rate not available for this pair"),
             st)
        end
  | _, _ => (json 404 (Message "One or both wallets not found"), st)
  end.

(** POST /api/deposits, after [addFundsSchema]. *)
Definition deposit (user : Z) (data : AddFunds.t) (now : Z) (st : MemStorage)
    : Response * MemStorage :=
  let walletId := AddFunds.walletId data in
  let amount := AddFunds.amount data in
  match getWallet walletId st with
  | None => (json 404 (Message "Wallet not found"), st)
  | Some wallet =>
      if negb (Wallet.userId wallet =? user)
      then (json 403 (Message "You do not have access to this wallet"), st)
      else
        let newBalance := (Js.Number (Wallet.balance wallet) + amount)%float in
        let st1 := (updateWalletBalance walletId newBalance st).2 in
        let transaction :=
          {| InsertTransaction.userId := user;
             InsertTransaction.fromWalletId := None;
             InsertTransaction.toWalletId := Some walletId;
             InsertTransaction.type := "deposit";
             InsertTransaction.amount := amount;
             InsertTransaction.fromCurrency := None;
             InsertTransaction.toCurrency := Some (Wallet.currency wallet);
             InsertTransaction.rate := None;
             InsertTransaction.description := Some "Added funds to wallet";
             InsertTransaction.status := "completed" |} in
        let '(newTransaction, st2) := createTransaction transaction now st1 in
        (json 201
           (DepositBody "Deposit successful" newTransaction
              (getWallet walletId st2)),
         st2)
  end.

(** The three routes with their schema validation in front. *)
Definition post_api_transfers (user : Z) (reqBody : TransferFunds.t) (now : Z)
    (st : MemStorage) : Response * MemStorage :=
  if transferFundsSchema reqBody then transfer user reqBody now st
  else (json 400 ValidationError, st).

Definition post_api_conversions (user : Z) (reqBody : ConvertCurrency.t)
    (now : Z) (st : MemStorage) : Response * MemStorage :=
  if convertCurrencySchema reqBody then convert user reqBody now st
  else (json 400 ValidationError, st).

Definition post_api_deposits (user : Z) (reqBody : AddFunds.t) (now : Z)
    (st : MemStorage) : Response * MemStorage :=
  if addFundsSchema reqBody then deposit user reqBody now st
  else (json 400 ValidationError, st).

(** GET /api/transactions: [req.query.limit ? parseInt(..) : 10]. *)
Definition get_api_transactions (user : Z) (queryLimit : option Z)
    (st : MemStorage) : list Transaction.t :=
  getTransactions user (Some (default 10 queryLimit)) st.

(** ** Vocabulary of the properties *)

(** The ledger entries of the three operations. *)
Definition transferEntry (user : Z) (data : TransferFunds.t)
    (fromWallet toWallet : Wallet.t) : InsertTransaction.t :=
  {| InsertTransaction.userId := user;
     InsertTransaction.fromWalletId := Some (TransferFunds.fromWalletId data);
     InsertTransaction.toWalletId := Some (TransferFunds.toWalletId data);
     InsertTransaction.type := "transfer";
     InsertTransaction.amount := TransferFunds.amount data;
     InsertTransaction.fromCurrency := Some (Wallet.currency fromWallet);
     InsertTransaction.toCurrency := Some (Wallet.currency toWallet);
     InsertTransaction.rate := None;
     InsertTransaction.description :=
       Some (descriptionOr (TransferFunds.description data)
               "Transfer between wallets");
     InsertTransaction.status := "completed" |}.

Definition conversionEntry (user : Z) (data : ConvertCurrency.t)
    (fromWallet toWallet : Wallet.t) (rate : float) : InsertTransaction.t :=
  {| InsertTransaction.userId := user;
     InsertTransaction.fromWalletId :=
       Some (ConvertCurrency.fromWalletId data);
     InsertTransaction.toWalletId := Some (ConvertCurrency.toWalletId data);
     InsertTransaction.type := "conversion";
     InsertTransaction.amount := ConvertCurrency.amount data;
     InsertTransaction.fromCurrency := Some (Wallet.currency fromWallet);
     InsertTransaction.toCurrency := Some (Wallet.currency toWallet);
     InsertTransaction.rate := Some rate;
     InsertTransaction.description :=
       Some ("Converted " +:+ code (Wallet.currency fromWallet)
             +:+ " to " +:+ code (Wallet.currency toWallet));
     InsertTransaction.status := "completed" |}.

Definition depositEntry (user : Z) (data : AddFunds.t) (wallet : Wallet.t)
    : InsertTransaction.t :=
  {| InsertTransaction.userId := user;
     InsertTransaction.fromWalletId := None;
     InsertTransaction.toWalletId := Some (AddFunds.walletId data);
     InsertTransaction.type := "deposit";
     InsertTransaction.amount := AddFunds.amount data;
     InsertTransaction.fromCurrency := None;
     InsertTransaction.toCurrency := Some (Wallet.currency wallet);
     InsertTransaction.rate := None;
     InsertTransaction.description := Some "Added funds to wallet";
     InsertTransaction.status := "completed" |}.

(** What a store looks like after an operation went through: the balances
    named in [updates] were written in that order and [entry] was recorded. *)
Definition committed (st st' : MemStorage) (updates : list (Z * float))
    (entry : InsertTransaction.t) (now : Z) : Prop :=
  wallets st'
  = foldl (λ m u, alter (λ w, Wallet.with_balance w u.2) u.1 m)
      (wallets st) updates
  ∧ transactions st'
    = JsMap.set (transactionId st)
        (Transaction.of_insert entry (transactionId st) now) (transactions st)
  ∧ walletId st' = walletId st
  ∧ transactionId st' = transactionId st + 1.

Definition same_but_balance (w w' : Wallet.t) : Prop :=
  Wallet.id w' = Wallet.id w
  ∧ Wallet.userId w' = Wallet.userId w
  ∧ Wallet.name w' = Wallet.name w
  ∧ Wallet.currency w' = Wallet.currency w
  ∧ Wallet.isPrimary w' = Wallet.isPrimary w
  ∧ Wallet.createdAt w' = Wallet.createdAt w.

(** The two stores hold the same wallets under the same keys, up to their
    balances. *)
Definition balances_only (st st' : MemStorage) : Prop :=
  ∀ id, option_Forall2 same_but_balance (wallets st !! id) (wallets st' !! id).

(** The error taxonomy of the handlers, read off the status and message of a
    response. *)
Inductive Outcome :=
| Succeeded
| NotFound
| Forbidden
| InvalidOperation
| InsufficientFunds.

Definition outcome (r : Response) : option Outcome :=
  match body r with
  | Message m =>
      if status r =? 404 then Some NotFound
      else if status r =? 403 then Some Forbidden
      else if status r =? 400 then
        if String.eqb m "Insufficient funds in source wallet"
        then Some InsufficientFunds
        else if String.eqb m
                  "Cannot transfer between different currencies. Use conversion instead."
                || String.eqb m "Exchange rate not available for this pair"
        then Some InvalidOperation
        else None
      else None
  | ValidationError => None
  | TransferBody _ _ _ _ | ConversionBody _ _ _ _ _ _ | DepositBody _ _ _ =>
      if status r =? 201 then Some Succeeded else None
  end.

(** The order of checks of a transfer as the specification words it: both
    wallets exist, both are owned by the acting account, both have the same
    currency, the source balance is not below the amount. *)
Definition transfer_checks (user : Z) (data : TransferFunds.t)
    (st : MemStorage) : Outcome :=
  match getWallet (TransferFunds.fromWalletId data) st,
        getWallet (TransferFunds.toWalletId data) st with
  | Some fromWallet, Some toWallet =>
      if bool_decide (Wallet.userId fromWallet ≠ user
                      ∨ Wallet.userId toWallet ≠ user)
      then Forbidden
      else if bool_decide (Wallet.currency fromWallet
                           ≠ Wallet.currency toWallet)
      then InvalidOperation
      else if (Wallet.balance fromWallet <? TransferFunds.amount data)%float
      then InsufficientFunds
      else Succeeded
  | _, _ => NotFound
  end.

(** The stores the server can be in: it starts from [new MemStorage()];
    [createWallet] is called by POST /api/auth/register and POST /api/wallets,
    both with [balance: 0]; the three ledger routes do the rest.  The checks
    the two wallet-creating routes make before they call [createWallet] are
    not part of the relation, so it admits every store the server reaches and
    more (an account with two wallets of one currency, say). *)
Inductive reachable : MemStorage → Prop :=
| reachable_new : reachable MemStorage_new
| reachable_createWallet st userId name currency isPrimary now :
    reachable st →
    reachable
      (createWallet
         {| InsertWallet.userId := userId; InsertWallet.name := name;
            InsertWallet.currency := currency;
            InsertWallet.balance := Some 0%float;
            InsertWallet.isPrimary := isPrimary |} now st).2
| reachable_transfers st user reqBody now :
    reachable st → reachable (post_api_transfers user reqBody now st).2
| reachable_conversions st user reqBody now :
    reachable st → reachable (post_api_conversions user reqBody now st).2
| reachable_deposits st user reqBody now :
    reachable st → reachable (post_api_deposits user reqBody now st).2.

(** Every key of the transactions map is below the next identifier. *)
Definition ids_fresh (st : MemStorage) : Prop :=
  Forall (λ kv, kv.1 < transactionId st) (transactions st).

Definition no_negative_balance (st : MemStorage) : Prop :=
  ∀ id w, wallets st !! id = Some w → Js.negative (Wallet.balance w) = false.

(** The ledger of a store, oldest entry first. *)
Definition ledger (st : MemStorage) : list Transaction.t :=
  JsMap.values (transactions st).


(** The currencies of the rate table, and the ordered pairs it covers: the
    pairs over USD, EUR and GBP, identity pairs included. *)
Definition quoted (c : Currency) : bool :=
  match c with
  | USD | EUR | GBP => true
  | JPY | CAD | AUD | CHF => false
  end.

Definition covered (from to : Currency) : bool := quoted from && quoted to.

(** The [convertedAmount] field of a conversion response. *)
Definition convertedAmountOf (r : Response) : option float :=
  match body r with
  | ConversionBody _ _ _ _ _ convertedAmount => Some convertedAmount
  | _ => None
  end.

(** [a] may come before [b] in a listing: it was not created earlier. *)
Definition newer_first (a b : Transaction.t) : Prop :=
  Transaction.createdAt b <= Transaction.createdAt a.

(** ** Example stores *)

Definition newWallet (user : Z) (c : Currency) (primary : bool)
    : InsertWallet.t :=
  {| InsertWallet.userId := user; InsertWallet.name := Some (code c);
     InsertWallet.currency := c; InsertWallet.balance := Some 0%float;
     InsertWallet.isPrimary := Some primary |}.

(** Account 1 holds wallet 1 (USD), account 2 holds wallet 2 (USD). *)
Definition store_two_accounts : MemStorage :=
  (createWallet (newWallet 2 USD true) 1000
     (createWallet (newWallet 1 USD true) 1000 MemStorage_new).2).2.

(** Account 1 holds wallet 1 (USD) and wallet 2 (EUR), with [usd] and [eur]
    deposited into them. *)
Definition store_usd_eur (usd eur : float) : MemStorage :=
  (post_api_deposits 1
     {| AddFunds.walletId := 2; AddFunds.amount := eur |} 1003
     (post_api_deposits 1
        {| AddFunds.walletId := 1; AddFunds.amount := usd |} 1002
        (createWallet (newWallet 1 EUR false) 1001
           (createWallet (newWallet 1 USD true) 1000 MemStorage_new).2).2).2).2.

(** Account 1 holds two USD wallets, 1 and 2, with [a] and [b] deposited into
    them.  The second wallet is made by a direct [createWallet] call. *)
Definition store_two_usd (a b : float) : MemStorage :=
  (post_api_deposits 1
     {| AddFunds.walletId := 2; AddFunds.amount := b |} 1003
     (post_api_deposits 1
        {| AddFunds.walletId := 1; AddFunds.amount := a |} 1002
        (createWallet (newWallet 1 USD false) 1001
           (createWallet (newWallet 1 USD true) 1000 MemStorage_new).2).2).2).2.

(** [store_two_accounts] after account 2 has deposited 10.00 into its
    wallet. *)
Definition store_two_accounts_funded : MemStorage :=
  (post_api_deposits 2
     {| AddFunds.walletId := 2; AddFunds.amount := 10%float |} 1002
     store_two_accounts).2.

(** * The rest of the server, and the client code that depends on it *)

(** ** shared/schema.ts: users and the remaining request bodies *)

Module User.
Record t := mk {
  id : Z;
  name : string;
  email : string;
  password : string;
  createdAt : Z
}.
End User.

Module InsertUser.
Record t := mk { name : string; email : string; password : string }.
End InsertUser.

(** [registerUserSchema]: the insert schema with [confirmPassword], refined by
    [data.password === data.confirmPassword]. *)
Module RegisterUser.
Record t := mk {
  name : string;
  email : string;
  password : string;
  confirmPassword : string
}.
End RegisterUser.

Definition registerUserSchema (b : RegisterUser.t) : bool :=
  String.eqb (RegisterUser.password b) (RegisterUser.confirmPassword b).

(** [addWalletSchema]: [currency] and the optional [name]. *)
Module AddWallet.
Record t := mk { currency : string; name : option string }.
End AddWallet.

(** ** server/storage.ts: the users map *)

(** [Map.prototype.get] on a map kept in insertion order. *)
Fixpoint JsMap_get {V : Type} (k : Z) (m : list (Z * V)) : option V :=
  match m with
  | [] => None
  | (k', v) :: m' => if Z.eqb k' k then Some v else JsMap_get k m'
  end.

(** The fields [users] and [userId] of [MemStorage] and the three methods
    that use them. *)
Module Users.
Record t := mk { users : list (Z * User.t); userId : Z }.

Definition new : t := {| users := []; userId := 1 |}.

Definition getUser (id : Z) (us : t) : option User.t :=
  JsMap_get id (users us).

Definition getUserByEmail (email : string) (us : t) : option User.t :=
  List.find (λ user, String.eqb (User.email user) email)
    (JsMap.values (users us)).

Definition createUser (userData : InsertUser.t) (now : Z) (us : t)
    : User.t * t :=
  let id := userId us in
  let user :=
    {| User.id := id;
       User.name := InsertUser.name userData;
       User.email := InsertUser.email userData;
       User.password := InsertUser.password userData;
       User.createdAt := now |} in
  (user, {| users := JsMap.set id user (users us); userId := id + 1 |}).
End Users.

(** ** server/storage.ts: listing wallets *)

Definition byKey (a b : Z * Wallet.t) : Prop := a.1 <= b.1.

#[global] Instance byKey_dec : RelDecision byKey.
Proof. intros a b. unfold byKey. apply _. Defined.

(** [Array.from(this.wallets.values())].  A [Map] hands out its values in
    insertion order; wallet keys are handed out in increasing order and a
    balance update keeps the place of its key, so this is the order of the
    keys. *)
Definition walletValues (st : MemStorage) : list Wallet.t :=
  (merge_sort byKey (map_to_list (wallets st))).*2.

Definition getWallets (userId : Z) (st : MemStorage) : list Wallet.t :=
  List.filter (λ wallet, Wallet.userId wallet =? userId) (walletValues st).

(** ** server/routes.ts: registration, wallets, wallet details *)

(** The whole of [storage]: the users half and the ledger half. *)
Record Server := mkServer { accounts : Users.t; storage : MemStorage }.

Definition Server_new : Server :=
  {| accounts := Users.new; storage := MemStorage_new |}.

Inductive Payload :=
| PMessage (message : string)
| PValidationError
| PRegistered (message : string) (id : Z) (name email : string)
| PWallet (wallet : Wallet.t)
| PWallets (wallets : list Wallet.t)
| PWalletDetails (wallet : Wallet.t) (transactions : list Transaction.t).

Record Reply := reply { replyStatus : Z; payload : Payload }.

(** [availableCurrencies.includes(currency)], with the currency found. *)
Definition currencyOfCode (s : string) : option Currency :=
  List.find (λ c, String.eqb (code c) s) availableCurrencies.

(** POST /api/auth/register.  [hashedPassword] is what [hashPassword]
    returned for this request; [nowUser] and [nowWallet] are the two clock
    readings; [req.login] is taken to succeed. *)
Definition register (reqBody : RegisterUser.t) (hashedPassword : string)
    (nowUser nowWallet : Z) (sv : Server) : Reply * Server :=
  if negb (registerUserSchema reqBody) then (reply 400 PValidationError, sv)
  else
    match Users.getUserByEmail (RegisterUser.email reqBody) (accounts sv) with
    | Some existingUser => (reply 400 (PMessage "User already exists"), sv)
    | None =>
        let '(user, accounts') :=
          Users.createUser
            {| InsertUser.email := RegisterUser.email reqBody;
               InsertUser.password := hashedPassword;
               InsertUser.name := RegisterUser.name reqBody |}
            nowUser (accounts sv) in
        let '(_, storage') :=
          createWallet
            {| InsertWallet.userId := User.id user;
               InsertWallet.currency := USD;
               InsertWallet.name := Some "Primary";
               InsertWallet.balance := Some 0%float;
               InsertWallet.isPrimary := Some true |}
            nowWallet (storage sv) in
        (reply 201
           (PRegistered "Registration successful" (User.id user)
              (User.name user) (User.email user)),
         {| accounts := accounts'; storage := storage' |})
    end.

(** GET /api/wallets *)
Definition get_api_wallets (user : Z) (st : MemStorage) : Reply :=
  reply 200 (PWallets (getWallets user st)).

(** POST /api/wallets, after [addWalletSchema]. *)
Definition post_api_wallets (user : Z) (reqBody : AddWallet.t) (now : Z)
    (st : MemStorage) : Reply * MemStorage :=
  match currencyOfCode (AddWallet.currency reqBody) with
  | None => (reply 400 (PMessage "Invalid currency"), st)
  | Some currency =>
      let userWallets := getWallets user st in
      match List.find (λ w, bool_decide (Wallet.currency w = currency))
              userWallets with
      | Some existingWallet =>
          (reply 400
             (PMessage ("You already have a " +:+ code currency
                        +:+ " wallet")), st)
      | None =>
          let newWallet :=
            {| InsertWallet.userId := user;
               InsertWallet.currency := currency;
               InsertWallet.name :=
                 Some (descriptionOr (AddWallet.name reqBody) (code currency));
               InsertWallet.balance := Some 0%float;
               InsertWallet.isPrimary :=
                 Some (Nat.eqb (length userWallets) 0) |} in
          let '(wallet, st') := createWallet newWallet now st in
          (reply 201 (PWallet wallet), st')
      end
  end.

(** GET /api/wallets/:id *)
Definition get_api_wallet (user walletId : Z) (st : MemStorage) : Reply :=
  match getWallet walletId st with
  | None => reply 404 (PMessage "Wallet not found")
  | Some wallet =>
      if negb (Wallet.userId wallet =? user)
      then reply 403 (PMessage "You do not have access to this wallet")
      else
        reply 200
          (PWalletDetails wallet (getWalletTransactions walletId (Some 10) st))
  end.

(** ** Client code *)

(** lib/currency-utils.tsx, [convertCurrency]; [rates] is the table served by
    GET /api/rates, or nothing while it has not been fetched. *)
Definition convertCurrency (amount : float) (fromCurrency toCurrency : Currency)
    (rates : option (list (Currency * list (Currency * float)))) : float :=
  match rates with
  | None => 0%float
  | Some rates =>
      match property rates fromCurrency with
      | None => 0%float
      | Some row =>
          match property row toCurrency with
          | None => 0%float
          | Some rate =>
              if Js.truthy rate then (amount * rate)%float else 0%float
          end
      end
  end.

(** components/modals/transfer-modal.tsx: the destinations offered once a
    source wallet is chosen. *)
Definition filteredToWallets (wallets : list Wallet.t)
    (fromWallet : option Wallet.t) : list Wallet.t :=
  match fromWallet with
  | Some fromWallet =>
      List.filter
        (λ w, bool_decide (Wallet.currency w = Wallet.currency fromWallet)
              && negb (Wallet.id w =? Wallet.id fromWallet))
        wallets
  | None => []
  end.

(** ** Vocabulary of the further properties *)

(** One call of a route that writes to the ledger half of the store, or of
    [createWallet] as its two callers make it. *)
Inductive step (st : MemStorage) : MemStorage → Prop :=
| step_createWallet userId name currency isPrimary now :
    step st
      (createWallet
         {| InsertWallet.userId := userId; InsertWallet.name := name;
            InsertWallet.currency := currency;
            InsertWallet.balance := Some 0%float;
            InsertWallet.isPrimary := isPrimary |} now st).2
| step_transfers user reqBody now :
    step st (post_api_transfers user reqBody now st).2
| step_conversions user reqBody now :
    step st (post_api_conversions user reqBody now st).2
| step_deposits user reqBody now :
    step st (post_api_deposits user reqBody now st).2.

(** The stores the server reaches through its routes alone: registration,
    and the wallet and ledger routes called by a logged-in user ([req.user]
    is what [getUser] returns for the session's user id). *)
Inductive api_reachable : Server → Prop :=
| api_new : api_reachable Server_new
| api_register sv reqBody hashedPassword nowUser nowWallet :
    api_reachable sv →
    api_reachable (register reqBody hashedPassword nowUser nowWallet sv).2
| api_wallets sv session user reqBody now :
    api_reachable sv →
    Users.getUser session (accounts sv) = Some user →
    api_reachable
      {| accounts := accounts sv;
         storage :=
           (post_api_wallets (User.id user) reqBody now (storage sv)).2 |}
| api_transfers sv session user reqBody now :
    api_reachable sv →
    Users.getUser session (accounts sv) = Some user →
    api_reachable
      {| accounts := accounts sv;
         storage :=
           (post_api_transfers (User.id user) reqBody now (storage sv)).2 |}
| api_conversions sv session user reqBody now :
    api_reachable sv →
    Users.getUser session (accounts sv) = Some user →
    api_reachable
      {| accounts := accounts sv;
         storage :=
           (post_api_conversions (User.id user) reqBody now (storage sv)).2 |}
| api_deposits sv session user reqBody now :
    api_reachable sv →
    Users.getUser session (accounts sv) = Some user →
    api_reachable
      {| accounts := accounts sv;
         storage :=
           (post_api_deposits (User.id user) reqBody now (storage sv)).2 |}.

(** A ledger entry names wallet [id] as its source or its destination. *)
Definition names (entry : Transaction.t) (id : Z) : Prop :=
  Transaction.fromWalletId entry = Some id
  ∨ Transaction.toWalletId entry = Some id.

(** No account holds two wallets of one currency. *)
Definition one_wallet_per_currency (st : MemStorage) : Prop :=
  ∀ id1 id2 w1 w2,
    getWallet id1 st = Some w1 → getWallet id2 st = Some w2 →
    Wallet.userId w1 = Wallet.userId w2 →
    Wallet.currency w1 = Wallet.currency w2 →
    id1 = id2.

(** The wallets an entry names exist and belong to the entry's account. *)
Definition owned_entry (st : MemStorage) (entry : Transaction.t) : Prop :=
  ∀ id, names entry id →
    ∃ w, getWallet id st = Some w
         ∧ Wallet.userId w = Transaction.userId entry.

(** Wallets sit under their own identifiers, which are exactly the numbers
    from 1 up to, not including, the next identifier. *)
Definition wallets_wf (st : MemStorage) : Prop :=
  1 <= walletId st
  ∧ ∀ id,
      (∀ w, getWallet id st = Some w → Wallet.id w = id)
      ∧ (is_Some (getWallet id st) ↔ 1 <= id < walletId st).

(** Every wallet of [st] is still there in [st'], with the fields that
    [same_but_balance] compares. *)
Definition wallets_kept (st st' : MemStorage) : Prop :=
  ∀ id w, getWallet id st = Some w →
    ∃ w', getWallet id st' = Some w' ∧ same_but_balance w w'.

(** The entries of the ledger are numbered 1, 2, 3, ... in the order in which
    they were made, and the next identifier follows the last one. *)
Definition ledger_numbered (st : MemStorage) : Prop :=
  transactionId st = Z.of_nat (length (ledger st)) + 1
  ∧ ∀ k entry,
      ledger st !! k = Some entry → Transaction.id entry = Z.of_nat k + 1.

(** What the entry of a request names, and which balances were written. *)
Definition entry_facts (st : MemStorage) (updates : list (Z * float))
    (entry : InsertTransaction.t) : Prop :=
  (∀ tid now, owned_entry st (Transaction.of_insert entry tid now))
  ∧ Forall
      (λ u, InsertTransaction.fromWalletId entry = Some u.1
            ∨ InsertTransaction.toWalletId entry = Some u.1) updates.

(** User keys are the numbers below the next identifier, and a user sits
    under its own identifier. *)
Definition users_wf (us : Users.t) : Prop :=
  1 <= Users.userId us
  ∧ Forall (λ kv, 1 <= kv.1 < Users.userId us ∧ User.id kv.2 = kv.1)
      (Users.users us).

(** Every wallet belongs to a registered user. *)
Definition owners_registered (sv : Server) : Prop :=
  ∀ id w, getWallet id (storage sv) = Some w →
    1 <= Wallet.userId w < Users.userId (accounts sv).

(** No two users have the same email. *)
Definition emails_unique (us : Users.t) : Prop :=
  NoDup (User.email <$> JsMap.values (Users.users us)).

(** ** Example servers *)

(** One registered user. *)
Definition server_ada : Server :=
  (register
     {| RegisterUser.name := "Ada"; RegisterUser.email := "ada@example.org";
        RegisterUser.password := "secret";
        RegisterUser.confirmPassword := "secret" |}
     "hash1" 1000 1001 Server_new).2.

(** The user, logged in, has deposited 100 into the USD wallet. *)
Definition server_ada_funded : Server :=
  {| accounts := accounts server_ada;
     storage :=
       (post_api_deposits 1
          {| AddFunds.walletId := 1; AddFunds.amount := 100%float |}
          2000 (storage server_ada)).2 |}.

(** The user has then added a EUR wallet. *)
Definition server_ada_eur : Server :=
  {| accounts := accounts server_ada_funded;
     storage :=
       (post_api_wallets 1
          {| AddWallet.currency := "EUR"; AddWallet.name := None |}
          3000 (storage server_ada_funded)).2 |}.

(** The user has instead deposited 1e19 into the USD wallet, ... *)
Definition server_ada_large : Server :=
  {| accounts := accounts server_ada;
     storage :=
       (post_api_deposits 1
          {| AddFunds.walletId := 1; AddFunds.amount := 1e19%float |}
          2000 (storage server_ada)).2 |}.

(** ... added a EUR wallet, ... *)
Definition server_ada_large_eur : Server :=
  {| accounts := accounts server_ada_large;
     storage :=
       (post_api_wallets 1
          {| AddWallet.currency := "EUR"; AddWallet.name := None |}
          3000 (storage server_ada_large)).2 |}.

(** ... and deposited 0.1 into it. *)
Definition server_ada_large_funded : Server :=
  {| accounts := accounts server_ada_large_eur;
     storage :=
       (post_api_deposits 1
          {| AddFunds.walletId := 2; AddFunds.amount := 0.1%float |}
          3500 (storage server_ada_large_eur)).2 |}.

(** * Properties *)

(** ** Signs in binary64 arithmetic

    The primitive operations are specified by [SpecFloat]; what the ledger
    needs from them is that they never produce a negative number out of
    operands that are not negative, and that [x - y] is not negative when
    [x < y] is false and [y] is positive. *)

Lemma ltb_zero_spec x : (x <? 0)%float = negb (Js.SFnot_negative (Prim2SF x)).
Proof.
  rewrite ltb_spec. change (Prim2SF 0) with (S754_zero false).
  destruct (Prim2SF x) as [[]|[]| |[] ? ?]; reflexivity.
Qed.

Lemma binary_round_aux_not_neg mx ex lx :
  Js.SFnot_negative (binary_round_aux prec emax false mx ex lx) = true.
Proof.
  unfold binary_round_aux.
  destruct (shr_fexp prec emax mx ex lx) as [mrs' e'].
  destruct (shr_fexp prec emax _ e' loc_Exact) as [mrs'' e''].
  destruct (shr_m mrs''); [reflexivity| |reflexivity].
  destruct (e'' <=? emax - prec); reflexivity.
Qed.

Lemma binary_normalize_not_neg m e :
  0 <= m -> Js.SFnot_negative (binary_normalize prec emax m e false) = true.
Proof.
  intros Hm. destruct m as [|m|m]; [reflexivity| |lia].
  unfold binary_normalize, binary_round.
  destruct (shl_align _ _ _). apply binary_round_aux_not_neg.
Qed.

Lemma SFadd_not_neg x y :
  Js.SFnot_negative x = true -> Js.SFnot_negative y = true ->
  Js.SFnot_negative (SF64add x y) = true.
Proof.
  destruct x as [[]|[]| |[] mx ex], y as [[]|[]| |[] my ey];
    try discriminate; try reflexivity.
  intros _ _. apply binary_normalize_not_neg. simpl. lia.
Qed.

Lemma SFmul_not_neg x y :
  Js.SFnot_negative x = true -> Js.SFnot_negative y = true ->
  Js.SFnot_negative (SF64mul x y) = true.
Proof.
  destruct x as [[]|[]| |[] mx ex], y as [[]|[]| |[] my ey];
    try discriminate; try reflexivity.
  intros _ _. apply binary_round_aux_not_neg.
Qed.

Lemma shl_align_fst mx ex ez :
  ez <= ex -> Zpos (fst (shl_align mx ex ez)) = Zpos mx * 2 ^ (ex - ez).
Proof.
  intros H. unfold shl_align.
  destruct (ez - ex) as [|d|d] eqn:E.
  - replace (ex - ez) with 0 by lia. simpl. lia.
  - lia.
  - replace (ex - ez) with (Zpos d) by lia. simpl fst.
    change (Pos.iter xO mx d) with (shift_pos d mx).
    rewrite shift_pos_correct. change (Zpower_pos 2 d) with (2 ^ Zpos d).
    apply Z.mul_comm.
Qed.

Lemma digits2_pos_bounds m :
  2 ^ (Zpos (digits2_pos m) - 1) <= Zpos m < 2 ^ Zpos (digits2_pos m).
Proof.
  induction m as [m IH|m IH|]; simpl digits2_pos.
  - rewrite Pos2Z.inj_succ.
    replace (Z.succ (Zpos (digits2_pos m)) - 1)
      with (Z.succ (Zpos (digits2_pos m) - 1)) by lia.
    rewrite !Z.pow_succ_r by lia. lia.
  - rewrite Pos2Z.inj_succ.
    replace (Z.succ (Zpos (digits2_pos m)) - 1)
      with (Z.succ (Zpos (digits2_pos m) - 1)) by lia.
    rewrite !Z.pow_succ_r by lia. lia.
  - simpl. lia.
Qed.

Lemma bounded_digits m e :
  bounded prec emax m e = true ->
  Zpos (digits2_pos m) <= 53 /\ -1074 <= e
  /\ (-1074 < e -> Zpos (digits2_pos m) = 53).
Proof.
  unfold bounded, canonical_mantissa, fexp, emin, prec, emax.
  intros H. apply andb_true_iff in H as [H _]. apply Z.eqb_eq in H. lia.
Qed.

Lemma aligned_difference mx ex my ey :
  bounded prec emax mx ex = true -> bounded prec emax my ey = true ->
  SFltb (S754_finite false mx ex) (S754_finite false my ey) = false ->
  0 <= Zpos (fst (shl_align mx ex (Z.min ex ey)))
       - Zpos (fst (shl_align my ey (Z.min ex ey))).
Proof.
  intros Hx Hy. unfold SFltb, SFcompare.
  rewrite !shl_align_fst by lia.
  destruct (Z.compare_spec ex ey) as [->|Hlt|Hgt]; [|discriminate|].
  - rewrite Z.min_id, Z.sub_diag, Z.pow_0_r.
    change (Pos.compare_cont Eq mx my) with (mx ?= my)%positive.
    destruct (Pos.compare_spec mx my); try discriminate; intros _; lia.
  - intros _. rewrite Z.min_r by lia. rewrite Z.sub_diag, Z.pow_0_r.
    destruct (bounded_digits _ _ Hx) as (_ & _ & Hdx).
    destruct (bounded_digits _ _ Hy) as (Hdy & Hey & _).
    pose proof (digits2_pos_bounds mx) as [Hmx _].
    pose proof (digits2_pos_bounds my) as [_ Hmy].
    rewrite Hdx in Hmx by lia.
    assert (Zpos my < 2 ^ 53).
    { eapply Z.lt_le_trans; [exact Hmy|]. apply Z.pow_le_mono_r; lia. }
    assert (2 ^ 1 <= 2 ^ (ex - ey)) by (apply Z.pow_le_mono_r; lia).
    change (2 ^ (53 - 1)) with 4503599627370496 in Hmx.
    change (2 ^ 53) with 9007199254740992 in *.
    change (2 ^ 1) with 2 in *. nia.
Qed.

Lemma SFsub_not_neg x y :
  valid_binary x = true -> valid_binary y = true ->
  SFltb (S754_zero false) y = true ->
  SFltb x y = false ->
  Js.SFnot_negative (SF64sub x y) = true.
Proof.
  destruct x as [[]|[]| |[] mx ex], y as [[]|[]| |[] my ey];
    try discriminate; try reflexivity.
  intros Hx Hy _ Hlt. apply binary_normalize_not_neg.
  apply (aligned_difference mx ex my ey Hx Hy Hlt).
Qed.

Lemma add_not_negative x y :
  (x <? 0)%float = false -> (y <? 0)%float = false ->
  (x + y <? 0)%float = false.
Proof.
  rewrite !ltb_zero_spec, add_spec, !negb_false_iff. apply SFadd_not_neg.
Qed.

Lemma mul_not_negative x y :
  (x <? 0)%float = false -> (y <? 0)%float = false ->
  (x * y <? 0)%float = false.
Proof.
  rewrite !ltb_zero_spec, mul_spec, !negb_false_iff. apply SFmul_not_neg.
Qed.

Lemma sub_not_negative x y :
  (0 <? y)%float = true -> (x <? y)%float = false ->
  (x - y <? 0)%float = false.
Proof.
  rewrite ltb_zero_spec, sub_spec, negb_false_iff, !ltb_spec.
  change (Prim2SF 0) with (S754_zero false).
  apply SFsub_not_neg; apply Prim2SF_valid.
Qed.

Lemma positive_not_negative x :
  (0 <? x)%float = true -> (x <? 0)%float = false.
Proof.
  rewrite ltb_zero_spec, ltb_spec. change (Prim2SF 0) with (S754_zero false).
  destruct (Prim2SF x) as [[]|[]| |[] m e]; try discriminate; reflexivity.
Qed.

Lemma SFleb_not_ltb x y : SFleb x y = true -> SFltb y x = false.
Proof.
  unfold SFleb, SFltb.
  destruct x as [[]|[]| |[] mx ex], y as [[]|[]| |[] my ey]; simpl;
    try reflexivity; try discriminate.
  all: rewrite (Z.compare_antisym ex ey).
  all: destruct (ex ?= ey); simpl; try reflexivity; try discriminate.
  all: change (Pos.compare_cont Eq my mx) with (my ?= mx)%positive.
  all: change (Pos.compare_cont Eq mx my) with (mx ?= my)%positive.
  all: rewrite (Pos.compare_antisym mx my).
  all: destruct (mx ?= my)%positive; simpl; try reflexivity; discriminate.
Qed.

Lemma leb_not_ltb x y : (x <=? y)%float = true -> (y <? x)%float = false.
Proof. rewrite leb_spec, ltb_spec. apply SFleb_not_ltb. Qed.

(** ** The store *)

Lemma updateWalletBalance_wallets id b st :
  wallets (updateWalletBalance id b st).2
  = alter (λ w, Wallet.with_balance w b) id (wallets st).
Proof.
  unfold updateWalletBalance.
  destruct (wallets st !! id) as [w|] eqn:E; simpl; apply map_eq; intros j.
  - rewrite lookup_insert, lookup_alter.
    case_decide; subst; by rewrite ?E.
  - rewrite lookup_alter. case_decide; subst; by rewrite ?E.
Qed.

Lemma updateWalletBalance_rest id b st :
  transactions (updateWalletBalance id b st).2 = transactions st
  ∧ walletId (updateWalletBalance id b st).2 = walletId st
  ∧ transactionId (updateWalletBalance id b st).2 = transactionId st.
Proof. unfold updateWalletBalance. by destruct (wallets st !! id). Qed.

Ltac split_ifs :=
  repeat match goal with
    | |- context [if ?c then _ else _] => destruct c eqn:?
    end.

Ltac bool_facts :=
  repeat match goal with
    | H : (_ || _) = false |- _ => apply orb_false_elim in H; destruct H
    | H : negb _ = false |- _ => apply negb_false_iff in H
    | H : negb _ = true |- _ => apply negb_true_iff in H
    | H : (_ =? _) = true |- _ => apply Z.eqb_eq in H
    | H : bool_decide _ = true |- _ => apply bool_decide_eq_true in H
    | H : bool_decide _ = false |- _ => apply bool_decide_eq_false in H
    end.

(** Either [transfer] answers with an error and leaves the store alone, or
    every check passed and both writes and the ledger entry were made. *)
Lemma transfer_inv user data now st :
  let r := (transfer user data now st).1 in
  let st' := (transfer user data now st).2 in
  (status r ≠ 201 ∧ st' = st)
  ∨ ∃ fw tw,
      getWallet (TransferFunds.fromWalletId data) st = Some fw
      ∧ getWallet (TransferFunds.toWalletId data) st = Some tw
      ∧ Wallet.userId fw = user ∧ Wallet.userId tw = user
      ∧ Wallet.currency fw = Wallet.currency tw
      ∧ (Wallet.balance fw <? TransferFunds.amount data)%float = false
      ∧ status r = 201
      ∧ committed st st'
          [(TransferFunds.fromWalletId data,
            (Wallet.balance fw - TransferFunds.amount data)%float);
           (TransferFunds.toWalletId data,
            (Wallet.balance tw + TransferFunds.amount data)%float)]
          (transferEntry user data fw tw) now.
Proof.
  unfold transfer, committed.
  destruct (getWallet (TransferFunds.fromWalletId data) st) as [fw|];
    [destruct (getWallet (TransferFunds.toWalletId data) st) as [tw|]|];
    split_ifs; simpl; try (left; split; [lia | reflexivity]).
  right. exists fw, tw. bool_facts.
  rewrite !updateWalletBalance_wallets.
  destruct (updateWalletBalance_rest (TransferFunds.toWalletId data)
              (Js.Number (Wallet.balance tw) + TransferFunds.amount data)%float
              (updateWalletBalance (TransferFunds.fromWalletId data)
                 (Js.Number (Wallet.balance fw) - TransferFunds.amount data)%float
                 st).2) as (-> & -> & ->).
  destruct (updateWalletBalance_rest (TransferFunds.fromWalletId data)
              (Js.Number (Wallet.balance fw) - TransferFunds.amount data)%float
              st) as (-> & -> & ->).
  repeat split; auto.
Qed.

Lemma convert_inv user data now st :
  let r := (convert user data now st).1 in
  let st' := (convert user data now st).2 in
  (status r ≠ 201 ∧ st' = st)
  ∨ ∃ fw tw rate,
      getWallet (ConvertCurrency.fromWalletId data) st = Some fw
      ∧ getWallet (ConvertCurrency.toWalletId data) st = Some tw
      ∧ Wallet.userId fw = user ∧ Wallet.userId tw = user
      ∧ (Wallet.balance fw <? ConvertCurrency.amount data)%float = false
      ∧ rateFor (Wallet.currency fw) (Wallet.currency tw) = Some rate
      ∧ Js.truthy rate = true
      ∧ status r = 201
      ∧ body r
        = ConversionBody "Conversion successful"
            (Transaction.of_insert (conversionEntry user data fw tw rate)
               (transactionId st) now)
            (getWallet (ConvertCurrency.fromWalletId data) st')
            (getWallet (ConvertCurrency.toWalletId data) st')
            rate (ConvertCurrency.amount data * rate)%float
      ∧ committed st st'
          [(ConvertCurrency.fromWalletId data,
            (Wallet.balance fw - ConvertCurrency.amount data)%float);
           (ConvertCurrency.toWalletId data,
            (Wallet.balance tw + ConvertCurrency.amount data * rate)%float)]
          (conversionEntry user data fw tw rate) now.
Proof.
  unfold convert, committed.
  destruct (getWallet (ConvertCurrency.fromWalletId data) st) as [fw|];
    [destruct (getWallet (ConvertCurrency.toWalletId data) st) as [tw|]|];
    try (left; split; [simpl; lia | reflexivity]).
  destruct (negb (Wallet.userId fw =? user) || negb (Wallet.userId tw =? user))
    eqn:?; [left; split; [simpl; lia | reflexivity]|].
  destruct (Js.Number (Wallet.balance fw) <? ConvertCurrency.amount data)%float
    eqn:?; [left; split; [simpl; lia | reflexivity]|].
  destruct (rateFor (Wallet.currency fw) (Wallet.currency tw)) as [rate|]
    eqn:?; [|left; split; [simpl; lia | reflexivity]].
  destruct (negb (Js.truthy rate)) eqn:?;
    [left; split; [simpl; lia | reflexivity]|].
  right. exists fw, tw, rate. bool_facts. simpl.
  rewrite !updateWalletBalance_wallets.
  destruct (updateWalletBalance_rest (ConvertCurrency.toWalletId data)
              (Js.Number (Wallet.balance tw)
               + ConvertCurrency.amount data * rate)%float
              (updateWalletBalance (ConvertCurrency.fromWalletId data)
                 (Js.Number (Wallet.balance fw)
                  - ConvertCurrency.amount data)%float st).2)
    as (-> & -> & ->).
  destruct (updateWalletBalance_rest (ConvertCurrency.fromWalletId data)
              (Js.Number (Wallet.balance fw) - ConvertCurrency.amount data)%float
              st) as (-> & -> & ->).
  repeat split; auto.
Qed.

Lemma deposit_inv user data now st :
  let r := (deposit user data now st).1 in
  let st' := (deposit user data now st).2 in
  (status r ≠ 201 ∧ st' = st)
  ∨ ∃ w,
      getWallet (AddFunds.walletId data) st = Some w
      ∧ Wallet.userId w = user
      ∧ status r = 201
      ∧ committed st st'
          [(AddFunds.walletId data,
            (Wallet.balance w + AddFunds.amount data)%float)]
          (depositEntry user data w) now.
Proof.
  unfold deposit, committed.
  destruct (getWallet (AddFunds.walletId data) st) as [w|];
    [|left; split; [simpl; lia | reflexivity]].
  destruct (negb (Wallet.userId w =? user)) eqn:?;
    [left; split; [simpl; lia | reflexivity]|].
  right. exists w. bool_facts. simpl.
  rewrite !updateWalletBalance_wallets.
  destruct (updateWalletBalance_rest (AddFunds.walletId data)
              (Js.Number (Wallet.balance w) + AddFunds.amount data)%float st)
    as (-> & -> & ->).
  repeat split; auto.
Qed.

#[local] Instance same_but_balance_refl : Reflexive same_but_balance.
Proof. by intros w. Qed.

#[local] Instance same_but_balance_trans : Transitive same_but_balance.
Proof.
  intros w1 w2 w3 (?&?&?&?&?&?) (?&?&?&?&?&?).
  repeat split; congruence.
Qed.

Lemma with_balance_same w b : same_but_balance w (Wallet.with_balance w b).
Proof. by destruct w. Qed.

Lemma alter_balance_frame (m : gmap Z Wallet.t) i b j :
  option_Forall2 same_but_balance (m !! j)
    (alter (λ w, Wallet.with_balance w b) i m !! j).
Proof.
  rewrite lookup_alter. case_decide; subst.
  - destruct (m !! j); constructor. apply with_balance_same.
  - reflexivity.
Qed.

Lemma writes_frame (updates : list (Z * float)) (m : gmap Z Wallet.t) j :
  option_Forall2 same_but_balance (m !! j)
    (foldl (λ m u, alter (λ w, Wallet.with_balance w u.2) u.1 m) m updates
       !! j).
Proof.
  revert m. induction updates as [|[i b] updates IH]; intros m; simpl.
  - reflexivity.
  - etransitivity; [apply (alter_balance_frame m i b j) | apply IH].
Qed.

Lemma committed_frame st st' updates entry now :
  committed st st' updates entry now → balances_only st st'.
Proof. intros (Hw & _) j. rewrite Hw. apply writes_frame. Qed.

Lemma balances_only_refl st : balances_only st st.
Proof. intros j. reflexivity. Qed.

(** C9. Currency invariance (frame): after a transfer, a conversion, a
    deposit or a bare [updateWalletBalance], whatever the request and whether
    or not it succeeds, the store holds the same wallets under the same keys
    and each has the identifier, owner, name, currency, primary flag and
    creation time it had before; only balances can differ. *)
Theorem wallet_fields_frame (st : MemStorage) (user now : Z) :
  (∀ data, balances_only st (transfer user data now st).2)
  ∧ (∀ data, balances_only st (convert user data now st).2)
  ∧ (∀ data, balances_only st (deposit user data now st).2)
  ∧ (∀ id balance, balances_only st (updateWalletBalance id balance st).2).
Proof.
  repeat split.
  - intros data. destruct (transfer_inv user data now st) as [[_ ->]|H].
    + apply balances_only_refl.
    + destruct H as (fw & tw & H). eapply committed_frame, H.
  - intros data. destruct (convert_inv user data now st) as [[_ ->]|H].
    + apply balances_only_refl.
    + destruct H as (fw & tw & rate & H). eapply committed_frame, H.
  - intros data. destruct (deposit_inv user data now st) as [[_ ->]|H].
    + apply balances_only_refl.
    + destruct H as (w & H). eapply committed_frame, H.
  - intros id b j. rewrite updateWalletBalance_wallets.
    apply alter_balance_frame.
Qed.

(** ** Validation order of POST /api/transfers *)

(** C5. Transfer validation order: the response of a transfer is the outcome
    of the first failing check in the order existence of both wallets
    (NotFound), ownership of both (Forbidden), equal currencies
    (InvalidOperation), source balance not below the amount
    (InsufficientFunds); when no check fails the transfer succeeds. *)
Theorem transfer_validation_order (user : Z) (data : TransferFunds.t)
    (now : Z) (st : MemStorage) :
  outcome (transfer user data now st).1 = Some (transfer_checks user data st).
Proof.
  unfold transfer, transfer_checks.
  destruct (getWallet (TransferFunds.fromWalletId data) st) as [fw|];
    [destruct (getWallet (TransferFunds.toWalletId data) st) as [tw|]|];
    try reflexivity.
  destruct (Z.eqb_spec (Wallet.userId fw) user) as [Hf|Hf];
    destruct (Z.eqb_spec (Wallet.userId tw) user) as [Ht|Ht]; simpl;
    try (rewrite bool_decide_eq_true_2 by tauto; reflexivity).
  rewrite (bool_decide_eq_false_2 (_ ∨ _)) by tauto.
  destruct (decide (Wallet.currency fw = Wallet.currency tw)) as [Hc|Hc].
  - rewrite (bool_decide_eq_true_2 _ Hc).
    rewrite (bool_decide_eq_false_2 (_ ≠ _)) by tauto. simpl.
    unfold Js.Number.
    destruct (Wallet.balance fw <? TransferFunds.amount data)%float;
      reflexivity.
  - rewrite (bool_decide_eq_false_2 _ Hc).
    rewrite (bool_decide_eq_true_2 (_ ≠ _)) by tauto. reflexivity.
Qed.

(** ** Ownership *)

(** C3, as amended. Ownership enforcement: when every wallet an operation
    names exists and one of them is not owned by the acting account, the
    transfer, conversion or deposit answers Forbidden and returns the store as
    it was (no balance written, no ledger entry), whatever the amount and the
    balances. *)
Theorem ownership_enforced (st : MemStorage) (user now : Z) :
  (∀ data fw tw,
     getWallet (TransferFunds.fromWalletId data) st = Some fw →
     getWallet (TransferFunds.toWalletId data) st = Some tw →
     Wallet.userId fw ≠ user ∨ Wallet.userId tw ≠ user →
     outcome (transfer user data now st).1 = Some Forbidden
     ∧ (transfer user data now st).2 = st)
  ∧ (∀ data fw tw,
     getWallet (ConvertCurrency.fromWalletId data) st = Some fw →
     getWallet (ConvertCurrency.toWalletId data) st = Some tw →
     Wallet.userId fw ≠ user ∨ Wallet.userId tw ≠ user →
     outcome (convert user data now st).1 = Some Forbidden
     ∧ (convert user data now st).2 = st)
  ∧ (∀ data w,
     getWallet (AddFunds.walletId data) st = Some w →
     Wallet.userId w ≠ user →
     outcome (deposit user data now st).1 = Some Forbidden
     ∧ (deposit user data now st).2 = st).
Proof.
  split; [|split].
  - intros data fw tw Hfw Htw Hown. unfold transfer. rewrite Hfw, Htw.
    assert (negb (Wallet.userId fw =? user) || negb (Wallet.userId tw =? user)
            = true) as ->; [|done].
    destruct Hown as [H|H]; apply Z.eqb_neq in H; rewrite H; simpl;
      by rewrite ?orb_true_r.
  - intros data fw tw Hfw Htw Hown. unfold convert. rewrite Hfw, Htw.
    assert (negb (Wallet.userId fw =? user) || negb (Wallet.userId tw =? user)
            = true) as ->; [|done].
    destruct Hown as [H|H]; apply Z.eqb_neq in H; rewrite H; simpl;
      by rewrite ?orb_true_r.
  - intros data w Hw Hown. unfold deposit. rewrite Hw.
    apply Z.eqb_neq in Hown. by rewrite Hown.
Qed.

(** Account 1 asks to move 5.00 out of wallet 2, which account 2 owns, into its
    own wallet 1. *)
Lemma ownership_enforced_witness :
  let data :=
    {| TransferFunds.fromWalletId := 2; TransferFunds.toWalletId := 1;
       TransferFunds.amount := 5%float; TransferFunds.description := None |}
  in
  outcome (transfer 1 data 2000 store_two_accounts_funded).1 = Some Forbidden
  ∧ (transfer 1 data 2000 store_two_accounts_funded).2
    = store_two_accounts_funded.
Proof.
  refine (proj1 (ownership_enforced store_two_accounts_funded 1 2000)
            {| TransferFunds.fromWalletId := 2; TransferFunds.toWalletId := 1;
               TransferFunds.amount := 5%float;
               TransferFunds.description := None |}
            {| Wallet.id := 2; Wallet.userId := 2; Wallet.name := Some "USD";
               Wallet.currency := USD; Wallet.balance := 10%float;
               Wallet.isPrimary := Some true; Wallet.createdAt := 1000 |}
            {| Wallet.id := 1; Wallet.userId := 1; Wallet.name := Some "USD";
               Wallet.currency := USD; Wallet.balance := 0%float;
               Wallet.isPrimary := Some true; Wallet.createdAt := 1000 |}
            _ _ _).
  - vm_compute. reflexivity.
  - vm_compute. reflexivity.
  - left. simpl. lia.
Defined.

(** C3 as stated fails: wallet 2 exists and is not owned by account 1, yet a
    transfer from it to the missing wallet 99 answers NotFound, because both
    existence checks come before the ownership check. *)
Lemma ownership_missing_peer_not_found :
  (∃ w, getWallet 2 store_two_accounts = Some w ∧ Wallet.userId w ≠ 1)
  ∧ outcome
      (transfer 1
         {| TransferFunds.fromWalletId := 2; TransferFunds.toWalletId := 99;
            TransferFunds.amount := 5%float;
            TransferFunds.description := None |} 2000
         store_two_accounts).1 = Some NotFound
  ∧ outcome
      (transfer 1
         {| TransferFunds.fromWalletId := 2; TransferFunds.toWalletId := 99;
            TransferFunds.amount := 5%float;
            TransferFunds.description := None |} 2000
         store_two_accounts).1 ≠ Some Forbidden.
Proof.
  split; [|split].
  - eexists. split; [vm_compute; reflexivity | vm_compute; discriminate].
  - vm_compute. reflexivity.
  - vm_compute. discriminate.
Qed.

(** ** Invariants of the reachable stores *)

Lemma JsMap_set_fresh {V : Type} (k : Z) (v : V) (m : list (Z * V)) :
  Forall (λ kv, kv.1 < k) m → JsMap.set k v m = (m ++ [(k, v)])%list.
Proof.
  induction 1 as [|[k' v'] m Hk _ IH]; simpl; [done|].
  destruct (Z.eqb_spec k' k); [simpl in Hk; lia|]. by rewrite IH.
Qed.

Lemma committed_ledger st st' updates entry now :
  ids_fresh st → committed st st' updates entry now →
  ids_fresh st'
  ∧ ledger st'
    = (ledger st
       ++ [Transaction.of_insert entry (transactionId st) now])%list.
Proof.
  unfold ids_fresh, ledger, JsMap.values.
  intros Hfresh (_ & Ht & _ & Hid).
  rewrite Ht, Hid, JsMap_set_fresh by done. split.
  - apply Forall_app. split.
    + eapply Forall_impl; [exact Hfresh|]. simpl. intros; lia.
    + constructor; [simpl; lia | constructor].
  - by rewrite map_app.
Qed.

Lemma writes_no_negative (updates : list (Z * float)) (m : gmap Z Wallet.t) :
  (∀ id w, m !! id = Some w → Js.negative (Wallet.balance w) = false) →
  Forall (λ u, Js.negative u.2 = false) updates →
  ∀ id w,
    foldl (λ m u, alter (λ w, Wallet.with_balance w u.2) u.1 m) m updates
      !! id = Some w →
    Js.negative (Wallet.balance w) = false.
Proof.
  intros Hm Hu. revert m Hm.
  induction Hu as [|[i b] updates Hb _ IH]; intros m Hm; simpl; [done|].
  apply IH. intros id w. rewrite lookup_alter. case_decide; subst.
  - destruct (m !! id); [|done]. intros [= <-]. exact Hb.
  - apply Hm.
Qed.

Lemma committed_no_negative st st' updates entry now :
  no_negative_balance st → committed st st' updates entry now →
  Forall (λ u, Js.negative u.2 = false) updates →
  no_negative_balance st'.
Proof.
  intros Hst (Hw & _) Hu id w. rewrite Hw. by apply writes_no_negative.
Qed.

(** Every rate of the table is positive. *)
Lemma rateFor_positive from to rate :
  rateFor from to = Some rate → (0 <? rate)%float = true.
Proof.
  destruct from, to; vm_compute; intros [= <-] || discriminate; reflexivity.
Qed.

Lemma rateFor_truthy from to rate :
  rateFor from to = Some rate → Js.truthy rate = true.
Proof.
  destruct from, to; vm_compute; intros [= <-] || discriminate; reflexivity.
Qed.

Lemma transfer_keeps_invariants user reqBody now st :
  ids_fresh st ∧ no_negative_balance st →
  ids_fresh (post_api_transfers user reqBody now st).2
  ∧ no_negative_balance (post_api_transfers user reqBody now st).2.
Proof.
  intros [Hf Hn]. unfold post_api_transfers, transferFundsSchema.
  destruct (positive_number (TransferFunds.amount reqBody)) eqn:Hpos;
    [|done].
  destruct (transfer_inv user reqBody now st) as [[_ ->]|H]; [done|].
  destruct H as (fw & tw & Hfw & Htw & _ & _ & _ & Hlt & _ & Hc).
  split; [eapply committed_ledger; eauto|].
  eapply committed_no_negative; [exact Hn | exact Hc|].
  repeat constructor; unfold Js.negative; simpl.
  - by apply sub_not_negative.
  - apply add_not_negative; [apply (Hn _ _ Htw)|].
    by apply positive_not_negative.
Qed.

Lemma convert_keeps_invariants user reqBody now st :
  ids_fresh st ∧ no_negative_balance st →
  ids_fresh (post_api_conversions user reqBody now st).2
  ∧ no_negative_balance (post_api_conversions user reqBody now st).2.
Proof.
  intros [Hf Hn]. unfold post_api_conversions, convertCurrencySchema.
  destruct (positive_number (ConvertCurrency.amount reqBody)) eqn:Hpos;
    [|done].
  destruct (convert_inv user reqBody now st) as [[_ ->]|H]; [done|].
  destruct H as (fw & tw & rate & Hfw & Htw & _ & _ & Hlt & Hrate & _ & _
                 & _ & Hc).
  split; [eapply committed_ledger; eauto|].
  eapply committed_no_negative; [exact Hn | exact Hc|].
  repeat constructor; unfold Js.negative; simpl.
  - by apply sub_not_negative.
  - apply add_not_negative; [apply (Hn _ _ Htw)|].
    apply mul_not_negative; apply positive_not_negative; [done|].
    by eapply rateFor_positive.
Qed.

Lemma deposit_keeps_invariants user reqBody now st :
  ids_fresh st ∧ no_negative_balance st →
  ids_fresh (post_api_deposits user reqBody now st).2
  ∧ no_negative_balance (post_api_deposits user reqBody now st).2.
Proof.
  intros [Hf Hn]. unfold post_api_deposits, addFundsSchema.
  destruct (positive_number (AddFunds.amount reqBody)) eqn:Hpos; [|done].
  destruct (deposit_inv user reqBody now st) as [[_ ->]|H]; [done|].
  destruct H as (w & Hw & _ & _ & Hc).
  split; [eapply committed_ledger; eauto|].
  eapply committed_no_negative; [exact Hn | exact Hc|].
  repeat constructor; unfold Js.negative; simpl.
  apply add_not_negative; [apply (Hn _ _ Hw)|].
  by apply positive_not_negative.
Qed.

Lemma reachable_invariants st :
  reachable st → ids_fresh st ∧ no_negative_balance st.
Proof.
  induction 1 as [|st userId name currency isPrimary now _ [Hf Hn]
                  |st user reqBody now _ IH|st user reqBody now _ IH
                  |st user reqBody now _ IH].
  - split; [by apply Forall_nil|].
    intros id w. unfold MemStorage_new. simpl. by rewrite lookup_empty.
  - split; [exact Hf|]. intros id w. simpl.
    rewrite lookup_insert. case_decide; [|apply Hn].
    intros [= <-]. reflexivity.
  - by apply transfer_keeps_invariants.
  - by apply convert_keeps_invariants.
  - by apply deposit_keeps_invariants.
Qed.

Lemma outcome_succeeded r : outcome r = Some Succeeded → status r = 201.
Proof.
  unfold outcome. destruct (body r); split_ifs; try discriminate;
    intros _; by apply Z.eqb_eq.
Qed.

Lemma store_usd_eur_reachable usd eur : reachable (store_usd_eur usd eur).
Proof.
  apply reachable_deposits, reachable_deposits.
  apply reachable_createWallet, reachable_createWallet, reachable_new.
Qed.

Lemma store_two_usd_reachable a b : reachable (store_two_usd a b).
Proof.
  apply reachable_deposits, reachable_deposits.
  apply reachable_createWallet, reachable_createWallet, reachable_new.
Qed.

Lemma store_two_accounts_reachable : reachable store_two_accounts.
Proof. apply reachable_createWallet, reachable_createWallet, reachable_new. Qed.

(** ** Non-negative balances *)

(** C2. Non-negativity and failure atomicity: in every store the server can
    reach, a transfer, conversion or deposit request leaves no wallet with a
    negative balance; and a transfer or conversion whose other checks pass
    (valid body, both wallets present and owned, equal currencies for a
    transfer) but whose source balance is below the amount answers
    InsufficientFunds and returns the store unchanged: no balance written, no
    ledger entry. *)
Theorem no_overdraft (st : MemStorage) (user now : Z) :
  reachable st →
  (∀ reqBody,
     no_negative_balance (post_api_transfers user reqBody now st).2)
  ∧ (∀ reqBody,
     no_negative_balance (post_api_conversions user reqBody now st).2)
  ∧ (∀ reqBody,
     no_negative_balance (post_api_deposits user reqBody now st).2)
  ∧ (∀ reqBody fw tw,
     transferFundsSchema reqBody = true →
     getWallet (TransferFunds.fromWalletId reqBody) st = Some fw →
     getWallet (TransferFunds.toWalletId reqBody) st = Some tw →
     Wallet.userId fw = user → Wallet.userId tw = user →
     Wallet.currency fw = Wallet.currency tw →
     (Wallet.balance fw <? TransferFunds.amount reqBody)%float = true →
     outcome (post_api_transfers user reqBody now st).1
     = Some InsufficientFunds
     ∧ (post_api_transfers user reqBody now st).2 = st)
  ∧ (∀ reqBody fw tw,
     convertCurrencySchema reqBody = true →
     getWallet (ConvertCurrency.fromWalletId reqBody) st = Some fw →
     getWallet (ConvertCurrency.toWalletId reqBody) st = Some tw →
     Wallet.userId fw = user → Wallet.userId tw = user →
     (Wallet.balance fw <? ConvertCurrency.amount reqBody)%float = true →
     outcome (post_api_conversions user reqBody now st).1
     = Some InsufficientFunds
     ∧ (post_api_conversions user reqBody now st).2 = st).
Proof.
  intros Hst. apply reachable_invariants in Hst.
  repeat apply conj.
  - intros reqBody. by apply transfer_keeps_invariants.
  - intros reqBody. by apply convert_keeps_invariants.
  - intros reqBody. by apply deposit_keeps_invariants.
  - intros reqBody fw tw Hv Hfw Htw <- Hu Hc Hlt.
    unfold post_api_transfers, transfer. rewrite Hv, Hfw, Htw, Hu, Hc.
    rewrite Z.eqb_refl, bool_decide_eq_true_2 by done.
    unfold Js.Number. by rewrite Hlt.
  - intros reqBody fw tw Hv Hfw Htw <- Hu Hlt.
    unfold post_api_conversions, convert. rewrite Hv, Hfw, Htw, Hu.
    rewrite Z.eqb_refl. unfold Js.Number. by rewrite Hlt.
Qed.

(** Transfer 30.00 out of a USD wallet that holds 10.00. *)
Lemma no_overdraft_witness :
  outcome
    (post_api_transfers 1
       {| TransferFunds.fromWalletId := 1; TransferFunds.toWalletId := 2;
          TransferFunds.amount := 30%float;
          TransferFunds.description := None |} 2000
       (store_two_usd 10 0)).1 = Some InsufficientFunds
  ∧ (post_api_transfers 1
       {| TransferFunds.fromWalletId := 1; TransferFunds.toWalletId := 2;
          TransferFunds.amount := 30%float;
          TransferFunds.description := None |} 2000
       (store_two_usd 10 0)).2 = store_two_usd 10 0.
Proof.
  eapply (proj1 (proj2 (proj2 (proj2
            (no_overdraft (store_two_usd 10 0) 1 2000
               (store_two_usd_reachable 10 0)))))).
  - vm_compute. reflexivity.
  - vm_compute. reflexivity.
  - vm_compute. reflexivity.
  - vm_compute. reflexivity.
  - vm_compute. reflexivity.
  - vm_compute. reflexivity.
  - vm_compute. reflexivity.
Defined.

(** ** Ledger completeness *)



(** ** Transfers and the balances they write *)

Lemma transfer_succeeds user data now st fw tw :
  getWallet (TransferFunds.fromWalletId data) st = Some fw →
  getWallet (TransferFunds.toWalletId data) st = Some tw →
  Wallet.userId fw = user → Wallet.userId tw = user →
  Wallet.currency fw = Wallet.currency tw →
  (Wallet.balance fw <? TransferFunds.amount data)%float = false →
  outcome (transfer user data now st).1 = Some Succeeded.
Proof.
  intros Hfw Htw <- Hu Hc Hlt. unfold transfer.
  rewrite Hfw, Htw, Hu, Hc, Z.eqb_refl, bool_decide_eq_true_2 by done.
  unfold Js.Number. by rewrite Hlt.
Qed.

(** C10, as amended. Self-transfer overwrite: when the source and the
    destination of a transfer are the same wallet, that wallet is owned by the
    acting account and its balance is at least the amount, the transfer
    succeeds and the wallet ends with its initial balance plus the amount: the
    second write overwrites the first. *)
Theorem self_transfer_adds (st : MemStorage) (user now : Z)
    (data : TransferFunds.t) (w : Wallet.t) :
  TransferFunds.toWalletId data = TransferFunds.fromWalletId data →
  getWallet (TransferFunds.fromWalletId data) st = Some w →
  Wallet.userId w = user →
  (TransferFunds.amount data <=? Wallet.balance w)%float = true →
  outcome (transfer user data now st).1 = Some Succeeded
  ∧ Wallet.balance
      <$> getWallet (TransferFunds.fromWalletId data)
            (transfer user data now st).2
    = Some (Wallet.balance w + TransferFunds.amount data)%float.
Proof.
  intros Hsame Hw Hu Hle. apply leb_not_ltb in Hle.
  assert (outcome (transfer user data now st).1 = Some Succeeded) as Hok.
  { apply (transfer_succeeds user data now st w w); try done.
    by rewrite Hsame. }
  split; [exact Hok|].
  apply outcome_succeeded in Hok.
  destruct (transfer_inv user data now st) as [[Hne _]|H]; [done|].
  destruct H as (fw & tw & Hfw & Htw & _ & _ & _ & _ & _ & Hc & _).
  rewrite Hsame in Htw. rewrite Hw in Hfw, Htw.
  injection Hfw as <-. injection Htw as <-.
  unfold getWallet in *. rewrite Hc, Hsame. simpl.
  rewrite !lookup_alter_eq, Hw. reflexivity.
Qed.

(** Moving 5.00 from wallet 1 to itself turns its 10.00 into 15.00. *)
Lemma self_transfer_adds_witness :
  let data :=
    {| TransferFunds.fromWalletId := 1; TransferFunds.toWalletId := 1;
       TransferFunds.amount := 5%float; TransferFunds.description := None |}
  in
  outcome (transfer 1 data 2000 (store_usd_eur 10 0)).1 = Some Succeeded
  ∧ Wallet.balance <$> getWallet 1 (transfer 1 data 2000 (store_usd_eur 10 0)).2
    = Some 15%float.
Proof.
  refine (self_transfer_adds (store_usd_eur 10 0) 1 2000
            {| TransferFunds.fromWalletId := 1; TransferFunds.toWalletId := 1;
               TransferFunds.amount := 5%float;
               TransferFunds.description := None |}
            {| Wallet.id := 1; Wallet.userId := 1; Wallet.name := Some "USD";
               Wallet.currency := USD; Wallet.balance := 10%float;
               Wallet.isPrimary := Some true; Wallet.createdAt := 1000 |}
            _ _ _ _).
  - reflexivity.
  - vm_compute. reflexivity.
  - reflexivity.
  - vm_compute. reflexivity.
Defined.

(** C10 as stated fails: wallet 2 holds 10.00, at least the 5.00 asked for,
    but it belongs to account 2, so the self-transfer that account 1 requests
    answers Forbidden and changes nothing. *)
Lemma self_transfer_needs_owner :
  let data :=
    {| TransferFunds.fromWalletId := 2; TransferFunds.toWalletId := 2;
       TransferFunds.amount := 5%float; TransferFunds.description := None |}
  in
  Wallet.balance <$> getWallet 2 store_two_accounts_funded = Some 10%float
  ∧ (5 <=? 10)%float = true
  ∧ outcome (transfer 1 data 2000 store_two_accounts_funded).1
    = Some Forbidden
  ∧ (transfer 1 data 2000 store_two_accounts_funded).2
    = store_two_accounts_funded.
Proof. vm_compute. repeat split; reflexivity. Qed.

(** C1. Conservation is broken by a request the server accepts.  The
    registered user holds 100.00 in USD wallet 1, deposited through the
    routes, and posts a transfer of 40.00 from wallet 1 to wallet 1.  The
    handler has no check that the two wallets differ (the client form has
    one), computes both new balances from the two reads it made and lets the
    second write overwrite the first: it answers 201 and the wallet ends with
    140.00.  The balances of source and destination add up to 280 after the
    transfer and to 200 before it. *)
Theorem self_transfer_breaks_conservation :
  let st := storage server_ada_funded in
  let data :=
    {| TransferFunds.fromWalletId := 1; TransferFunds.toWalletId := 1;
       TransferFunds.amount := 40%float; TransferFunds.description := None |}
  in
  let st' := (post_api_transfers 1 data 4000 st).2 in
  api_reachable server_ada_funded
  ∧ Wallet.balance <$> getWallet (TransferFunds.fromWalletId data) st
    = Some 100%float
  ∧ Wallet.balance <$> getWallet (TransferFunds.toWalletId data) st
    = Some 100%float
  ∧ outcome (post_api_transfers 1 data 4000 st).1 = Some Succeeded
  ∧ Wallet.balance <$> getWallet (TransferFunds.fromWalletId data) st'
    = Some 140%float
  ∧ Wallet.balance <$> getWallet (TransferFunds.toWalletId data) st'
    = Some 140%float
  ∧ ¬ Js.same_total 100 100 140 140.
Proof.
  cbv zeta. split.
  { refine (api_deposits server_ada 1
              {| User.id := 1; User.name := "Ada";
                 User.email := "ada@example.org"; User.password := "hash1";
                 User.createdAt := 1000 |} _ _ _ _);
      [apply api_register, api_new|reflexivity]. }
  repeat split; try (vm_compute; reflexivity).
  vm_compute. discriminate.
Qed.

(** ** Conversions and the rate table *)

Lemma rateFor_covered from to :
  covered from to = true → ∃ rate, rateFor from to = Some rate.
Proof. destruct from, to; try discriminate; intros _; by eexists. Qed.

Lemma rateFor_uncovered from to :
  covered from to = false → rateFor from to = None.
Proof. destruct from, to; try discriminate; reflexivity. Qed.

Lemma convert_outcome user data now st fw tw :
  getWallet (ConvertCurrency.fromWalletId data) st = Some fw →
  getWallet (ConvertCurrency.toWalletId data) st = Some tw →
  Wallet.userId fw = user → Wallet.userId tw = user →
  (Wallet.balance fw <? ConvertCurrency.amount data)%float = false →
  outcome (convert user data now st).1
  = Some (if covered (Wallet.currency fw) (Wallet.currency tw)
          then Succeeded else InvalidOperation).
Proof.
  intros Hfw Htw <- Hu Hlt. unfold convert.
  rewrite Hfw, Htw, Hu, Z.eqb_refl. unfold Js.Number. rewrite Hlt. simpl.
  destruct (covered (Wallet.currency fw) (Wallet.currency tw)) eqn:Hcov.
  - destruct (rateFor_covered _ _ Hcov) as [rate Hrate].
    rewrite Hrate, (rateFor_truthy _ _ _ Hrate). reflexivity.
  - by rewrite (rateFor_uncovered _ _ Hcov).
Qed.

(** C6. Rate availability: a conversion between two existing wallets of the
    acting account whose source balance is not below the amount answers
    InvalidOperation ("exchange rate not available") exactly when the ordered
    pair of currencies is not a pair over USD, EUR and GBP, and succeeds for
    every pair over these three, the same-currency pairs included, whose rate
    is 1. *)
Theorem rate_availability (st : MemStorage) (user now : Z)
    (data : ConvertCurrency.t) (fw tw : Wallet.t) :
  getWallet (ConvertCurrency.fromWalletId data) st = Some fw →
  getWallet (ConvertCurrency.toWalletId data) st = Some tw →
  Wallet.userId fw = user → Wallet.userId tw = user →
  (Wallet.balance fw <? ConvertCurrency.amount data)%float = false →
  (outcome (convert user data now st).1 = Some InvalidOperation
   ↔ covered (Wallet.currency fw) (Wallet.currency tw) = false)
  ∧ (covered (Wallet.currency fw) (Wallet.currency tw) = true →
     outcome (convert user data now st).1 = Some Succeeded)
  ∧ (quoted (Wallet.currency fw) = true →
     rateFor (Wallet.currency fw) (Wallet.currency fw) = Some 1%float).
Proof.
  intros Hfw Htw Hu1 Hu2 Hlt.
  rewrite (convert_outcome user data now st fw tw) by done.
  destruct (covered (Wallet.currency fw) (Wallet.currency tw));
    repeat split; try done.
  all: destruct (Wallet.currency fw); try discriminate; reflexivity.
Qed.

(** USD to EUR is covered; EUR to JPY is not; USD to USD goes through. *)
Lemma rate_availability_witness :
  let st :=
    (createWallet (newWallet 1 JPY false) 1004 (store_usd_eur 100 100)).2 in
  outcome
    (convert 1
       {| ConvertCurrency.fromWalletId := 2; ConvertCurrency.toWalletId := 3;
          ConvertCurrency.amount := 10%float |} 2000 st).1
  = Some InvalidOperation
  ∧ outcome
      (convert 1
         {| ConvertCurrency.fromWalletId := 1;
            ConvertCurrency.toWalletId := 2;
            ConvertCurrency.amount := 10%float |} 2000 st).1
    = Some Succeeded
  ∧ outcome
      (convert 1
         {| ConvertCurrency.fromWalletId := 1;
            ConvertCurrency.toWalletId := 1;
            ConvertCurrency.amount := 10%float |} 2000 st).1
    = Some Succeeded.
Proof.
  cbv zeta.
  set (st := (createWallet (newWallet 1 JPY false) 1004
                (store_usd_eur 100 100)).2).
  repeat apply conj.
  - refine (proj2 (proj1
      (rate_availability st 1 2000
         {| ConvertCurrency.fromWalletId := 2;
            ConvertCurrency.toWalletId := 3;
            ConvertCurrency.amount := 10%float |} _ _ _ _ _ _ _)) _).
    all: vm_compute; reflexivity.
  - refine (proj1 (proj2
      (rate_availability st 1 2000
         {| ConvertCurrency.fromWalletId := 1;
            ConvertCurrency.toWalletId := 2;
            ConvertCurrency.amount := 10%float |} _ _ _ _ _ _ _)) _).
    all: vm_compute; reflexivity.
  - refine (proj1 (proj2
      (rate_availability st 1 2000
         {| ConvertCurrency.fromWalletId := 1;
            ConvertCurrency.toWalletId := 1;
            ConvertCurrency.amount := 10%float |} _ _ _ _ _ _ _)) _).
    all: vm_compute; reflexivity.
Defined.

Lemma exact_sub_less_by (x a : float) :
  Js.exact_sub x a → Js.less_by x (x - a)%float a.
Proof.
  unfold Js.exact_sub, Js.less_by.
  destruct (Js.value x) as [q|]; [|done].
  destruct (Js.value a) as [qa|]; [|by destruct (Js.value (x - a)%float)].
  destruct (Js.value (x - a)%float) as [q'|]; [|done].
  intros ->. ring.
Qed.

Lemma exact_add_more_by (x a : float) :
  Js.exact_add x a → Js.more_by x (x + a)%float a.
Proof.
  unfold Js.exact_add, Js.more_by, Js.less_by.
  destruct (Js.value x) as [q|]; [|by destruct (Js.value (x + a)%float)].
  destruct (Js.value a) as [qa|]; [|by destruct (Js.value (x + a)%float)].
  destruct (Js.value (x + a)%float) as [q'|]; [|done].
  intros ->. ring.
Qed.

(** C7, as amended. Rate determinism and conversion arithmetic: a successful
    conversion reports [amount * rate] as converted amount, with [rate] the
    table entry of the two wallets' currencies and the product computed in
    double precision, so equal amounts over equal currency pairs always
    convert to the same amount; between two distinct wallets it writes
    [source - amount] and [destination + amount * rate], each one
    double-precision operation.  For 100 from a USD wallet to a EUR wallet the
    rate is 0.915, the converted amount is 91.5, the source balance becomes
    [source - 100] and the destination balance [destination + 91.5]; the
    source is then exactly 100 less and the destination exactly 91.5 more
    whenever that subtraction and that addition are exact (no rounding). *)
Theorem conversion_arithmetic (st : MemStorage) (user now : Z)
    (data : ConvertCurrency.t) (fw tw : Wallet.t) :
  getWallet (ConvertCurrency.fromWalletId data) st = Some fw →
  getWallet (ConvertCurrency.toWalletId data) st = Some tw →
  outcome (convert user data now st).1 = Some Succeeded →
  ∃ rate,
    rateFor (Wallet.currency fw) (Wallet.currency tw) = Some rate
    ∧ convertedAmountOf (convert user data now st).1
      = Some (ConvertCurrency.amount data * rate)%float
    ∧ (∀ st2 user2 now2 data2 fw2 tw2,
         getWallet (ConvertCurrency.fromWalletId data2) st2 = Some fw2 →
         getWallet (ConvertCurrency.toWalletId data2) st2 = Some tw2 →
         Wallet.currency fw2 = Wallet.currency fw →
         Wallet.currency tw2 = Wallet.currency tw →
         ConvertCurrency.amount data2 = ConvertCurrency.amount data →
         outcome (convert user2 data2 now2 st2).1 = Some Succeeded →
         convertedAmountOf (convert user2 data2 now2 st2).1
         = convertedAmountOf (convert user data now st).1)
    ∧ (ConvertCurrency.fromWalletId data ≠ ConvertCurrency.toWalletId data →
       Wallet.balance
         <$> getWallet (ConvertCurrency.fromWalletId data)
               (convert user data now st).2
       = Some (Wallet.balance fw - ConvertCurrency.amount data)%float
       ∧ Wallet.balance
           <$> getWallet (ConvertCurrency.toWalletId data)
                 (convert user data now st).2
         = Some (Wallet.balance tw
                 + ConvertCurrency.amount data * rate)%float)
    ∧ (Wallet.currency fw = USD → Wallet.currency tw = EUR →
       ConvertCurrency.amount data = 100%float →
       rate = 0.915%float
       ∧ convertedAmountOf (convert user data now st).1 = Some 91.5%float
       ∧ Wallet.balance
           <$> getWallet (ConvertCurrency.fromWalletId data)
                 (convert user data now st).2
         = Some (Wallet.balance fw - 100)%float
       ∧ Wallet.balance
           <$> getWallet (ConvertCurrency.toWalletId data)
                 (convert user data now st).2
         = Some (Wallet.balance tw + 91.5)%float
       ∧ ∃ source' destination',
           Wallet.balance
             <$> getWallet (ConvertCurrency.fromWalletId data)
                   (convert user data now st).2
           = Some source'
           ∧ Wallet.balance
               <$> getWallet (ConvertCurrency.toWalletId data)
                     (convert user data now st).2
             = Some destination'
           ∧ (Js.exact_sub (Wallet.balance fw) 100 →
              Js.less_by (Wallet.balance fw) source' 100)
           ∧ (Js.exact_add (Wallet.balance tw) 91.5 →
              Js.more_by (Wallet.balance tw) destination' 91.5)).
Proof.
  intros Hfw Htw Hok. apply outcome_succeeded in Hok.
  destruct (convert_inv user data now st) as [[Hbad _]|H]; [done|].
  destruct H as (fw0 & tw0 & rate & Hfw0 & Htw0 & _ & _ & _ & Hrate & _ & _
                 & Hbody & Hc & _).
  rewrite Hfw in Hfw0. rewrite Htw in Htw0.
  injection Hfw0 as <-. injection Htw0 as <-.
  assert (ConvertCurrency.fromWalletId data ≠ ConvertCurrency.toWalletId data →
          Wallet.balance
            <$> getWallet (ConvertCurrency.fromWalletId data)
                  (convert user data now st).2
          = Some (Wallet.balance fw - ConvertCurrency.amount data)%float
          ∧ Wallet.balance
              <$> getWallet (ConvertCurrency.toWalletId data)
                    (convert user data now st).2
            = Some (Wallet.balance tw
                    + ConvertCurrency.amount data * rate)%float) as Hwrites.
  { intros Hne. unfold getWallet in *. rewrite Hc. simpl.
    rewrite lookup_alter_ne, lookup_alter_eq, Hfw by done.
    rewrite lookup_alter_eq, lookup_alter_ne, Htw by done. done. }
  exists rate. repeat apply conj; [done| |  |exact Hwrites|].
  - unfold convertedAmountOf. by rewrite Hbody.
  - intros st2 user2 now2 data2 fw2 tw2 Hfw2 Htw2 Hcf Hct Ha Hok2.
    apply outcome_succeeded in Hok2.
    destruct (convert_inv user2 data2 now2 st2) as [[Hbad _]|H]; [done|].
    destruct H as (fw3 & tw3 & rate2 & Hfw3 & Htw3 & _ & _ & _ & Hrate2 & _
                   & _ & Hbody2 & _).
    rewrite Hfw2 in Hfw3. rewrite Htw2 in Htw3.
    injection Hfw3 as <-. injection Htw3 as <-.
    rewrite Hcf, Hct, Hrate in Hrate2. injection Hrate2 as <-.
    unfold convertedAmountOf. by rewrite Hbody, Hbody2, Ha.
  - intros Hcf Hct Ha. rewrite Hcf, Hct in Hrate.
    injection Hrate as <-.
    assert (ConvertCurrency.fromWalletId data
            ≠ ConvertCurrency.toWalletId data) as Hne.
    { intros Heq. rewrite Heq, Htw in Hfw. injection Hfw as ->.
      rewrite Hcf in Hct. discriminate. }
    destruct (Hwrites Hne) as [Hs Hd]. rewrite Ha in Hs, Hd.
    change (100 * 0.915)%float with 91.5%float in Hd.
    split; [done|]. split.
    { unfold convertedAmountOf. rewrite Hbody, Ha. reflexivity. }
    split; [exact Hs|]. split; [exact Hd|].
    eexists _, _. split; [exact Hs|]. split; [exact Hd|].
    split; [apply exact_sub_less_by|apply exact_add_more_by].
Qed.

(** The registered user converts 100 from the USD wallet, which holds 100.00,
    to the empty EUR wallet: the converted amount is 91.5, the USD wallet ends
    with 0, exactly 100 less, and the EUR wallet with 91.5, exactly 91.5
    more. *)
Lemma conversion_arithmetic_witness :
  let st := storage server_ada_eur in
  let data :=
    {| ConvertCurrency.fromWalletId := 1; ConvertCurrency.toWalletId := 2;
       ConvertCurrency.amount := 100%float |} in
  convertedAmountOf (convert 1 data 4000 st).1 = Some 91.5%float
  ∧ Wallet.balance <$> getWallet 1 (convert 1 data 4000 st).2 = Some 0%float
  ∧ Wallet.balance <$> getWallet 2 (convert 1 data 4000 st).2
    = Some 91.5%float
  ∧ Js.less_by 100 0 100
  ∧ Js.more_by 0 91.5 91.5.
Proof.
  destruct (conversion_arithmetic (storage server_ada_eur) 1 4000
              {| ConvertCurrency.fromWalletId := 1;
                 ConvertCurrency.toWalletId := 2;
                 ConvertCurrency.amount := 100%float |}
              {| Wallet.id := 1; Wallet.userId := 1;
                 Wallet.name := Some "Primary"; Wallet.currency := USD;
                 Wallet.balance := 100%float; Wallet.isPrimary := Some true;
                 Wallet.createdAt := 1001 |}
              {| Wallet.id := 2; Wallet.userId := 1;
                 Wallet.name := Some "EUR"; Wallet.currency := EUR;
                 Wallet.balance := 0%float; Wallet.isPrimary := Some false;
                 Wallet.createdAt := 3000 |})
    as (rate & _ & _ & _ & _ & Hscenario).
  - vm_compute. reflexivity.
  - vm_compute. reflexivity.
  - vm_compute. reflexivity.
  - destruct Hscenario as (_ & Hc & Hs & Hd & s' & d' & Hs' & Hd' & Hless & Hmore);
      try reflexivity.
    cbn [Wallet.balance] in Hs, Hd, Hless, Hmore.
    rewrite Hs in Hs'. rewrite Hd in Hd'.
    injection Hs' as <-. injection Hd' as <-.
    split; [exact Hc|]. split; [exact Hs|]. split; [exact Hd|]. split.
    + apply Hless. vm_compute. reflexivity.
    + apply Hmore. vm_compute. reflexivity.
Defined.

(** C7 as stated fails on requests the server accepts.  The registered user
    holds 1e19 in the USD wallet and 0.1 in the EUR wallet, both deposited
    through the routes, and converts 100 USD to EUR.  The conversion succeeds
    with converted amount 91.5; the USD wallet still holds 1e19, since
    [1e19 - 100] rounds back to 1e19, so it is not reduced at all, and the EUR
    wallet holds [0.1 + 91.5], which is not exactly 91.5 more than it held. *)
Lemma conversion_not_exact :
  let st := storage server_ada_large_funded in
  let data :=
    {| ConvertCurrency.fromWalletId := 1; ConvertCurrency.toWalletId := 2;
       ConvertCurrency.amount := 100%float |} in
  let r := post_api_conversions 1 data 4000 st in
  api_reachable server_ada_large_funded
  ∧ (getWallet 1 st
     = Some {| Wallet.id := 1; Wallet.userId := 1;
               Wallet.name := Some "Primary"; Wallet.currency := USD;
               Wallet.balance := 1e19%float; Wallet.isPrimary := Some true;
               Wallet.createdAt := 1001 |})
  ∧ (getWallet 2 st
     = Some {| Wallet.id := 2; Wallet.userId := 1;
               Wallet.name := Some "EUR"; Wallet.currency := EUR;
               Wallet.balance := 0.1%float; Wallet.isPrimary := Some false;
               Wallet.createdAt := 3000 |})
  ∧ outcome r.1 = Some Succeeded
  ∧ convertedAmountOf r.1 = Some 91.5%float
  ∧ Wallet.balance <$> getWallet 1 r.2 = Some 1e19%float
  ∧ Wallet.balance <$> getWallet 2 r.2 = Some (0.1 + 91.5)%float
  ∧ ¬ Js.less_by 1e19 1e19 100
  ∧ ¬ Js.more_by 0.1 (0.1 + 91.5) 91.5.
Proof.
  cbv zeta. split.
  { assert (api_reachable server_ada_large) as H1.
    { refine (api_deposits server_ada 1
                {| User.id := 1; User.name := "Ada";
                   User.email := "ada@example.org"; User.password := "hash1";
                   User.createdAt := 1000 |} _ _ _ _);
        [apply api_register, api_new|reflexivity]. }
    assert (api_reachable server_ada_large_eur) as H2.
    { refine (api_wallets server_ada_large 1
                {| User.id := 1; User.name := "Ada";
                   User.email := "ada@example.org"; User.password := "hash1";
                   User.createdAt := 1000 |} _ _ H1 _).
      reflexivity. }
    refine (api_deposits server_ada_large_eur 1
              {| User.id := 1; User.name := "Ada";
                 User.email := "ada@example.org"; User.password := "hash1";
                 User.createdAt := 1000 |} _ _ H2 _).
    reflexivity. }
  repeat split; try (vm_compute; reflexivity).
  - vm_compute. discriminate.
  - vm_compute. discriminate.
Qed.

(** ** Listing the ledger *)

Lemma insert_Permutation (x : Transaction.t) (l : list Transaction.t) :
  Permutation (JsArray.insert byCreatedAtDesc x l) (x :: l).
Proof.
  induction l as [|y l IH]; simpl; [done|].
  destruct (byCreatedAtDesc x y <=? 0); [done|].
  rewrite IH. apply perm_swap.
Qed.

Lemma sort_Permutation (l : list Transaction.t) :
  Permutation (JsArray.sort byCreatedAtDesc l) l.
Proof.
  induction l as [|x l IH]; simpl; [done|].
  rewrite insert_Permutation. by constructor.
Qed.

Lemma insert_sorted (x : Transaction.t) (l : list Transaction.t) :
  StronglySorted newer_first l →
  StronglySorted newer_first (JsArray.insert byCreatedAtDesc x l).
Proof.
  induction 1 as [|y l Hl IH Hy]; simpl.
  - repeat constructor.
  - unfold byCreatedAtDesc at 1.
    destruct (Z.leb_spec (Transaction.createdAt y - Transaction.createdAt x) 0)
      as [Hle|Hgt].
    + constructor; [by constructor|].
      constructor; [unfold newer_first; lia|].
      eapply Forall_impl; [exact Hy|]. unfold newer_first. intros; lia.
    + constructor; [exact IH|].
      rewrite insert_Permutation.
      constructor; [unfold newer_first; lia | exact Hy].
Qed.

Lemma sort_sorted (l : list Transaction.t) :
  StronglySorted newer_first (JsArray.sort byCreatedAtDesc l).
Proof.
  induction l as [|x l IH]; simpl; [constructor | by apply insert_sorted].
Qed.

Lemma take_sorted (n : nat) (l : list Transaction.t) :
  StronglySorted newer_first l → StronglySorted newer_first (take n l).
Proof.
  intros Hl. rewrite <- (take_drop n l) in Hl.
  by apply StronglySorted_app_1_l in Hl.
Qed.

Lemma limited_sorted (limit : option Z) (l : list Transaction.t) :
  StronglySorted newer_first l → StronglySorted newer_first (limited limit l).
Proof.
  intros Hl. destruct limit as [n|]; simpl; [|done].
  destruct (n =? 0); [done|]. by apply take_sorted.
Qed.

Lemma limited_positive {A : Type} (n : Z) (l : list A) :
  0 < n → limited (Some n) l = take (Z.to_nat n) l.
Proof.
  intros Hn. unfold limited, JsArray.slice0.
  destruct (Z.eqb_spec n 0); [lia|].
  destruct (Z.ltb_spec n 0); [lia|].
  destruct (Z.le_ge_cases n (Z.of_nat (length l))).
  - by rewrite Z.min_l.
  - rewrite Z.min_r, Nat2Z.id, firstn_all by done.
    symmetry. apply take_ge. lia.
Qed.

(** C8, as amended. Ledger listing: the entries [getTransactions] returns are
    sorted by creation time, newest first, whatever the limit; without a limit
    they are all the entries of the account; a positive limit [n] keeps the
    first [n] of them, so at most [n]; the limit 0 is treated as no limit and
    returns them all. *)
Theorem listing_order_and_limit (st : MemStorage) (userId : Z) :
  (∀ limit, StronglySorted newer_first (getTransactions userId limit st))
  ∧ Permutation (getTransactions userId None st)
      (List.filter (λ t, Transaction.userId t =? userId) (ledger st))
  ∧ (∀ n, 0 < n →
       getTransactions userId (Some n) st
       = take (Z.to_nat n) (getTransactions userId None st)
       ∧ Z.of_nat (length (getTransactions userId (Some n) st)) <= n)
  ∧ getTransactions userId (Some 0) st = getTransactions userId None st.
Proof.
  unfold getTransactions, ledger. repeat apply conj.
  - intros limit. apply limited_sorted, sort_sorted.
  - apply sort_Permutation.
  - intros n Hn. rewrite limited_positive by done. split; [done|].
    rewrite length_take. lia.
  - reflexivity.
Qed.

(** Account 1 has two ledger entries; a listing with limit 1 returns the
    newer one. *)
Lemma listing_order_and_limit_witness :
  getTransactions 1 (Some 1) (store_usd_eur 10 20)
  = take 1 (getTransactions 1 None (store_usd_eur 10 20))
  ∧ Z.of_nat (length (getTransactions 1 (Some 1) (store_usd_eur 10 20))) <= 1.
Proof.
  refine (proj1 (proj2 (proj2
            (listing_order_and_limit (store_usd_eur 10 20) 1))) 1 _).
  lia.
Defined.

(** C8 as stated fails for the limit 0: account 1 has two ledger entries and
    a listing with limit 0, through the storage method or through
    GET /api/transactions?limit=0, returns both. *)
Lemma listing_limit_zero_returns_all :
  length (getTransactions 1 (Some 0) (store_usd_eur 10 20)) = 2%nat
  ∧ length (get_api_transactions 1 (Some 0) (store_usd_eur 10 20)) = 2%nat
  ∧ ¬ (Z.of_nat (length (getTransactions 1 (Some 0) (store_usd_eur 10 20)))
       <= 0).
Proof.
  split; [vm_compute; reflexivity|].
  split; [vm_compute; reflexivity|].
  intros H. vm_compute in H. by apply H.
Qed.

(** * Further properties *)

(** ** One step of the store *)

Lemma step_reachable st st' : reachable st → step st st' → reachable st'.
Proof. intros Hst []; by constructor. Qed.

Lemma post_api_transfers_cases user reqBody now st :
  (status (post_api_transfers user reqBody now st).1 ≠ 201
   ∧ (post_api_transfers user reqBody now st).2 = st)
  ∨ status (post_api_transfers user reqBody now st).1 = 201
    ∧ ∃ updates entry,
        committed st (post_api_transfers user reqBody now st).2 updates entry
          now
        ∧ entry_facts st updates entry.
Proof.
  unfold post_api_transfers.
  destruct (transferFundsSchema reqBody); [|left; split; [simpl; lia|done]].
  destruct (transfer_inv user reqBody now st) as [H|H]; [by left|right].
  destruct H as (fw & tw & Hfw & Htw & Hu1 & Hu2 & _ & _ & Hok & Hc).
  split; [done|]. eexists _, _. split; [exact Hc|]. split.
  - intros tid now' id [Hid|Hid]; simpl in Hid; injection Hid as <-;
      eauto.
  - constructor; [by left|]. constructor; [by right|]. constructor.
Qed.

Lemma post_api_conversions_cases user reqBody now st :
  (status (post_api_conversions user reqBody now st).1 ≠ 201
   ∧ (post_api_conversions user reqBody now st).2 = st)
  ∨ status (post_api_conversions user reqBody now st).1 = 201
    ∧ ∃ updates entry,
        committed st (post_api_conversions user reqBody now st).2 updates
          entry now
        ∧ entry_facts st updates entry.
Proof.
  unfold post_api_conversions.
  destruct (convertCurrencySchema reqBody); [|left; split; [simpl; lia|done]].
  destruct (convert_inv user reqBody now st) as [H|H]; [by left|right].
  destruct H as (fw & tw & rate & Hfw & Htw & Hu1 & Hu2 & _ & _ & _ & Hok & _
                 & Hc).
  split; [done|]. eexists _, _. split; [exact Hc|]. split.
  - intros tid now' id [Hid|Hid]; simpl in Hid; injection Hid as <-;
      eauto.
  - constructor; [by left|]. constructor; [by right|]. constructor.
Qed.

Lemma post_api_deposits_cases user reqBody now st :
  (status (post_api_deposits user reqBody now st).1 ≠ 201
   ∧ (post_api_deposits user reqBody now st).2 = st)
  ∨ status (post_api_deposits user reqBody now st).1 = 201
    ∧ ∃ updates entry,
        committed st (post_api_deposits user reqBody now st).2 updates entry
          now
        ∧ entry_facts st updates entry.
Proof.
  unfold post_api_deposits.
  destruct (addFundsSchema reqBody); [|left; split; [simpl; lia|done]].
  destruct (deposit_inv user reqBody now st) as [H|H]; [by left|right].
  destruct H as (w & Hw & Hu & Hok & Hc).
  split; [done|]. eexists _, _. split; [exact Hc|]. split.
  - intros tid now' id [Hid|Hid]; simpl in Hid; [done|].
    injection Hid as <-. eauto.
  - constructor; [by right|]. constructor.
Qed.

(** A step creates a wallet with balance 0, changes nothing, or commits the
    writes and the entry of one ledger operation. *)
Lemma step_cases st st' :
  step st st' →
  (∃ walletData now,
     InsertWallet.balance walletData = Some 0%float
     ∧ st' = (createWallet walletData now st).2)
  ∨ st' = st
  ∨ ∃ updates entry now,
      committed st st' updates entry now ∧ entry_facts st updates entry.
Proof.
  intros [userId name currency isPrimary now|user reqBody now
         |user reqBody now|user reqBody now].
  - left. eexists _, _. split; [|reflexivity]. reflexivity.
  - right. destruct (post_api_transfers_cases user reqBody now st)
      as [[_ ->]|(_ & u & e & H)]; [by left|right; eauto].
  - right. destruct (post_api_conversions_cases user reqBody now st)
      as [[_ ->]|(_ & u & e & H)]; [by left|right; eauto].
  - right. destruct (post_api_deposits_cases user reqBody now st)
      as [[_ ->]|(_ & u & e & H)]; [by left|right; eauto].
Qed.

Lemma reachable_ind_steps (P : MemStorage → Prop) :
  P MemStorage_new →
  (∀ st st', reachable st → P st → step st st' → P st') →
  ∀ st, reachable st → P st.
Proof.
  intros Hnew Hstep st Hst.
  induction Hst; [done|..]; (eapply Hstep; [eassumption|done|constructor]).
Qed.

(** ** Wallet identifiers *)

Lemma wf_frame st st' :
  balances_only st st' → walletId st' = walletId st →
  wallets_wf st → wallets_wf st'.
Proof.
  intros Hb Hw [Hone Hwf]. split; [by rewrite Hw|]. intros id.
  destruct (Hwf id) as [Hid Hdom]. specialize (Hb id).
  unfold getWallet in *. rewrite Hw.
  inversion Hb as [w w' (Hsame & _) Hl Hr|Hl Hr].
  - split.
    + intros w0 [= <-]. rewrite Hsame. apply Hid. by rewrite <- Hl.
    + rewrite <- Hl in Hdom. split; [intros _; by apply Hdom|by eauto].
  - split; [done|]. rewrite <- Hl in Hdom.
    split; [by intros []|]. intros H. by apply Hdom in H.
Qed.

Lemma wf_createWallet walletData now st :
  wallets_wf st → wallets_wf (createWallet walletData now st).2.
Proof.
  intros [Hone Hwf]. split; [simpl; lia|]. intros id.
  destruct (Hwf id) as [Hid Hdom]. unfold getWallet in *. simpl.
  rewrite lookup_insert. case_decide as Hk; subst.
  - split; [by intros w [= <-]|]. split; [lia|by eauto].
  - split; [exact Hid|]. rewrite Hdom. lia.
Qed.

Lemma step_frame st st' :
  step st st' → wallets_wf st →
  wallets_kept st st' ∧ walletId st <= walletId st'
  ∧ transactionId st <= transactionId st'.
Proof.
  intros Hstep [Hone Hwf].
  destruct (step_cases st st' Hstep)
    as [(walletData & now & _ & ->)|[->|(updates & entry & now & Hc & _)]].
  - split; [|simpl; lia]. intros id w Hw. exists w. split; [|done].
    unfold getWallet in *. simpl. rewrite lookup_insert_ne; [done|].
    intros <-. destruct (Hwf (walletId st)) as [_ Hdom].
    assert (is_Some (wallets st !! walletId st)) as H by eauto.
    apply Hdom in H. lia.
  - split; [|lia]. intros id w Hw. by exists w.
  - pose proof (committed_frame _ _ _ _ _ Hc) as Hb.
    destruct Hc as (_ & _ & Hwid & Htid). split; [|lia].
    intros id w Hw. specialize (Hb id). unfold getWallet in *.
    rewrite Hw in Hb. inversion Hb as [? w' Hsame|]. by exists w'.
Qed.

Lemma reachable_wf st : reachable st → wallets_wf st.
Proof.
  revert st. apply reachable_ind_steps.
  - split; [done|]. intros id. unfold getWallet. simpl.
    rewrite lookup_empty. split; [done|]. split; [by intros []|lia].
  - intros st st' _ Hwf Hstep.
    destruct (step_cases st st' Hstep)
      as [(walletData & now & _ & ->)|[->|(updates & entry & now & Hc & _)]].
    + by apply wf_createWallet.
    + done.
    + eapply wf_frame; [by eapply committed_frame| |done]. apply Hc.
Qed.

Lemma wallet_identifiers_aux st :
  reachable st →
  ∀ id,
    (is_Some (getWallet id st) ↔ 1 <= id < walletId st)
    ∧ (∀ w, getWallet id st = Some w → Wallet.id w = id).
Proof.
  intros Hst id. destruct (reachable_wf st Hst) as [_ Hwf].
  destruct (Hwf id). by split.
Qed.

(** X1. Wallet identifiers: in every reachable store the wallets are stored
    under exactly the keys 1, 2, ..., [walletId - 1], and the wallet found
    under a key carries that key as its [id]; a lookup outside this range
    finds nothing. *)
Theorem wallet_identifiers (st : MemStorage) :
  reachable st →
  ∀ id,
    (is_Some (getWallet id st) ↔ 1 <= id < walletId st)
    ∧ (∀ w, getWallet id st = Some w → Wallet.id w = id).
Proof. apply wallet_identifiers_aux. Qed.

(** Account 1 with its USD and EUR wallets: keys 1 and 2, nothing under 3. *)
Lemma wallet_identifiers_witness :
  (is_Some (getWallet 3 (store_usd_eur 10 20))
   ↔ 1 <= 3 < walletId (store_usd_eur 10 20))
  ∧ (∀ w, getWallet 3 (store_usd_eur 10 20) = Some w → Wallet.id w = 3).
Proof.
  exact (wallet_identifiers (store_usd_eur 10 20)
           (store_usd_eur_reachable 10 20) 3).
Defined.

(** ** The ledger over time *)

Lemma reachable_numbered st : reachable st → ledger_numbered st.
Proof.
  revert st. apply reachable_ind_steps.
  - split; [done|]. intros k entry Hk. by destruct k.
  - intros st st' Hst [Hnext Hnum] Hstep.
    destruct (step_cases st st' Hstep)
      as [(walletData & now & _ & ->)|[->|(updates & entry & now & Hc & _)]];
      [done|done|].
    destruct (reachable_invariants st Hst) as [Hfresh _].
    destruct (committed_ledger _ _ _ _ _ Hfresh Hc) as [_ Hl].
    destruct Hc as (_ & _ & _ & Htid).
    split.
    + rewrite Htid, Hl, length_app. simpl. lia.
    + intros k e. rewrite Hl. intros Hk.
      apply lookup_app_Some in Hk as [Hk|[Hlen Hk]]; [by apply Hnum|].
      destruct (k - length (ledger st))%nat as [|n] eqn:Hn; [|done].
      injection Hk as <-. simpl. lia.
Qed.

Lemma step_ledger st st' :
  reachable st → step st st' → ledger st `prefix_of` ledger st'.
Proof.
  intros Hst Hstep.
  destruct (step_cases st st' Hstep)
    as [(walletData & now & _ & ->)|[->|(updates & entry & now & Hc & _)]];
    [done|done|].
  destruct (reachable_invariants st Hst) as [Hfresh _].
  destruct (committed_ledger _ _ _ _ _ Hfresh Hc) as [_ Hl].
  rewrite Hl. by eexists.
Qed.

#[local] Instance wallets_kept_refl : Reflexive wallets_kept.
Proof. intros st id w Hw. by exists w. Qed.

#[local] Instance wallets_kept_trans : Transitive wallets_kept.
Proof.
  intros st1 st2 st3 H12 H23 id w Hw.
  destruct (H12 id w Hw) as (w2 & Hw2 & Hs2).
  destruct (H23 id w2 Hw2) as (w3 & Hw3 & Hs3).
  exists w3. split; [done|]. by etransitivity.
Qed.

Lemma history st st' :
  reachable st → rtc step st st' →
  reachable st'
  ∧ ledger st `prefix_of` ledger st'
  ∧ wallets_kept st st'
  ∧ walletId st <= walletId st'
  ∧ transactionId st <= transactionId st'.
Proof.
  intros Hst Hsteps. induction Hsteps as [st|st st1 st2 Hstep _ IH].
  - repeat split; [done|done|reflexivity|lia|lia].
  - pose proof (step_reachable _ _ Hst Hstep) as Hst1.
    destruct (IH Hst1) as (Hr & Hp & Hk & Hw & Ht).
    destruct (step_frame _ _ Hstep (reachable_wf _ Hst)) as (Hk1 & Hw1 & Ht1).
    repeat split; [done| | |lia|lia].
    + etransitivity; [by apply step_ledger|done].
    + by etransitivity.
Qed.

(** X2. Numbered ledger: in every reachable store the entries of the ledger
    carry the identifiers 1, 2, 3, ... in the order in which they were made
    (so no two entries share an identifier), and the next identifier to be
    given out is the number of entries plus one. *)
Theorem ledger_identifiers (st : MemStorage) :
  reachable st →
  transactionId st = Z.of_nat (length (ledger st)) + 1
  ∧ ∀ k entry,
      ledger st !! k = Some entry → Transaction.id entry = Z.of_nat k + 1.
Proof. apply reachable_numbered. Qed.

(** After the two deposits of account 1 the next identifier is 3. *)
Lemma ledger_identifiers_witness :
  transactionId (store_usd_eur 10 20)
  = Z.of_nat (length (ledger (store_usd_eur 10 20))) + 1
  ∧ ∀ k entry,
      ledger (store_usd_eur 10 20) !! k = Some entry →
      Transaction.id entry = Z.of_nat k + 1.
Proof.
  exact (ledger_identifiers (store_usd_eur 10 20)
           (store_usd_eur_reachable 10 20)).
Defined.

(** X3. Append-only history: whatever calls the server handles after a
    reachable store [st], the ledger of [st] stays as a prefix of the later
    ledger (no entry is changed, reordered or removed), every wallet of [st]
    is still stored under its key with the same identifier, owner, name,
    currency, primary flag and creation time, and neither counter goes
    down. *)
Theorem history_is_kept (st st' : MemStorage) :
  reachable st → rtc step st st' →
  ledger st `prefix_of` ledger st'
  ∧ wallets_kept st st'
  ∧ walletId st <= walletId st'
  ∧ transactionId st <= transactionId st'.
Proof. intros Hst Hsteps. by destruct (history st st' Hst Hsteps) as [_ ?]. Qed.

(** From the store with two fresh wallets to the one after a deposit and a
    conversion. *)
Lemma history_is_kept_witness :
  let st := store_usd_eur 10 20 in
  let st' :=
    (post_api_conversions 1
       {| ConvertCurrency.fromWalletId := 1; ConvertCurrency.toWalletId := 2;
          ConvertCurrency.amount := 5%float |} 2000 st).2 in
  ledger st `prefix_of` ledger st'
  ∧ wallets_kept st st'
  ∧ walletId st <= walletId st'
  ∧ transactionId st <= transactionId st'.
Proof.
  cbv zeta. apply history_is_kept; [apply store_usd_eur_reachable|].
  apply rtc_once. apply step_conversions.
Defined.

Lemma owned_kept st st' entry :
  wallets_kept st st' → owned_entry st entry → owned_entry st' entry.
Proof.
  intros Hk Ho id Hid. destruct (Ho id Hid) as (w & Hw & Hu).
  destruct (Hk id w Hw) as (w' & Hw' & _ & Hu' & _).
  exists w'. split; [done|congruence].
Qed.

Lemma reachable_owned st : reachable st → Forall (owned_entry st) (ledger st).
Proof.
  revert st. apply reachable_ind_steps; [by apply Forall_nil|].
  intros st st' Hst Hown Hstep.
  destruct (step_frame _ _ Hstep (reachable_wf _ Hst)) as (Hk & _).
  destruct (step_cases st st' Hstep)
    as [(walletData & now & _ & ->)|[->|(updates & entry & now & Hc & Hf)]].
  - eapply Forall_impl; [exact Hown|]. intros e. by apply owned_kept.
  - done.
  - destruct (reachable_invariants st Hst) as [Hfresh _].
    destruct (committed_ledger _ _ _ _ _ Hfresh Hc) as [_ Hl].
    rewrite Hl. apply Forall_app. split.
    + eapply Forall_impl; [exact Hown|]. intros e. by apply owned_kept.
    + constructor; [|constructor]. eapply owned_kept; [exact Hk|].
      apply Hf.
Qed.

(** X4. Entries name their account's wallets: in every reachable store, each
    wallet a ledger entry names as source or destination exists and is owned
    by the account the entry is recorded for. *)
Theorem entries_name_own_wallets (st : MemStorage) (entry : Transaction.t)
    (id : Z) :
  reachable st → entry ∈ ledger st → names entry id →
  ∃ w, getWallet id st = Some w
       ∧ Wallet.userId w = Transaction.userId entry.
Proof.
  intros Hst Hin Hid. pose proof (reachable_owned st Hst) as Hall.
  rewrite Forall_forall in Hall. by apply (Hall entry Hin id).
Qed.

(** The second deposit of account 1 names wallet 2, which account 1 owns. *)
Lemma entries_name_own_wallets_witness :
  ∃ entry w,
    ledger (store_usd_eur 10 20) !! 1%nat = Some entry
    ∧ getWallet 2 (store_usd_eur 10 20) = Some w
    ∧ Wallet.userId w = Transaction.userId entry.
Proof.
  destruct (ledger (store_usd_eur 10 20) !! 1%nat) as [entry|] eqn:He;
    [|vm_compute in He; discriminate].
  destruct (entries_name_own_wallets (store_usd_eur 10 20) entry 2)
    as (w & Hw & Hu).
  - apply store_usd_eur_reachable.
  - by eapply list_elem_of_lookup_2.
  - right. vm_compute in He. injection He as <-. reflexivity.
  - exists entry, w. done.
Defined.

(** ** What a request leaves alone *)

Lemma writes_elsewhere (updates : list (Z * float)) (m : gmap Z Wallet.t)
    (id : Z) :
  Forall (λ u, u.1 ≠ id) updates →
  foldl (λ m u, alter (λ w, Wallet.with_balance w u.2) u.1 m) m updates !! id
  = m !! id.
Proof.
  intros Hu. revert m.
  induction Hu as [|[i b] updates Hi _ IH]; intros m; simpl; [done|].
  rewrite IH. by apply lookup_alter_ne.
Qed.

(** X5. No write on error: a transfer, conversion or deposit request that is
    not answered with status 201, whatever the reason (invalid body, missing
    wallet, foreign wallet, currency mismatch, insufficient funds, missing
    rate), returns the store exactly as it was. *)
Theorem no_write_on_error (st : MemStorage) (user now : Z) :
  (∀ reqBody,
     status (post_api_transfers user reqBody now st).1 ≠ 201 →
     (post_api_transfers user reqBody now st).2 = st)
  ∧ (∀ reqBody,
     status (post_api_conversions user reqBody now st).1 ≠ 201 →
     (post_api_conversions user reqBody now st).2 = st)
  ∧ (∀ reqBody,
     status (post_api_deposits user reqBody now st).1 ≠ 201 →
     (post_api_deposits user reqBody now st).2 = st).
Proof.
  repeat split; intros reqBody Hne.
  - by destruct (post_api_transfers_cases user reqBody now st) as [[_ ?]|[? _]].
  - by destruct (post_api_conversions_cases user reqBody now st)
      as [[_ ?]|[? _]].
  - by destruct (post_api_deposits_cases user reqBody now st) as [[_ ?]|[? _]].
Qed.

(** A conversion into a JPY wallet has no rate and changes nothing. *)
Lemma no_write_on_error_witness :
  let st :=
    (createWallet (newWallet 1 JPY false) 1004 (store_usd_eur 100 100)).2 in
  let reqBody :=
    {| ConvertCurrency.fromWalletId := 1; ConvertCurrency.toWalletId := 3;
       ConvertCurrency.amount := 10%float |} in
  (post_api_conversions 1 reqBody 2000 st).2 = st.
Proof.
  cbv zeta.
  apply (proj1 (proj2 (no_write_on_error _ 1 2000))).
  vm_compute. discriminate.
Defined.

(** X6. Only the named wallets are written: a transfer or conversion leaves
    every wallet other than its source and destination exactly as it was,
    balance included, and a deposit every wallet other than its target. *)
Theorem only_named_wallets_written (st : MemStorage) (user now id : Z) :
  (∀ reqBody,
     id ≠ TransferFunds.fromWalletId reqBody →
     id ≠ TransferFunds.toWalletId reqBody →
     getWallet id (post_api_transfers user reqBody now st).2
     = getWallet id st)
  ∧ (∀ reqBody,
     id ≠ ConvertCurrency.fromWalletId reqBody →
     id ≠ ConvertCurrency.toWalletId reqBody →
     getWallet id (post_api_conversions user reqBody now st).2
     = getWallet id st)
  ∧ (∀ reqBody,
     id ≠ AddFunds.walletId reqBody →
     getWallet id (post_api_deposits user reqBody now st).2
     = getWallet id st).
Proof.
  repeat split.
  - intros reqBody Hf Ht. unfold post_api_transfers.
    destruct (transferFundsSchema reqBody); [|done].
    destruct (transfer_inv user reqBody now st) as [[_ ->]|H]; [done|].
    destruct H as (fw & tw & _ & _ & _ & _ & _ & _ & _ & Hc & _).
    unfold getWallet. rewrite Hc. apply writes_elsewhere.
    repeat constructor; simpl; congruence.
  - intros reqBody Hf Ht. unfold post_api_conversions.
    destruct (convertCurrencySchema reqBody); [|done].
    destruct (convert_inv user reqBody now st) as [[_ ->]|H]; [done|].
    destruct H as (fw & tw & rate & _ & _ & _ & _ & _ & _ & _ & _ & _ & Hc
                   & _).
    unfold getWallet. rewrite Hc. apply writes_elsewhere.
    repeat constructor; simpl; congruence.
  - intros reqBody Hw. unfold post_api_deposits.
    destruct (addFundsSchema reqBody); [|done].
    destruct (deposit_inv user reqBody now st) as [[_ ->]|H]; [done|].
    destruct H as (w & _ & _ & _ & Hc & _).
    unfold getWallet. rewrite Hc. apply writes_elsewhere.
    repeat constructor; simpl; congruence.
Qed.

(** Converting USD into EUR leaves the JPY wallet 3 as it was. *)
Lemma only_named_wallets_written_witness :
  let st :=
    (createWallet (newWallet 1 JPY false) 1004 (store_usd_eur 100 100)).2 in
  let reqBody :=
    {| ConvertCurrency.fromWalletId := 1; ConvertCurrency.toWalletId := 2;
       ConvertCurrency.amount := 10%float |} in
  getWallet 3 (post_api_conversions 1 reqBody 2000 st).2 = getWallet 3 st.
Proof.
  cbv zeta.
  apply (proj1 (proj2 (only_named_wallets_written _ 1 2000 3))); simpl; lia.
Defined.

(** ** Storage methods: what is written can be read back *)

Lemma SFeqb_refl (f : spec_float) : f ≠ S754_nan → SFeqb f f = true.
Proof.
  unfold SFeqb, SFcompare. destruct f as [[]|[]| |[] m e]; try done.
  all: intros _; rewrite Z.compare_refl.
  all: change (Pos.compare_cont Eq m m) with (m ?= m)%positive.
  all: by rewrite Pos.compare_refl.
Qed.

(** A number is falsy exactly when it is [0], [-0] or [NaN]. *)
Lemma truthy_false (x : float) :
  Js.truthy x = false ↔ x = 0%float ∨ x = neg_zero ∨ x = nan.
Proof.
  split; [|by intros [->|[->| ->]]].
  unfold Js.truthy. rewrite !FloatAxioms.eqb_spec.
  change (Prim2SF 0) with (S754_zero false).
  destruct (Prim2SF x) as [s|s| |s m e] eqn:E.
  - intros _. destruct s; [right; left|left]; by apply Prim2SF_inj.
  - by destruct s.
  - intros _. right. right. by apply Prim2SF_inj.
  - rewrite SFeqb_refl by done. by destruct s.
Qed.

(** X7. Creating a wallet: in a reachable store [createWallet] takes a key no
    wallet is stored under and returns a wallet carrying that key and the
    given owner, name, currency and primary flag.  Its balance is the given
    balance, unless that is missing or falsy, that is [0], [-0] or [NaN]: then
    it is 0.  This wallet is what [getWallet] finds under the key afterwards,
    every other lookup is unchanged and the next key is one higher. *)
Theorem createWallet_round_trip (st : MemStorage)
    (walletData : InsertWallet.t) (now : Z) :
  reachable st →
  let wallet := (createWallet walletData now st).1 in
  let st' := (createWallet walletData now st).2 in
  getWallet (walletId st) st = None
  ∧ Wallet.id wallet = walletId st
  ∧ Wallet.userId wallet = InsertWallet.userId walletData
  ∧ Wallet.name wallet = InsertWallet.name walletData
  ∧ Wallet.currency wallet = InsertWallet.currency walletData
  ∧ Wallet.isPrimary wallet = InsertWallet.isPrimary walletData
  ∧ (InsertWallet.balance walletData = None → Wallet.balance wallet = 0%float)
  ∧ (∀ b,
       InsertWallet.balance walletData = Some b →
       (b = 0%float ∨ b = neg_zero ∨ b = nan → Wallet.balance wallet = 0%float)
       ∧ (b ≠ 0%float → b ≠ neg_zero → b ≠ nan → Wallet.balance wallet = b))
  ∧ getWallet (Wallet.id wallet) st' = Some wallet
  ∧ (∀ id, id ≠ walletId st → getWallet id st' = getWallet id st)
  ∧ walletId st' = walletId st + 1.
Proof.
  intros Hst. destruct (reachable_wf st Hst) as [_ Hwf].
  destruct (Hwf (walletId st)) as [_ Hdom].
  cbv zeta. unfold getWallet in *. simpl.
  split.
  { destruct (wallets st !! walletId st) eqn:E; [|done].
    assert (1 <= walletId st < walletId st) by (apply Hdom; eauto). lia. }
  do 5 (split; [done|]).
  split; [by intros ->|]. split.
  { intros b ->. split.
    - intros Hfalsy. apply truthy_false in Hfalsy. by rewrite Hfalsy.
    - intros H0 Hn0 Hnan. destruct (Js.truthy b) eqn:E; [done|].
      apply truthy_false in E. tauto. }
  split; [by rewrite lookup_insert_eq|].
  split; [|done]. intros id Hid. by rewrite lookup_insert_ne.
Qed.

(** A wallet created with a balance of 25 in the store of the registered
    user gets key 2 and holds 25. *)
Lemma createWallet_round_trip_witness :
  let st := storage server_ada_funded in
  let walletData :=
    {| InsertWallet.userId := 1; InsertWallet.name := Some "GBP";
       InsertWallet.currency := GBP; InsertWallet.balance := Some 25%float;
       InsertWallet.isPrimary := Some false |} in
  let wallet := (createWallet walletData 5000 st).1 in
  let st' := (createWallet walletData 5000 st).2 in
  getWallet 2 st = None
  ∧ Wallet.id wallet = 2
  ∧ Wallet.balance wallet = 25%float
  ∧ getWallet 2 st' = Some wallet.
Proof.
  destruct (createWallet_round_trip (storage server_ada_funded)
              {| InsertWallet.userId := 1; InsertWallet.name := Some "GBP";
                 InsertWallet.currency := GBP;
                 InsertWallet.balance := Some 25%float;
                 InsertWallet.isPrimary := Some false |} 5000)
    as (Hnone & Hid & _ & _ & _ & _ & _ & Hbalance & Hget & _).
  - apply reachable_deposits, reachable_createWallet, reachable_new.
  - destruct (Hbalance 25%float eq_refl) as [_ Hkept].
    refine (conj Hnone (conj Hid (conj (Hkept _ _ _) Hget)));
      intros H; apply (f_equal Prim2SF) in H; vm_compute in H; discriminate.
Defined.

(** X8. Writing a balance: [updateWalletBalance] on a key without a wallet
    returns nothing and leaves the store as it was; on a stored wallet it
    returns the wallet with the new balance and nothing else changed, which
    is what [getWallet] finds afterwards; lookups of other keys are
    unchanged; and of two writes to one key the last one wins, as if the
    first had never been made. *)
Theorem updateWalletBalance_round_trip (st : MemStorage) (id : Z)
    (balance : float) :
  (getWallet id st = None → updateWalletBalance id balance st = (None, st))
  ∧ (∀ w, getWallet id st = Some w →
       (updateWalletBalance id balance st).1
       = Some (Wallet.with_balance w balance)
       ∧ getWallet id (updateWalletBalance id balance st).2
         = Some (Wallet.with_balance w balance))
  ∧ (∀ id', id' ≠ id →
       getWallet id' (updateWalletBalance id balance st).2
       = getWallet id' st)
  ∧ (∀ balance2,
       updateWalletBalance id balance2 (updateWalletBalance id balance st).2
       = updateWalletBalance id balance2 st).
Proof.
  unfold getWallet, updateWalletBalance. repeat split.
  - by intros ->.
  - rewrite H. done.
  - rewrite H. simpl. by rewrite lookup_insert_eq.
  - intros id' Hid. destruct (wallets st !! id); [|done]. simpl.
    by rewrite lookup_insert_ne.
  - intros balance2. destruct (wallets st !! id) as [w|] eqn:E; simpl.
    + rewrite lookup_insert_eq. simpl. by rewrite insert_insert_eq.
    + by rewrite E.
Qed.

(** Wallet 7 does not exist; wallet 1 holds 10.00 and is set to 3.50. *)
Lemma updateWalletBalance_round_trip_witness :
  updateWalletBalance 7 3.5 (store_usd_eur 10 20)
  = (None, store_usd_eur 10 20)
  ∧ Wallet.balance
      <$> getWallet 1 (updateWalletBalance 1 3.5 (store_usd_eur 10 20)).2
    = Some 3.5%float.
Proof.
  destruct (updateWalletBalance_round_trip (store_usd_eur 10 20) 7 3.5)
    as (Hmissing & _).
  destruct (updateWalletBalance_round_trip (store_usd_eur 10 20) 1 3.5)
    as (_ & Hfound & _).
  split.
  - apply Hmissing. vm_compute. reflexivity.
  - destruct (getWallet 1 (store_usd_eur 10 20)) as [w|] eqn:Hw;
      [|vm_compute in Hw; discriminate].
    destruct (Hfound w eq_refl) as [_ ->]. reflexivity.
Defined.

Lemma createTransaction_ledger transactionData now st :
  reachable st →
  ledger (createTransaction transactionData now st).2
  = (ledger st ++ [(createTransaction transactionData now st).1])%list.
Proof.
  intros Hst. destruct (reachable_invariants st Hst) as [Hfresh _].
  unfold ledger, JsMap.values. simpl.
  rewrite JsMap_set_fresh by done. by rewrite map_app.
Qed.

(** X9. Recording an entry: in a reachable store [createTransaction] gives the
    entry the next identifier and puts it at the end of the ledger; the entry
    then shows up in the listing of its own account, and the listing of every
    other account is exactly what it was. *)
Theorem createTransaction_round_trip (st : MemStorage)
    (transactionData : InsertTransaction.t) (now : Z) :
  reachable st →
  let entry := (createTransaction transactionData now st).1 in
  let st' := (createTransaction transactionData now st).2 in
  Transaction.id entry = transactionId st
  ∧ ledger st' = (ledger st ++ [entry])%list
  ∧ entry ∈ getTransactions (InsertTransaction.userId transactionData) None st'
  ∧ (∀ other limit,
       other ≠ InsertTransaction.userId transactionData →
       getTransactions other limit st' = getTransactions other limit st).
Proof.
  intros Hst. cbv zeta.
  pose proof (createTransaction_ledger transactionData now st Hst) as Hl.
  unfold ledger in Hl. repeat split; [exact Hl| |].
  - unfold getTransactions, limited. rewrite sort_Permutation.
    rewrite Hl, List.filter_app. apply elem_of_app. right. simpl.
    rewrite Z.eqb_refl. by left.
  - intros other limit Hother. unfold getTransactions.
    rewrite Hl, List.filter_app. simpl.
    destruct (Z.eqb_spec (InsertTransaction.userId transactionData) other);
      [congruence|]. by rewrite app_nil_r.
Qed.

(** A withdrawal record for account 1 gets identifier 3 and is listed for
    account 1. *)
Lemma createTransaction_round_trip_witness :
  let data := depositEntry 1
                {| AddFunds.walletId := 1; AddFunds.amount := 5%float |}
                {| Wallet.id := 1; Wallet.userId := 1;
                   Wallet.name := Some "USD"; Wallet.currency := USD;
                   Wallet.balance := 10%float; Wallet.isPrimary := Some true;
                   Wallet.createdAt := 1000 |} in
  Transaction.id (createTransaction data 2000 (store_usd_eur 10 20)).1 = 3
  ∧ (createTransaction data 2000 (store_usd_eur 10 20)).1
    ∈ getTransactions 1 None
        (createTransaction data 2000 (store_usd_eur 10 20)).2.
Proof.
  cbv zeta.
  destruct (createTransaction_round_trip (store_usd_eur 10 20)
              (depositEntry 1
                 {| AddFunds.walletId := 1; AddFunds.amount := 5%float |}
                 {| Wallet.id := 1; Wallet.userId := 1;
                    Wallet.name := Some "USD"; Wallet.currency := USD;
                    Wallet.balance := 10%float; Wallet.isPrimary := Some true;
                    Wallet.createdAt := 1000 |}) 2000
              (store_usd_eur_reachable 10 20)) as (Hid & _ & Hin & _).
  exact (conj Hid Hin).
Defined.

(** ** Wallet listings and wallet details *)

Lemma names_filter (walletId : Z) (entry : Transaction.t) :
  bool_decide (Transaction.fromWalletId entry = Some walletId)
  || bool_decide (Transaction.toWalletId entry = Some walletId) = true
  ↔ names entry walletId.
Proof.
  unfold names. rewrite orb_true_iff, !bool_decide_eq_true. done.
Qed.

Lemma getWalletTransactions_elem walletId limit st entry :
  entry ∈ getWalletTransactions walletId limit st →
  entry ∈ ledger st ∧ names entry walletId.
Proof.
  unfold getWalletTransactions. intros Hin.
  assert (entry ∈ JsArray.sort byCreatedAtDesc
            (List.filter
               (λ transaction,
                  bool_decide
                    (Transaction.fromWalletId transaction = Some walletId)
                  || bool_decide
                       (Transaction.toWalletId transaction = Some walletId))
               (JsMap.values (transactions st)))) as Hall.
  { destruct limit as [n|]; simpl in Hin; [|done].
    destruct (n =? 0); [done|]. unfold JsArray.slice0 in Hin.
    eapply subseteq_take, Hin. }
  rewrite sort_Permutation in Hall.
  apply list_elem_of_In, filter_In in Hall as [Hl Hn].
  split; [by apply list_elem_of_In|by apply names_filter].
Qed.

Lemma getWalletTransactions_limit walletId n st :
  0 < n →
  getWalletTransactions walletId (Some n) st
  = take (Z.to_nat n) (getWalletTransactions walletId None st)
  ∧ Z.of_nat (length (getWalletTransactions walletId (Some n) st)) <= n.
Proof.
  intros Hn. unfold getWalletTransactions.
  rewrite limited_positive by done. split; [done|].
  rewrite length_take. lia.
Qed.

Lemma getWalletTransactions_sorted walletId limit st :
  StronglySorted newer_first (getWalletTransactions walletId limit st).
Proof. apply limited_sorted, sort_sorted. Qed.

(** X10. Listing a wallet's entries: [getWalletTransactions] returns entries
    sorted by creation time, newest first, whatever the limit; without a limit
    they are exactly the ledger entries that name the wallet as source or
    destination; a positive limit [n] keeps the first [n] of them; the limit
    0 is treated as no limit. *)
Theorem wallet_listing (st : MemStorage) (walletId : Z) :
  (∀ limit,
     StronglySorted newer_first (getWalletTransactions walletId limit st))
  ∧ (∀ entry,
       entry ∈ getWalletTransactions walletId None st
       ↔ entry ∈ ledger st ∧ names entry walletId)
  ∧ (∀ n, 0 < n →
       getWalletTransactions walletId (Some n) st
       = take (Z.to_nat n) (getWalletTransactions walletId None st)
       ∧ Z.of_nat (length (getWalletTransactions walletId (Some n) st)) <= n)
  ∧ getWalletTransactions walletId (Some 0) st
    = getWalletTransactions walletId None st.
Proof.
  repeat apply conj.
  - intros limit. apply getWalletTransactions_sorted.
  - intros entry. split; [apply getWalletTransactions_elem|].
    intros [Hl Hn]. unfold getWalletTransactions, limited.
    rewrite sort_Permutation. apply list_elem_of_In, filter_In.
    split; [by apply list_elem_of_In|by apply names_filter].
  - intros n Hn. by apply getWalletTransactions_limit.
  - reflexivity.
Qed.

(** Wallet 2 of account 1 is named by one entry, its deposit. *)
Lemma wallet_listing_witness :
  getWalletTransactions 2 (Some 1) (store_usd_eur 10 20)
  = take 1 (getWalletTransactions 2 None (store_usd_eur 10 20))
  ∧ Z.of_nat (length (getWalletTransactions 2 (Some 1) (store_usd_eur 10 20)))
    <= 1.
Proof.
  refine (proj1 (proj2 (proj2 (wallet_listing (store_usd_eur 10 20) 2))) 1 _).
  lia.
Defined.

(** X11. Wallet details: GET /api/wallets/:id answers 404 for a missing
    wallet and 403, without any wallet data, for a wallet of another account;
    when it answers 200 in a reachable store, the wallet is the caller's and
    carries the requested identifier, and the entries sent with it are at
    most 10, newest first, each naming this wallet and each recorded for the
    caller's own account. *)
Theorem wallet_details_access (st : MemStorage) (user walletId : Z) :
  (getWallet walletId st = None →
   get_api_wallet user walletId st = reply 404 (PMessage "Wallet not found"))
  ∧ (∀ w, getWallet walletId st = Some w → Wallet.userId w ≠ user →
       get_api_wallet user walletId st
       = reply 403 (PMessage "You do not have access to this wallet"))
  ∧ (reachable st →
     ∀ w entries,
       get_api_wallet user walletId st = reply 200 (PWalletDetails w entries) →
       getWallet walletId st = Some w
       ∧ Wallet.userId w = user ∧ Wallet.id w = walletId
       ∧ Z.of_nat (length entries) <= 10
       ∧ StronglySorted newer_first entries
       ∧ ∀ entry, entry ∈ entries →
           names entry walletId ∧ Transaction.userId entry = user).
Proof.
  unfold get_api_wallet. repeat apply conj.
  - by intros ->.
  - intros w -> Hu. apply Z.eqb_neq in Hu. by rewrite Hu.
  - intros Hst w entries.
    destruct (getWallet walletId st) as [w0|] eqn:Hw; [|done].
    destruct (Z.eqb_spec (Wallet.userId w0) user) as [Hu|Hu]; [|done].
    intros Heq. cbn [negb] in Heq. injection Heq as <- <-.
    destruct (wallet_identifiers_aux st Hst walletId) as [_ Hid].
    split; [done|]. split; [done|]. split; [by apply Hid|].
    split; [|split].
    + apply (getWalletTransactions_limit walletId 10 st). lia.
    + apply (getWalletTransactions_sorted walletId (Some 10) st).
    + intros entry Hin.
      apply (getWalletTransactions_elem walletId (Some 10) st) in Hin.
      destruct Hin as [Hl Hn]. split; [done|].
      pose proof (reachable_owned st Hst) as Hall.
      rewrite Forall_forall in Hall.
      destruct (Hall entry Hl walletId Hn) as (w1 & Hw1 & Hu1).
      rewrite Hw in Hw1. injection Hw1 as <-. congruence.
Qed.

(** A listing for the owner, and a refusal for another account. *)
Lemma wallet_details_access_witness :
  get_api_wallet 2 1 store_two_accounts_funded
  = reply 403 (PMessage "You do not have access to this wallet")
  ∧ ∃ w entries,
      get_api_wallet 2 2 store_two_accounts_funded
      = reply 200 (PWalletDetails w entries)
      ∧ Wallet.userId w = 2
      ∧ ∀ entry, entry ∈ entries → Transaction.userId entry = 2.
Proof.
  destruct (wallet_details_access store_two_accounts_funded 2 1)
    as (_ & Hforbidden & _).
  destruct (wallet_details_access store_two_accounts_funded 2 2)
    as (_ & _ & Hok).
  split.
  - destruct (getWallet 1 store_two_accounts_funded) as [w|] eqn:Hw;
      [|vm_compute in Hw; discriminate].
    apply (Hforbidden w eq_refl).
    vm_compute in Hw. injection Hw as <-. simpl. lia.
  - eexists _, _. split; [vm_compute; reflexivity|].
    edestruct Hok as (_ & Hu & _ & _ & _ & Hall).
    + apply reachable_deposits, store_two_accounts_reachable.
    + vm_compute. reflexivity.
    + split; [exact Hu|]. intros entry Hin. by apply Hall.
Defined.

(** ** The edge of the funds check *)

Lemma ltb_irrefl x : (x <? x)%float = false.
Proof.
  rewrite ltb_spec. unfold SFltb, SFcompare.
  destruct (Prim2SF x) as [[]|[]| |[] m e]; try reflexivity.
  all: rewrite Z.compare_refl.
  all: change (Pos.compare_cont Eq m m) with (m ?= m)%positive.
  all: by rewrite Pos.compare_refl.
Qed.

Lemma sub_self x : is_Some (Js.value x) → (x - x)%float = 0%float.
Proof.
  unfold Js.value. intros Hfin. apply Prim2SF_inj. rewrite sub_spec.
  change (Prim2SF 0) with (S754_zero false).
  destruct (Prim2SF x) as [[]|[]| |s m e]; try reflexivity;
    try (by destruct Hfin).
  unfold SF64sub, SFsub. by rewrite Z.sub_diag.
Qed.

(** X12. Spending the whole balance: the funds check refuses only amounts
    above the balance.  A conversion request (POST /api/conversions) for
    exactly the source balance, where that balance is finite and above 0, the
    two wallets are distinct wallets of the acting account and their
    currencies are both among USD, EUR and GBP, is answered with 201; it
    leaves the source wallet with exactly 0 and the destination with its
    balance plus the converted amount. *)
Theorem whole_balance_can_be_spent (st : MemStorage) (user now : Z)
    (data : ConvertCurrency.t) (fw tw : Wallet.t) :
  getWallet (ConvertCurrency.fromWalletId data) st = Some fw →
  getWallet (ConvertCurrency.toWalletId data) st = Some tw →
  ConvertCurrency.fromWalletId data ≠ ConvertCurrency.toWalletId data →
  Wallet.userId fw = user → Wallet.userId tw = user →
  covered (Wallet.currency fw) (Wallet.currency tw) = true →
  is_Some (Js.value (Wallet.balance fw)) →
  (0 <? Wallet.balance fw)%float = true →
  ConvertCurrency.amount data = Wallet.balance fw →
  let r := (post_api_conversions user data now st).1 in
  let st' := (post_api_conversions user data now st).2 in
  status r = 201
  ∧ outcome r = Some Succeeded
  ∧ Wallet.balance <$> getWallet (ConvertCurrency.fromWalletId data) st'
    = Some 0%float
  ∧ ∃ rate,
      rateFor (Wallet.currency fw) (Wallet.currency tw) = Some rate
      ∧ Wallet.balance <$> getWallet (ConvertCurrency.toWalletId data) st'
        = Some (Wallet.balance tw + Wallet.balance fw * rate)%float.
Proof.
  intros Hfw Htw Hne Hu1 Hu2 Hcov Hfin Hpos Ha. cbv zeta.
  unfold post_api_conversions, convertCurrencySchema, positive_number.
  rewrite Ha, Hpos.
  assert (outcome (convert user data now st).1 = Some Succeeded) as Hok.
  { rewrite (convert_outcome user data now st fw tw), Hcov; try done.
    rewrite Ha. apply ltb_irrefl. }
  split; [by apply outcome_succeeded|]. split; [done|].
  apply outcome_succeeded in Hok.
  destruct (convert_inv user data now st) as [[Hbad _]|H]; [done|].
  destruct H as (fw0 & tw0 & rate & Hfw0 & Htw0 & _ & _ & _ & Hrate & _ & _ & _
                 & Hc & _).
  rewrite Hfw in Hfw0. rewrite Htw in Htw0.
  injection Hfw0 as <-. injection Htw0 as <-.
  unfold getWallet in *. rewrite Hc. simpl. split.
  - rewrite lookup_alter_ne, lookup_alter_eq, Hfw by done. simpl.
    by rewrite Ha, sub_self.
  - exists rate. split; [done|].
    rewrite lookup_alter_eq, lookup_alter_ne, Htw by done. simpl.
    by rewrite Ha.
Qed.

(** The registered user converts all 100.00 of the USD wallet to the empty
    EUR wallet: the USD wallet is left with 0. *)
Lemma whole_balance_can_be_spent_witness :
  let st := storage server_ada_eur in
  let data :=
    {| ConvertCurrency.fromWalletId := 1; ConvertCurrency.toWalletId := 2;
       ConvertCurrency.amount := 100%float |} in
  status (post_api_conversions 1 data 4000 st).1 = 201
  ∧ Wallet.balance <$> getWallet 1 (post_api_conversions 1 data 4000 st).2
    = Some 0%float.
Proof.
  destruct (whole_balance_can_be_spent (storage server_ada_eur) 1 4000
              {| ConvertCurrency.fromWalletId := 1;
                 ConvertCurrency.toWalletId := 2;
                 ConvertCurrency.amount := 100%float |}
              {| Wallet.id := 1; Wallet.userId := 1;
                 Wallet.name := Some "Primary"; Wallet.currency := USD;
                 Wallet.balance := 100%float; Wallet.isPrimary := Some true;
                 Wallet.createdAt := 1001 |}
              {| Wallet.id := 2; Wallet.userId := 1;
                 Wallet.name := Some "EUR"; Wallet.currency := EUR;
                 Wallet.balance := 0%float; Wallet.isPrimary := Some false;
                 Wallet.createdAt := 3000 |})
    as (Hs & _ & Hb & _); try (vm_compute; reflexivity).
  - simpl. lia.
  - vm_compute. eauto.
  - exact (conj Hs Hb).
Defined.

(** X13. Self-conversion: a conversion whose source and destination are the
    same wallet, owned by the acting account, in a currency of the rate table
    and holding at least the amount, succeeds at rate 1 and leaves the wallet
    with its initial balance plus [amount * 1]: as in a self-transfer, the
    second write overwrites the debit. *)
Theorem self_conversion_adds (st : MemStorage) (user now : Z)
    (data : ConvertCurrency.t) (w : Wallet.t) :
  ConvertCurrency.toWalletId data = ConvertCurrency.fromWalletId data →
  getWallet (ConvertCurrency.fromWalletId data) st = Some w →
  Wallet.userId w = user →
  quoted (Wallet.currency w) = true →
  (ConvertCurrency.amount data <=? Wallet.balance w)%float = true →
  outcome (convert user data now st).1 = Some Succeeded
  ∧ convertedAmountOf (convert user data now st).1
    = Some (ConvertCurrency.amount data * 1)%float
  ∧ Wallet.balance
      <$> getWallet (ConvertCurrency.fromWalletId data)
            (convert user data now st).2
    = Some (Wallet.balance w + ConvertCurrency.amount data * 1)%float.
Proof.
  intros Hsame Hw Hu Hq Hle. apply leb_not_ltb in Hle.
  assert (covered (Wallet.currency w) (Wallet.currency w) = true) as Hcov.
  { unfold covered. by rewrite Hq. }
  assert (outcome (convert user data now st).1 = Some Succeeded) as Hok.
  { rewrite (convert_outcome user data now st w w), Hcov; try done.
    by rewrite Hsame. }
  split; [exact Hok|]. apply outcome_succeeded in Hok.
  destruct (convert_inv user data now st) as [[Hbad _]|H]; [done|].
  destruct H as (fw & tw & rate & Hfw & Htw & _ & _ & _ & Hrate & _ & _
                 & Hbody & Hc & _).
  rewrite Hsame in Htw. rewrite Hw in Hfw, Htw.
  injection Hfw as <-. injection Htw as <-.
  assert (rate = 1%float) as ->.
  { destruct (Wallet.currency w); try discriminate;
      vm_compute in Hrate; by injection Hrate. }
  split.
  - unfold convertedAmountOf. by rewrite Hbody.
  - unfold getWallet in *. rewrite Hc, Hsame. simpl.
    rewrite !lookup_alter_eq, Hw. reflexivity.
Qed.

(** Converting 5.00 from the USD wallet to itself turns 10.00 into 15.00. *)
Lemma self_conversion_adds_witness :
  let data :=
    {| ConvertCurrency.fromWalletId := 1; ConvertCurrency.toWalletId := 1;
       ConvertCurrency.amount := 5%float |} in
  outcome (convert 1 data 2000 (store_usd_eur 10 0)).1 = Some Succeeded
  ∧ Wallet.balance <$> getWallet 1 (convert 1 data 2000 (store_usd_eur 10 0)).2
    = Some 15%float.
Proof.
  destruct (self_conversion_adds (store_usd_eur 10 0) 1 2000
              {| ConvertCurrency.fromWalletId := 1;
                 ConvertCurrency.toWalletId := 1;
                 ConvertCurrency.amount := 5%float |}
              {| Wallet.id := 1; Wallet.userId := 1;
                 Wallet.name := Some "USD"; Wallet.currency := USD;
                 Wallet.balance := 10%float; Wallet.isPrimary := Some true;
                 Wallet.createdAt := 1000 |})
    as (Hok & _ & Hbal); try (vm_compute; reflexivity).
  exact (conj Hok Hbal).
Defined.

(** ** Users *)

Lemma JsMap_get_app {V : Type} (k : Z) (m1 m2 : list (Z * V)) :
  JsMap_get k (m1 ++ m2)%list
  = match JsMap_get k m1 with Some v => Some v | None => JsMap_get k m2 end.
Proof.
  induction m1 as [|[k' v'] m1 IH]; simpl; [done|].
  by destruct (k' =? k).
Qed.

Lemma JsMap_get_fresh {V : Type} (k : Z) (m : list (Z * V)) :
  Forall (λ kv, kv.1 < k) m → JsMap_get k m = None.
Proof.
  induction 1 as [|[k' v'] m Hk _ IH]; simpl; [done|].
  destruct (Z.eqb_spec k' k); [simpl in Hk; lia|done].
Qed.

Lemma JsMap_get_elem {V : Type} (k : Z) (v : V) (m : list (Z * V)) :
  JsMap_get k m = Some v → (k, v) ∈ m.
Proof.
  induction m as [|[k' v'] m IH]; simpl; [done|].
  destruct (Z.eqb_spec k' k) as [->|].
  - intros [= ->]. by left.
  - intros H. right. by apply IH.
Qed.

Lemma users_fresh us :
  users_wf us → Forall (λ kv, kv.1 < Users.userId us) (Users.users us).
Proof.
  intros [_ Hwf]. eapply Forall_impl; [exact Hwf|]. simpl. intros; lia.
Qed.

Lemma createUser_users userData now us :
  users_wf us →
  Users.users (Users.createUser userData now us).2
  = (Users.users us
     ++ [(Users.userId us, (Users.createUser userData now us).1)])%list.
Proof. intros Hwf. simpl. by rewrite JsMap_set_fresh by by apply users_fresh. Qed.

Lemma createUser_wf userData now us :
  users_wf us → users_wf (Users.createUser userData now us).2.
Proof.
  intros Hwf. pose proof (createUser_users userData now us Hwf) as Hu.
  destruct Hwf as [Hone Hwf]. split; [simpl; lia|]. rewrite Hu.
  apply Forall_app. split.
  - eapply Forall_impl; [exact Hwf|]. simpl. intros; lia.
  - constructor; [simpl; lia|constructor].
Qed.

Lemma getUser_registered session user us :
  users_wf us → Users.getUser session us = Some user →
  User.id user = session ∧ 1 <= User.id user < Users.userId us.
Proof.
  intros [_ Hwf] Hget. apply JsMap_get_elem in Hget.
  rewrite Forall_forall in Hwf. destruct (Hwf _ Hget) as [Hk Hid].
  simpl in *. lia.
Qed.

Lemma getUserByEmail_None email us :
  Users.getUserByEmail email us = None →
  email ∉ User.email <$> JsMap.values (Users.users us).
Proof.
  unfold Users.getUserByEmail. intros Hnone Hin.
  apply list_elem_of_fmap in Hin as (u & -> & Hu).
  apply list_elem_of_In in Hu.
  pose proof (find_none _ _ Hnone u Hu) as Hne. simpl in Hne.
  by rewrite String.eqb_refl in Hne.
Qed.

Lemma getUserByEmail_Some email user us :
  Users.getUserByEmail email us = Some user →
  User.email user = email ∧ user ∈ JsMap.values (Users.users us).
Proof.
  unfold Users.getUserByEmail. intros Hsome.
  apply find_some in Hsome as [Hin Heq]. apply String.eqb_eq in Heq.
  split; [done|by apply list_elem_of_In].
Qed.

(** ** Wallets of an account *)

Lemma elem_of_walletValues w st :
  w ∈ walletValues st ↔ ∃ id, getWallet id st = Some w.
Proof.
  unfold walletValues, getWallet. rewrite list_elem_of_fmap. split.
  - intros ([id w'] & -> & Hin). exists id.
    rewrite merge_sort_Permutation in Hin. by apply elem_of_map_to_list.
  - intros (id & Hw). exists (id, w). split; [done|].
    rewrite merge_sort_Permutation. by apply elem_of_map_to_list.
Qed.

Lemma elem_of_getWallets w user st :
  w ∈ getWallets user st
  ↔ Wallet.userId w = user ∧ ∃ id, getWallet id st = Some w.
Proof.
  unfold getWallets.
  rewrite list_elem_of_In, filter_In, <- list_elem_of_In, Z.eqb_eq.
  rewrite elem_of_walletValues. tauto.
Qed.

Lemma walletValues_NoDup st : wallets_wf st → NoDup (walletValues st).
Proof.
  intros [_ Hwf]. unfold walletValues.
  apply (NoDup_fmap_1 Wallet.id).
  assert (Wallet.id <$> (merge_sort byKey (map_to_list (wallets st))).*2
          = (merge_sort byKey (map_to_list (wallets st))).*1) as ->.
  { rewrite <- list_fmap_compose. apply list_fmap_ext.
    intros i [id w] Hin. simpl.
    apply list_elem_of_lookup_2 in Hin.
    rewrite merge_sort_Permutation in Hin.
    apply elem_of_map_to_list in Hin. by apply (Hwf id). }
  rewrite merge_sort_Permutation. apply NoDup_fst_map_to_list.
Qed.

Lemma filter_NoDup {A : Type} (f : A → bool) (l : list A) :
  NoDup l → NoDup (List.filter f l).
Proof.
  induction 1 as [|x l Hx _ IH]; simpl; [constructor|].
  destruct (f x); [|done]. constructor; [|done].
  rewrite list_elem_of_In, filter_In, <- list_elem_of_In. tauto.
Qed.

(** X14. Listing an account's wallets: in a reachable store [getWallets], and
    with it GET /api/wallets, returns exactly the wallets owned by the
    account, each of them once. *)
Theorem wallets_of_account (st : MemStorage) (user : Z) :
  reachable st →
  (∀ w, w ∈ getWallets user st
        ↔ Wallet.userId w = user ∧ getWallet (Wallet.id w) st = Some w)
  ∧ NoDup (getWallets user st)
  ∧ get_api_wallets user st = reply 200 (PWallets (getWallets user st)).
Proof.
  intros Hst. pose proof (reachable_wf st Hst) as Hwf. repeat split.
  - apply elem_of_getWallets in H. tauto.
  - apply elem_of_getWallets in H as [_ (id & Hid)].
    destruct Hwf as [_ Hwf]. destruct (Hwf id) as [Hw _].
    by rewrite (Hw w Hid).
  - intros [Hu Hw]. apply elem_of_getWallets. eauto.
  - by apply filter_NoDup, walletValues_NoDup.
Qed.

(** Account 2 of the two-account store owns wallet 2 and nothing else. *)
Lemma wallets_of_account_witness :
  (∀ w, w ∈ getWallets 2 store_two_accounts_funded
        ↔ Wallet.userId w = 2
          ∧ getWallet (Wallet.id w) store_two_accounts_funded = Some w)
  ∧ NoDup (getWallets 2 store_two_accounts_funded)
  ∧ length (getWallets 2 store_two_accounts_funded) = 1%nat.
Proof.
  destruct (wallets_of_account store_two_accounts_funded 2)
    as (Hin & Hnodup & _).
  - apply reachable_deposits, store_two_accounts_reachable.
  - split; [exact Hin|]. split; [exact Hnodup|]. vm_compute. reflexivity.
Defined.

(** ** Invariants of the stores reached through the routes *)

Lemma one_wallet_frame st st' :
  balances_only st st' →
  one_wallet_per_currency st → one_wallet_per_currency st'.
Proof.
  intros Hb Hone id1 id2 w1 w2 Hw1 Hw2 Hu Hc.
  pose proof (Hb id1) as H1. pose proof (Hb id2) as H2.
  unfold getWallet in *. rewrite Hw1 in H1. rewrite Hw2 in H2.
  inversion H1 as [v1 ? (_ & Hu1 & _ & Hc1 & _) Hv1|].
  inversion H2 as [v2 ? (_ & Hu2 & _ & Hc2 & _) Hv2|].
  apply (Hone id1 id2 v1 v2); unfold getWallet; congruence.
Qed.

Lemma owners_frame accounts0 st st' :
  balances_only st st' →
  owners_registered {| accounts := accounts0; storage := st |} →
  owners_registered {| accounts := accounts0; storage := st' |}.
Proof.
  intros Hb Hown id w Hw. simpl in *. pose proof (Hb id) as H.
  unfold getWallet in *. rewrite Hw in H.
  inversion H as [v ? (_ & Hu & _) Hv|].
  rewrite Hu. apply (Hown id v). by unfold getWallet.
Qed.

Lemma post_api_transfers_frame user reqBody now st :
  balances_only st (post_api_transfers user reqBody now st).2.
Proof.
  destruct (post_api_transfers_cases user reqBody now st)
    as [[_ ->]|(_ & updates & entry & Hc & _)];
    [apply balances_only_refl|by eapply committed_frame].
Qed.

Lemma post_api_conversions_frame user reqBody now st :
  balances_only st (post_api_conversions user reqBody now st).2.
Proof.
  destruct (post_api_conversions_cases user reqBody now st)
    as [[_ ->]|(_ & updates & entry & Hc & _)];
    [apply balances_only_refl|by eapply committed_frame].
Qed.

Lemma post_api_deposits_frame user reqBody now st :
  balances_only st (post_api_deposits user reqBody now st).2.
Proof.
  destruct (post_api_deposits_cases user reqBody now st)
    as [[_ ->]|(_ & updates & entry & Hc & _)];
    [apply balances_only_refl|by eapply committed_frame].
Qed.

(** A wallet for an owner who has none in that currency keeps the accounts
    at one wallet per currency. *)
Lemma one_wallet_createWallet walletData now st :
  wallets_wf st →
  (∀ id w, getWallet id st = Some w →
     Wallet.userId w = InsertWallet.userId walletData →
     Wallet.currency w ≠ InsertWallet.currency walletData) →
  one_wallet_per_currency st →
  one_wallet_per_currency (createWallet walletData now st).2.
Proof.
  intros [_ Hwf] Hnew Hone id1 id2 w1 w2. unfold getWallet in *. simpl.
  assert (wallets st !! walletId st = None) as Hfree.
  { destruct (wallets st !! walletId st) eqn:E; [|done].
    destruct (Hwf (walletId st)) as [_ Hdom]. rewrite E in Hdom.
    assert (1 <= walletId st < walletId st) by (apply Hdom; eauto). lia. }
  rewrite !lookup_insert. repeat case_decide; subst.
  - done.
  - intros [= <-] Hw2 Hu Hc. simpl in *. symmetry in Hu, Hc.
    by destruct (Hnew id2 w2 Hw2 Hu).
  - intros Hw1 [= <-] Hu Hc. simpl in *.
    by destruct (Hnew id1 w1 Hw1 Hu).
  - apply Hone.
Qed.

Lemma owners_createWallet sv walletData now :
  1 <= InsertWallet.userId walletData < Users.userId (accounts sv) →
  owners_registered sv →
  owners_registered
    {| accounts := accounts sv;
       storage := (createWallet walletData now (storage sv)).2 |}.
Proof.
  intros Hu Hown id w. unfold getWallet. simpl.
  rewrite lookup_insert. case_decide; subst.
  - by intros [= <-].
  - apply Hown.
Qed.

Lemma register_success reqBody hashed nowUser nowWallet sv :
  registerUserSchema reqBody = true →
  Users.getUserByEmail (RegisterUser.email reqBody) (accounts sv) = None →
  let created :=
    Users.createUser
      {| InsertUser.email := RegisterUser.email reqBody;
         InsertUser.password := hashed;
         InsertUser.name := RegisterUser.name reqBody |}
      nowUser (accounts sv) in
  register reqBody hashed nowUser nowWallet sv
  = (reply 201
       (PRegistered "Registration successful" (Users.userId (accounts sv))
          (RegisterUser.name reqBody) (RegisterUser.email reqBody)),
     {| accounts := created.2;
        storage :=
          (createWallet
             {| InsertWallet.userId := Users.userId (accounts sv);
                InsertWallet.currency := USD;
                InsertWallet.name := Some "Primary";
                InsertWallet.balance := Some 0%float;
                InsertWallet.isPrimary := Some true |}
             nowWallet (storage sv)).2 |}).
Proof. intros Hschema Hfind. unfold register. by rewrite Hschema, Hfind. Qed.

Lemma register_failure reqBody hashed nowUser nowWallet sv :
  registerUserSchema reqBody = false
  ∨ is_Some (Users.getUserByEmail (RegisterUser.email reqBody) (accounts sv)) →
  replyStatus (register reqBody hashed nowUser nowWallet sv).1 = 400
  ∧ (register reqBody hashed nowUser nowWallet sv).2 = sv.
Proof.
  unfold register. intros [->|[existing ->]]; [done|].
  by destruct (negb (registerUserSchema reqBody)).
Qed.

Lemma api_invariants sv :
  api_reachable sv →
  reachable (storage sv)
  ∧ users_wf (accounts sv)
  ∧ owners_registered sv
  ∧ one_wallet_per_currency (storage sv)
  ∧ emails_unique (accounts sv).
Proof.
  induction 1 as [|sv reqBody hashed nowUser nowWallet _ IH
                  |sv session user reqBody now _ IH Hget
                  |sv session user reqBody now _ IH Hget
                  |sv session user reqBody now _ IH Hget
                  |sv session user reqBody now _ IH Hget].
  - split; [constructor|]. split; [split; [done|by apply Forall_nil]|].
    split; [|split].
    + intros id w. unfold getWallet. simpl. by rewrite lookup_empty.
    + intros id1 id2 w1 w2. unfold getWallet. simpl. by rewrite lookup_empty.
    + apply NoDup_nil_2.
  - destruct IH as (Hst & Hus & Hown & Hone & Hmail).
    destruct (registerUserSchema reqBody) eqn:Hschema; cycle 1.
    { by rewrite (proj2 (register_failure reqBody hashed nowUser nowWallet sv
                           (or_introl Hschema))). }
    destruct (Users.getUserByEmail (RegisterUser.email reqBody) (accounts sv))
      as [existing|] eqn:Hfind.
    { by rewrite (proj2 (register_failure reqBody hashed nowUser nowWallet sv
                           (or_intror (mk_is_Some _ _ Hfind)))). }
    rewrite (register_success _ hashed nowUser nowWallet _ Hschema Hfind).
    pose proof (reachable_wf _ Hst) as Hwf.
    set (userData := {| InsertUser.email := RegisterUser.email reqBody;
                        InsertUser.password := hashed;
                        InsertUser.name := RegisterUser.name reqBody |}).
    pose proof (createUser_wf userData nowUser (accounts sv) Hus) as Hus'.
    pose proof (createUser_users userData nowUser (accounts sv) Hus) as Husers.
    cbn [snd fst accounts storage].
    split; [by constructor|]. split; [exact Hus'|]. split; [|split].
    + intros id w. unfold getWallet. cbn [accounts storage]. simpl.
      rewrite lookup_insert. case_decide; subst.
      * intros [= <-]. simpl. destruct Hus. lia.
      * intros Hw. specialize (Hown id w Hw). lia.
    + apply one_wallet_createWallet; [done| |done].
      intros id w Hw Hu. simpl in Hu. specialize (Hown id w Hw). lia.
    + unfold emails_unique. rewrite Husers.
      unfold JsMap.values. rewrite map_app, fmap_app.
      apply NoDup_app. split; [exact Hmail|].
      split; [|apply NoDup_singleton].
      intros email Hin. simpl. intros ->%list_elem_of_singleton.
      by apply getUserByEmail_None in Hfind.
  - destruct IH as (Hst & Hus & Hown & Hone & Hmail).
    destruct (getUser_registered _ _ _ Hus Hget) as [_ Hreg].
    pose proof (reachable_wf _ Hst) as Hwf.
    cbn [accounts storage]. unfold post_api_wallets.
    destruct (currencyOfCode (AddWallet.currency reqBody)) as [c|];
      [|done].
    destruct (List.find _ (getWallets (User.id user) (storage sv)))
      eqn:Hfind; [done|].
    cbn [snd].
    split; [by constructor|]. split; [done|]. split; [|split; [|done]].
    + by apply owners_createWallet.
    + apply one_wallet_createWallet; [done| |done].
      intros id w Hw Hu Hc. simpl in Hu, Hc.
      assert (w ∈ getWallets (User.id user) (storage sv)) as Hin.
      { apply elem_of_getWallets. eauto. }
      apply list_elem_of_In in Hin.
      pose proof (find_none _ _ Hfind w Hin) as Hno. simpl in Hno.
      by apply bool_decide_eq_false in Hno.
  - destruct IH as (Hst & Hus & Hown & Hone & Hmail). cbn [accounts storage].
    pose proof (post_api_transfers_frame (User.id user) reqBody now
                  (storage sv)) as Hb.
    split; [by constructor|]. split; [done|]. split; [|split; [|done]].
    + by apply (owners_frame _ _ _ Hb).
    + by eapply one_wallet_frame.
  - destruct IH as (Hst & Hus & Hown & Hone & Hmail). cbn [accounts storage].
    pose proof (post_api_conversions_frame (User.id user) reqBody now
                  (storage sv)) as Hb.
    split; [by constructor|]. split; [done|]. split; [|split; [|done]].
    + by apply (owners_frame _ _ _ Hb).
    + by eapply one_wallet_frame.
  - destruct IH as (Hst & Hus & Hown & Hone & Hmail). cbn [accounts storage].
    pose proof (post_api_deposits_frame (User.id user) reqBody now
                  (storage sv)) as Hb.
    split; [by constructor|]. split; [done|]. split; [|split; [|done]].
    + by apply (owners_frame _ _ _ Hb).
    + by eapply one_wallet_frame.
Qed.

(** ** The users map: what is written can be read back *)

Lemma find_app_first {A : Type} (f : A → bool) (l1 l2 : list A) :
  List.find f (l1 ++ l2)%list
  = match List.find f l1 with Some x => Some x | None => List.find f l2 end.
Proof. induction l1 as [|x l1 IH]; simpl; [done|]. by destruct (f x). Qed.

Lemma getUserByEmail_createUser email userData now us :
  users_wf us →
  Users.getUserByEmail email (Users.createUser userData now us).2
  = match Users.getUserByEmail email us with
    | Some u => Some u
    | None =>
        if String.eqb (InsertUser.email userData) email
        then Some (Users.createUser userData now us).1 else None
    end.
Proof.
  intros Hwf. unfold Users.getUserByEmail.
  rewrite (createUser_users userData now us Hwf).
  unfold JsMap.values. by rewrite map_app, find_app_first.
Qed.

Lemma getUser_createUser id userData now us :
  users_wf us →
  Users.getUser id (Users.createUser userData now us).2
  = if Z.eqb (Users.userId us) id
    then Some (Users.createUser userData now us).1
    else Users.getUser id us.
Proof.
  intros Hwf. unfold Users.getUser.
  rewrite (createUser_users userData now us Hwf), JsMap_get_app. simpl.
  destruct (Z.eqb_spec (Users.userId us) id) as [<-|Hne].
  - by rewrite JsMap_get_fresh by by apply users_fresh.
  - by destruct (JsMap_get id (Users.users us)).
Qed.

(** X15. Creating a user: in a users map whose keys lie below the next
    identifier, [createUser] gives the user that identifier (which no user had
    before), the user is then found under it, every other identifier reads as
    before, a lookup by email that found a user still finds that same user
    (the earliest one wins), and the new email, if it was not taken, now finds
    the new user. *)
Theorem createUser_round_trip (us : Users.t) (userData : InsertUser.t)
    (now : Z) :
  users_wf us →
  let user := (Users.createUser userData now us).1 in
  let us' := (Users.createUser userData now us).2 in
  Users.getUser (Users.userId us) us = None
  ∧ User.id user = Users.userId us
  ∧ Users.userId us' = Users.userId us + 1
  ∧ Users.getUser (User.id user) us' = Some user
  ∧ (∀ id, id ≠ User.id user → Users.getUser id us' = Users.getUser id us)
  ∧ (∀ email u,
       Users.getUserByEmail email us = Some u →
       Users.getUserByEmail email us' = Some u)
  ∧ (Users.getUserByEmail (InsertUser.email userData) us = None →
     Users.getUserByEmail (InsertUser.email userData) us' = Some user)
  ∧ (∀ email,
       email ≠ InsertUser.email userData →
       Users.getUserByEmail email us' = Users.getUserByEmail email us).
Proof.
  intros Hwf user us'. subst user us'.
  split; [by apply JsMap_get_fresh, users_fresh|].
  split; [done|]. split; [done|].
  split; [by rewrite getUser_createUser, Z.eqb_refl|].
  split; [|split; [|split]].
  - intros id Hne. rewrite getUser_createUser by done.
    destruct (Z.eqb_spec (Users.userId us) id) as [<-|]; [|done].
    by destruct Hne.
  - intros email u Hu. by rewrite getUserByEmail_createUser, Hu.
  - intros Hnone.
    by rewrite getUserByEmail_createUser, Hnone, String.eqb_refl.
  - intros email Hne. rewrite getUserByEmail_createUser by done.
    destruct (Users.getUserByEmail email us); [done|].
    destruct (String.eqb_spec (InsertUser.email userData) email); [|done].
    by destruct Hne.
Qed.

(** The first user of a new map gets identifier 1 and is found by it and by
    email. *)
Lemma createUser_round_trip_witness :
  let userData :=
    {| InsertUser.name := "Ada"; InsertUser.email := "ada@example.org";
       InsertUser.password := "hash" |} in
  let user := (Users.createUser userData 1000 Users.new).1 in
  let us' := (Users.createUser userData 1000 Users.new).2 in
  User.id user = 1
  ∧ Users.getUser 1 us' = Some user
  ∧ Users.getUserByEmail "ada@example.org" us' = Some user.
Proof.
  destruct (createUser_round_trip Users.new
              {| InsertUser.name := "Ada"; InsertUser.email := "ada@example.org";
                 InsertUser.password := "hash" |} 1000)
    as (_ & Hid & _ & Hget & _ & _ & Hmail & _).
  - split; [vm_compute; discriminate|by apply Forall_nil].
  - exact (conj Hid (conj Hget (Hmail eq_refl))).
Defined.

(** ** Registration *)

Lemma getWallet_createWallet id walletData now st :
  getWallet id (createWallet walletData now st).2
  = if decide (walletId st = id)
    then Some (createWallet walletData now st).1 else getWallet id st.
Proof.
  unfold getWallet. simpl. rewrite lookup_insert.
  by repeat case_decide.
Qed.

Lemma getWallet_free st : wallets_wf st → getWallet (walletId st) st = None.
Proof.
  intros [_ Hwf]. destruct (getWallet (walletId st) st) eqn:E; [|done].
  destruct (Hwf (walletId st)) as [_ Hdom].
  assert (1 <= walletId st < walletId st) by (apply Hdom; eauto). lia.
Qed.

Lemma getWallets_createWallet user walletData now st :
  wallets_wf st →
  getWallets user (createWallet walletData now st).2
  ≡ₚ (getWallets user st
      ++ (if InsertWallet.userId walletData =? user
          then [(createWallet walletData now st).1] else []))%list.
Proof.
  intros Hwf. pose proof (getWallet_free st Hwf) as Hfree.
  apply NoDup_Permutation.
  - by apply filter_NoDup, walletValues_NoDup, wf_createWallet.
  - apply NoDup_app. split; [by apply filter_NoDup, walletValues_NoDup|].
    split; [|destruct (_ =? _); [apply NoDup_singleton|apply NoDup_nil_2]].
    intros w Hin Hnew. apply elem_of_getWallets in Hin as [_ (id & Hid)].
    destruct (InsertWallet.userId walletData =? user);
      [|by apply elem_of_nil in Hnew].
    apply list_elem_of_singleton in Hnew. subst w.
    destruct Hwf as [_ Hwf]. destruct (Hwf id) as [Hkey _].
    specialize (Hkey _ Hid). simpl in Hkey. subst id. congruence.
  - intros w. rewrite elem_of_app, !elem_of_getWallets. split.
    + intros [Hu (id & Hid)]. rewrite getWallet_createWallet in Hid.
      case_decide; [|left; eauto].
      injection Hid as <-. right. simpl in Hu. rewrite <- Hu, Z.eqb_refl.
      by apply list_elem_of_singleton.
    + intros [[Hu (id & Hid)]|Hnew].
      * split; [done|]. exists id. rewrite getWallet_createWallet.
        case_decide; [congruence|done].
      * destruct (Z.eqb_spec (InsertWallet.userId walletData) user);
          [|by apply elem_of_nil in Hnew].
        apply list_elem_of_singleton in Hnew. subst w. split; [done|].
        exists (walletId st). rewrite getWallet_createWallet.
        by case_decide.
Qed.

Lemma getWallets_nil user st :
  (∀ id w, getWallet id st = Some w → Wallet.userId w ≠ user) →
  getWallets user st = [].
Proof.
  intros Hno. destruct (getWallets user st) as [|w l] eqn:E; [done|].
  assert (w ∈ getWallets user st) as Hin by (rewrite E; left).
  apply elem_of_getWallets in Hin as [Hu (id & Hid)].
  by destruct (Hno id w Hid).
Qed.

(** X16. Registration: in a server reached through the routes, a request
    whose two passwords differ, or whose email already finds a user, is
    answered with 400 and changes nothing.  Any other request is answered with
    201; the new user gets the next user identifier, is found under it and by
    email with the hashed password, and owns exactly one wallet: a primary USD
    wallet named Primary with balance 0.  The ledger is not touched. *)
Theorem register_outcomes (sv : Server) (reqBody : RegisterUser.t)
    (hashedPassword : string) (nowUser nowWallet : Z) :
  api_reachable sv →
  let r := (register reqBody hashedPassword nowUser nowWallet sv).1 in
  let sv' := (register reqBody hashedPassword nowUser nowWallet sv).2 in
  (RegisterUser.password reqBody ≠ RegisterUser.confirmPassword reqBody →
   r = reply 400 PValidationError ∧ sv' = sv)
  ∧ (RegisterUser.password reqBody = RegisterUser.confirmPassword reqBody →
     is_Some (Users.getUserByEmail (RegisterUser.email reqBody) (accounts sv)) →
     r = reply 400 (PMessage "User already exists") ∧ sv' = sv)
  ∧ (RegisterUser.password reqBody = RegisterUser.confirmPassword reqBody →
     Users.getUserByEmail (RegisterUser.email reqBody) (accounts sv) = None →
     let user :=
       {| User.id := Users.userId (accounts sv);
          User.name := RegisterUser.name reqBody;
          User.email := RegisterUser.email reqBody;
          User.password := hashedPassword;
          User.createdAt := nowUser |} in
     let wallet :=
       {| Wallet.id := walletId (storage sv);
          Wallet.userId := User.id user;
          Wallet.name := Some "Primary";
          Wallet.currency := USD;
          Wallet.balance := 0%float;
          Wallet.isPrimary := Some true;
          Wallet.createdAt := nowWallet |} in
     r = reply 201
           (PRegistered "Registration successful" (User.id user)
              (User.name user) (User.email user))
     ∧ Users.getUser (User.id user) (accounts sv') = Some user
     ∧ Users.getUserByEmail (User.email user) (accounts sv') = Some user
     ∧ getWallet (Wallet.id wallet) (storage sv') = Some wallet
     ∧ getWallets (User.id user) (storage sv') = [wallet]
     ∧ ledger (storage sv') = ledger (storage sv)).
Proof.
  intros Hsv r sv'. subst r sv'.
  destruct (api_invariants sv Hsv) as (Hst & Hus & Hown & _ & _).
  pose proof (reachable_wf _ Hst) as Hwf.
  split; [|split].
  - intros Hne. unfold register, registerUserSchema.
    by destruct (String.eqb_spec (RegisterUser.password reqBody)
                   (RegisterUser.confirmPassword reqBody)).
  - intros Heq [existing Hfind]. unfold register, registerUserSchema.
    rewrite Heq, String.eqb_refl, Hfind. done.
  - intros Heq Hfind user wallet.
    assert (registerUserSchema reqBody = true) as Hschema.
    { unfold registerUserSchema. by rewrite Heq, String.eqb_refl. }
    rewrite (register_success _ hashedPassword nowUser nowWallet _
               Hschema Hfind).
    cbn [fst snd accounts storage].
    split; [done|].
    split; [by rewrite getUser_createUser, Z.eqb_refl|].
    split.
    { rewrite getUserByEmail_createUser by done. simpl.
      by rewrite Hfind, String.eqb_refl. }
    split; [rewrite getWallet_createWallet; by case_decide|].
    split; [|done].
    apply Permutation_singleton_r.
    rewrite getWallets_createWallet by done. simpl.
    rewrite Z.eqb_refl, getWallets_nil; [done|].
    intros id w Hw Hu. specialize (Hown id w Hw). lia.
Qed.

(** The first registration on a new server. *)
Lemma register_outcomes_witness :
  let reqBody :=
    {| RegisterUser.name := "Ada"; RegisterUser.email := "ada@example.org";
       RegisterUser.password := "secret";
       RegisterUser.confirmPassword := "secret" |} in
  let sv' := (register reqBody "hash" 1000 1001 Server_new).2 in
  Users.getUser 1 (accounts sv')
  = Some {| User.id := 1; User.name := "Ada";
            User.email := "ada@example.org"; User.password := "hash";
            User.createdAt := 1000 |}
  ∧ getWallets 1 (storage sv')
    = [ {| Wallet.id := 1; Wallet.userId := 1; Wallet.name := Some "Primary";
           Wallet.currency := USD; Wallet.balance := 0%float;
           Wallet.isPrimary := Some true; Wallet.createdAt := 1001 |} ].
Proof.
  destruct (register_outcomes Server_new
              {| RegisterUser.name := "Ada";
                 RegisterUser.email := "ada@example.org";
                 RegisterUser.password := "secret";
                 RegisterUser.confirmPassword := "secret" |}
              "hash" 1000 1001 api_new) as (_ & _ & Hok).
  destruct (Hok eq_refl eq_refl) as (_ & Hget & _ & _ & Hwallets & _).
  exact (conj Hget Hwallets).
Defined.

(** ** Logging in and restoring a session *)

Lemma api_keys sv : api_reachable sv → NoDup (Users.users (accounts sv)).*1.
Proof.
  induction 1 as [|sv reqBody hashed nowUser nowWallet Hsv IH
                  |sv session user reqBody now _ IH Hget
                  |sv session user reqBody now _ IH Hget
                  |sv session user reqBody now _ IH Hget
                  |sv session user reqBody now _ IH Hget];
    [apply NoDup_nil_2| |done..].
  destruct (api_invariants sv Hsv) as (_ & Hus & _).
  destruct (registerUserSchema reqBody) eqn:Hschema; cycle 1.
  { by rewrite (proj2 (register_failure reqBody hashed nowUser nowWallet sv
                         (or_introl Hschema))). }
  destruct (Users.getUserByEmail (RegisterUser.email reqBody) (accounts sv))
    as [existing|] eqn:Hfind.
  { by rewrite (proj2 (register_failure reqBody hashed nowUser nowWallet sv
                         (or_intror (mk_is_Some _ _ Hfind)))). }
  rewrite (register_success _ hashed nowUser nowWallet _ Hschema Hfind).
  cbn [snd accounts]. rewrite createUser_users by done. rewrite fmap_app.
  apply NoDup_app. split; [done|]. split; [|apply NoDup_singleton].
  intros k Hk ->%list_elem_of_singleton.
  apply list_elem_of_fmap in Hk as (kv & Hkv & Hin).
  pose proof (users_fresh _ Hus) as Hfresh. rewrite Forall_forall in Hfresh.
  specialize (Hfresh kv Hin). simpl in Hkv. lia.
Qed.

Lemma api_users_cover sv id :
  api_reachable sv →
  1 <= id < Users.userId (accounts sv) →
  is_Some (Users.getUser id (accounts sv)).
Proof.
  induction 1 as [|sv reqBody hashed nowUser nowWallet Hsv IH
                  |sv session user reqBody now _ IH Hget
                  |sv session user reqBody now _ IH Hget
                  |sv session user reqBody now _ IH Hget
                  |sv session user reqBody now _ IH Hget];
    [simpl; lia| |done..].
  destruct (api_invariants sv Hsv) as (_ & Hus & _).
  destruct (registerUserSchema reqBody) eqn:Hschema; cycle 1.
  { by rewrite (proj2 (register_failure reqBody hashed nowUser nowWallet sv
                         (or_introl Hschema))). }
  destruct (Users.getUserByEmail (RegisterUser.email reqBody) (accounts sv))
    as [existing|] eqn:Hfind.
  { by rewrite (proj2 (register_failure reqBody hashed nowUser nowWallet sv
                         (or_intror (mk_is_Some _ _ Hfind)))). }
  rewrite (register_success _ hashed nowUser nowWallet _ Hschema Hfind).
  cbn [snd accounts]. rewrite getUser_createUser by done. simpl. intros Hid.
  destruct (Z.eqb_spec (Users.userId (accounts sv)) id); [by eauto|].
  apply IH. lia.
Qed.

Lemma JsMap_get_NoDup {V : Type} (k : Z) (v : V) (m : list (Z * V)) :
  NoDup m.*1 → (k, v) ∈ m → JsMap_get k m = Some v.
Proof.
  induction m as [|[k' v'] m IH]; simpl; [by intros _ ?%elem_of_nil|].
  intros [Hk' Hm]%NoDup_cons [[= -> ->]|Hin]%elem_of_cons.
  - by rewrite Z.eqb_refl.
  - destruct (Z.eqb_spec k' k) as [->|]; [|by apply IH].
    destruct Hk'. apply list_elem_of_fmap. by exists (k, v).
Qed.

Lemma find_NoDup {A : Type} (f : A → string) (l : list A) (u : A) :
  NoDup (f <$> l) → u ∈ l →
  List.find (λ x, String.eqb (f x) (f u)) l = Some u.
Proof.
  induction l as [|x l IH]; simpl; [by intros _ ?%elem_of_nil|].
  intros [Hx Hl]%NoDup_cons [->|Hin]%elem_of_cons.
  - by rewrite String.eqb_refl.
  - destruct (String.eqb_spec (f x) (f u)) as [Heq|]; [|by apply IH].
    destruct Hx. rewrite Heq. apply list_elem_of_fmap. by exists u.
Qed.

(** X17. Logging in and restoring a session agree: in a server reached
    through the routes, a user stored under an identifier carries that
    identifier, which lies below the next one, and is the user that a lookup
    by their email finds; a user found by email (as the login strategy does)
    has that email and is the user found again under their identifier (as the
    session does with the identifier it was given); and the identifiers in
    use are exactly the numbers from 1 up to, not including, the next one. *)
Theorem login_and_session_agree (sv : Server) :
  api_reachable sv →
  (∀ id u,
     Users.getUser id (accounts sv) = Some u →
     User.id u = id
     ∧ 1 <= id < Users.userId (accounts sv)
     ∧ Users.getUserByEmail (User.email u) (accounts sv) = Some u)
  ∧ (∀ email u,
       Users.getUserByEmail email (accounts sv) = Some u →
       User.email u = email
       ∧ Users.getUser (User.id u) (accounts sv) = Some u)
  ∧ (∀ id,
       is_Some (Users.getUser id (accounts sv))
       ↔ 1 <= id < Users.userId (accounts sv)).
Proof.
  intros Hsv. destruct (api_invariants sv Hsv) as (_ & Hus & _ & _ & Hmail).
  pose proof (api_keys sv Hsv) as Hkeys. split; [|split]; cycle 2.
  { intros id. split; [|by apply api_users_cover].
    intros [u Hget]. destruct (getUser_registered _ _ _ Hus Hget). lia. }
  - intros id u Hget.
    destruct (getUser_registered _ _ _ Hus Hget) as [Hid Hrange].
    split; [done|]. split; [lia|].
    apply JsMap_get_elem in Hget. unfold Users.getUserByEmail.
    apply (find_NoDup User.email); [done|].
    apply list_elem_of_fmap. by exists (id, u).
  - intros email u Hfind.
    apply getUserByEmail_Some in Hfind as [Hemail Hin]. split; [done|].
    apply list_elem_of_fmap in Hin as ([k u'] & -> & Hin). simpl.
    destruct Hus as [_ Hus]. rewrite Forall_forall in Hus.
    destruct (Hus _ Hin) as [_ Hid]. simpl in Hid. rewrite Hid.
    by apply JsMap_get_NoDup.
Qed.

(** After two registrations, the second user is found by email and again
    under identifier 2. *)
Lemma login_and_session_agree_witness :
  let ada :=
    {| RegisterUser.name := "Ada"; RegisterUser.email := "ada@example.org";
       RegisterUser.password := "secret";
       RegisterUser.confirmPassword := "secret" |} in
  let bob :=
    {| RegisterUser.name := "Bob"; RegisterUser.email := "bob@example.org";
       RegisterUser.password := "hunter2";
       RegisterUser.confirmPassword := "hunter2" |} in
  let sv :=
    (register bob "hash2" 2000 2001
       (register ada "hash1" 1000 1001 Server_new).2).2 in
  ∃ u, Users.getUserByEmail "bob@example.org" (accounts sv) = Some u
       ∧ User.id u = 2
       ∧ Users.getUser (User.id u) (accounts sv) = Some u.
Proof.
  eexists. split; [vm_compute; reflexivity|]. split; [reflexivity|].
  refine (proj2 (proj1 (proj2 (login_and_session_agree _ _))
                   "bob@example.org" _ _)).
  - apply api_register, api_register, api_new.
  - vm_compute. reflexivity.
Defined.

(** ** Adding a wallet *)

Lemma currencyOfCode_code c : currencyOfCode (code c) = Some c.
Proof. by destruct c. Qed.

Lemma currencyOfCode_Some s c : currencyOfCode s = Some c → s = code c.
Proof.
  unfold currencyOfCode. intros [_ Heq]%find_some.
  by apply String.eqb_eq in Heq.
Qed.

Lemma find_currency_None c (l : list Wallet.t) :
  (∀ w, w ∈ l → Wallet.currency w ≠ c) →
  List.find (λ w, bool_decide (Wallet.currency w = c)) l = None.
Proof.
  intros Hno. induction l as [|w l IH]; simpl; [done|].
  rewrite bool_decide_eq_false_2 by (apply Hno; left).
  apply IH. intros w' Hw'. apply Hno. by right.
Qed.

Lemma find_currency_Some c (l : list Wallet.t) w :
  w ∈ l → Wallet.currency w = c →
  is_Some (List.find (λ w, bool_decide (Wallet.currency w = c)) l).
Proof.
  intros Hin Hc.
  destruct (List.find (λ w, bool_decide (Wallet.currency w = c)) l) eqn:E;
    [by eauto|].
  apply list_elem_of_In in Hin.
  pose proof (find_none _ _ E w Hin) as Hno. simpl in Hno.
  by rewrite bool_decide_eq_true_2 in Hno.
Qed.

Lemma post_api_wallets_success user reqBody now st c :
  currencyOfCode (AddWallet.currency reqBody) = Some c →
  List.find (λ w, bool_decide (Wallet.currency w = c)) (getWallets user st)
  = None →
  let created :=
    createWallet
      {| InsertWallet.userId := user;
         InsertWallet.currency := c;
         InsertWallet.name :=
           Some (descriptionOr (AddWallet.name reqBody) (code c));
         InsertWallet.balance := Some 0%float;
         InsertWallet.isPrimary :=
           Some (Nat.eqb (length (getWallets user st)) 0) |} now st in
  post_api_wallets user reqBody now st
  = (reply 201 (PWallet created.1), created.2).
Proof. intros Hc Hfind. unfold post_api_wallets. by rewrite Hc, Hfind. Qed.

(** X18. Adding a wallet (POST /api/wallets) in a reachable store: a currency
    that is not one of the seven codes is answered with 400 "Invalid currency"
    and a currency in which the account already holds a wallet with 400 "You
    already have a ... wallet", and neither changes the store.  Otherwise the
    answer is 201 with the new wallet: it gets the next wallet identifier,
    belongs to the account, has balance 0, is named after the request or, if
    the name is missing or empty, after the currency, and is primary exactly
    when the account had no wallet.  It is then found under its identifier
    and is the one wallet added to the account's listing; the listings of
    the other accounts and the ledger stay as they were. *)
Theorem add_wallet_outcomes (st : MemStorage) (user now : Z)
    (reqBody : AddWallet.t) :
  reachable st →
  let r := (post_api_wallets user reqBody now st).1 in
  let st' := (post_api_wallets user reqBody now st).2 in
  ((∀ c, AddWallet.currency reqBody ≠ code c) →
   r = reply 400 (PMessage "Invalid currency") ∧ st' = st)
  ∧ (∀ c,
       AddWallet.currency reqBody = code c →
       ((∃ w, w ∈ getWallets user st ∧ Wallet.currency w = c) →
        r = reply 400
              (PMessage ("You already have a " +:+ code c +:+ " wallet"))
        ∧ st' = st)
       ∧ ((∀ w, w ∈ getWallets user st → Wallet.currency w ≠ c) →
          let wallet :=
            {| Wallet.id := walletId st;
               Wallet.userId := user;
               Wallet.name :=
                 Some (descriptionOr (AddWallet.name reqBody) (code c));
               Wallet.currency := c;
               Wallet.balance := 0%float;
               Wallet.isPrimary :=
                 Some (Nat.eqb (length (getWallets user st)) 0);
               Wallet.createdAt := now |} in
          r = reply 201 (PWallet wallet)
          ∧ getWallet (walletId st) st = None
          ∧ getWallet (walletId st) st' = Some wallet
          ∧ getWallets user st' ≡ₚ (getWallets user st ++ [wallet])%list
          ∧ (∀ other, other ≠ user →
               getWallets other st' ≡ₚ getWallets other st)
          ∧ ledger st' = ledger st)).
Proof.
  intros Hst r st'. subst r st'. pose proof (reachable_wf st Hst) as Hwf.
  split.
  - intros Hno. unfold post_api_wallets.
    destruct (currencyOfCode (AddWallet.currency reqBody)) as [c|] eqn:E;
      [|done].
    by destruct (Hno c (currencyOfCode_Some _ _ E)).
  - intros c Hcode. split.
    + intros (w & Hin & Hc). unfold post_api_wallets.
      rewrite Hcode, currencyOfCode_code.
      by destruct (find_currency_Some c _ w Hin Hc) as [existing ->].
    + intros Hno. cbv zeta.
      rewrite (post_api_wallets_success user reqBody now st c);
        [|by rewrite Hcode, currencyOfCode_code|by apply find_currency_None].
      cbn [fst snd].
      split; [done|]. split; [by apply getWallet_free|].
      split; [rewrite getWallet_createWallet; by case_decide|].
      split; [|split; [|done]].
      * rewrite getWallets_createWallet by done. simpl.
        by rewrite Z.eqb_refl.
      * intros other Hne. rewrite getWallets_createWallet by done. simpl.
        destruct (Z.eqb_spec user other); [congruence|].
        by rewrite app_nil_r.
Qed.

(** A user with a USD wallet adds a EUR wallet, which is not primary. *)
Lemma add_wallet_outcomes_witness :
  let reqBody := {| AddWallet.currency := "EUR"; AddWallet.name := None |} in
  let st := storage server_ada_funded in
  (post_api_wallets 1 reqBody 3000 st).1
  = reply 201
      (PWallet
         {| Wallet.id := 2; Wallet.userId := 1; Wallet.name := Some "EUR";
            Wallet.currency := EUR; Wallet.balance := 0%float;
            Wallet.isPrimary := Some false; Wallet.createdAt := 3000 |})
  ∧ length (getWallets 1 (post_api_wallets 1 reqBody 3000 st).2) = 2%nat.
Proof.
  destruct (add_wallet_outcomes (storage server_ada_funded) 1 3000
              {| AddWallet.currency := "EUR"; AddWallet.name := None |})
    as [_ Hok].
  - apply reachable_deposits, reachable_createWallet, reachable_new.
  - destruct (Hok EUR eq_refl) as [_ Hnew].
    destruct Hnew as (Hr & _ & _ & Hperm & _).
    + intros w Hin Hc. vm_compute in Hin.
      apply list_elem_of_singleton in Hin. by subst w.
    + split; [exact Hr|]. by rewrite Hperm.
Defined.

(** ** What holds of every store reached through the routes *)

Lemma balances_only_kept st st' id w :
  balances_only st st' → getWallet id st = Some w →
  ∃ w', getWallet id st' = Some w' ∧ same_but_balance w w'.
Proof.
  intros Hb Hw. specialize (Hb id). unfold getWallet in *.
  rewrite Hw in Hb. inversion Hb as [? w' Hsame|]. by exists w'.
Qed.

Lemma createWallet_kept walletData now st id w :
  wallets_wf st → getWallet id st = Some w →
  getWallet id (createWallet walletData now st).2 = Some w.
Proof.
  intros Hwf Hw. rewrite getWallet_createWallet.
  case_decide; [|done]. subst id.
  by rewrite getWallet_free in Hw.
Qed.

Lemma post_api_wallets_kept user reqBody now st id w :
  wallets_wf st → getWallet id st = Some w →
  getWallet id (post_api_wallets user reqBody now st).2 = Some w.
Proof.
  intros Hwf Hw.
  destruct (currencyOfCode (AddWallet.currency reqBody)) as [c|] eqn:Hc;
    [|unfold post_api_wallets; by rewrite Hc].
  destruct (List.find (λ w, bool_decide (Wallet.currency w = c))
              (getWallets user st)) eqn:Hfind;
    [unfold post_api_wallets; by rewrite Hc, Hfind|].
  rewrite (post_api_wallets_success _ _ _ _ _ Hc Hfind).
  by apply createWallet_kept.
Qed.

Lemma api_usd_wallet sv id :
  api_reachable sv →
  1 <= id < Users.userId (accounts sv) →
  ∃ wid w, getWallet wid (storage sv) = Some w
           ∧ Wallet.userId w = id ∧ Wallet.currency w = USD.
Proof.
  induction 1 as [|sv reqBody hashed nowUser nowWallet Hsv IH
                  |sv session user reqBody now Hsv IH Hget
                  |sv session user reqBody now Hsv IH Hget
                  |sv session user reqBody now Hsv IH Hget
                  |sv session user reqBody now Hsv IH Hget];
    [simpl; lia|..]; cbn [accounts storage].
  - destruct (api_invariants sv Hsv) as (Hst & Hus & _).
    pose proof (reachable_wf _ Hst) as Hwf.
    destruct (registerUserSchema reqBody) eqn:Hschema; cycle 1.
    { by rewrite (proj2 (register_failure reqBody hashed nowUser nowWallet sv
                           (or_introl Hschema))). }
    destruct (Users.getUserByEmail (RegisterUser.email reqBody) (accounts sv))
      as [existing|] eqn:Hfind.
    { by rewrite (proj2 (register_failure reqBody hashed nowUser nowWallet sv
                           (or_intror (mk_is_Some _ _ Hfind)))). }
    rewrite (register_success _ hashed nowUser nowWallet _ Hschema Hfind).
    cbn [snd accounts storage]. simpl Users.userId. intros Hid.
    destruct (decide (id = Users.userId (accounts sv))) as [->|Hne].
    + eexists _, _. rewrite getWallet_createWallet.
      split; [by case_decide|]. done.
    + destruct IH as (wid & w & Hw & Hu & Hc); [lia|].
      exists wid, w. split; [by apply createWallet_kept|done].
  - destruct (api_invariants sv Hsv) as (Hst & _).
    intros Hid. destruct (IH Hid) as (wid & w & Hw & Hu & Hc).
    exists wid, w. split; [|done].
    by apply post_api_wallets_kept; [apply reachable_wf|].
  - intros Hid. destruct (IH Hid) as (wid & w & Hw & Hu & Hc).
    destruct (balances_only_kept _ _ wid w
                (post_api_transfers_frame (User.id user) reqBody now
                   (storage sv)) Hw) as (w' & Hw' & _ & Hu' & _ & Hc' & _).
    exists wid, w'. split; [done|]. split; congruence.
  - intros Hid. destruct (IH Hid) as (wid & w & Hw & Hu & Hc).
    destruct (balances_only_kept _ _ wid w
                (post_api_conversions_frame (User.id user) reqBody now
                   (storage sv)) Hw) as (w' & Hw' & _ & Hu' & _ & Hc' & _).
    exists wid, w'. split; [done|]. split; congruence.
  - intros Hid. destruct (IH Hid) as (wid & w & Hw & Hu & Hc).
    destruct (balances_only_kept _ _ wid w
                (post_api_deposits_frame (User.id user) reqBody now
                   (storage sv)) Hw) as (w' & Hw' & _ & Hu' & _ & Hc' & _).
    exists wid, w'. split; [done|]. split; congruence.
Qed.

Lemma server_ada_reachable : api_reachable server_ada.
Proof. apply api_register, api_new. Qed.

Lemma server_ada_funded_reachable : api_reachable server_ada_funded.
Proof.
  refine (api_deposits server_ada 1
            {| User.id := 1; User.name := "Ada";
               User.email := "ada@example.org"; User.password := "hash1";
               User.createdAt := 1000 |} _ _ server_ada_reachable _).
  reflexivity.
Qed.

Lemma server_ada_eur_reachable : api_reachable server_ada_eur.
Proof.
  refine (api_wallets server_ada_funded 1
            {| User.id := 1; User.name := "Ada";
               User.email := "ada@example.org"; User.password := "hash1";
               User.createdAt := 1000 |} _ _ server_ada_funded_reachable _).
  reflexivity.
Qed.

(** X19. Accounts and their wallets: in a server reached through the routes,
    no account holds two wallets of one currency, every wallet belongs to a
    registered user, and every registered user holds a USD wallet. *)
Theorem accounts_and_wallets (sv : Server) :
  api_reachable sv →
  (∀ user w1 w2,
     w1 ∈ getWallets user (storage sv) → w2 ∈ getWallets user (storage sv) →
     Wallet.currency w1 = Wallet.currency w2 → w1 = w2)
  ∧ (∀ id w,
       getWallet id (storage sv) = Some w →
       is_Some (Users.getUser (Wallet.userId w) (accounts sv)))
  ∧ (∀ id u,
       Users.getUser id (accounts sv) = Some u →
       ∃ w, w ∈ getWallets id (storage sv) ∧ Wallet.currency w = USD).
Proof.
  intros Hsv. destruct (api_invariants sv Hsv) as (_ & Hus & Hown & Hone & _).
  split; [|split].
  - intros user w1 w2 [Hu1 (id1 & Hw1)]%elem_of_getWallets
      [Hu2 (id2 & Hw2)]%elem_of_getWallets Hc.
    assert (id1 = id2) as <- by (apply (Hone id1 id2 w1 w2); congruence).
    congruence.
  - intros id w Hw. apply api_users_cover; [done|]. by apply (Hown id w).
  - intros id u Hget. destruct (getUser_registered _ _ _ Hus Hget) as [<- Hid].
    destruct (api_usd_wallet sv (User.id u) Hsv) as (wid & w & Hw & Hu & Hc); [lia|].
    exists w. split; [|done]. apply elem_of_getWallets. eauto.
Qed.

(** The user with a USD and a EUR wallet: the owner of wallet 2 is
    registered and holds a USD wallet. *)
Lemma accounts_and_wallets_witness :
  is_Some (Users.getUser 1 (accounts server_ada_eur))
  ∧ ∃ w, w ∈ getWallets 1 (storage server_ada_eur) ∧ Wallet.currency w = USD.
Proof.
  destruct (accounts_and_wallets server_ada_eur server_ada_eur_reachable)
    as (_ & Hown & Husd).
  split.
  - refine (Hown 2
              {| Wallet.id := 2; Wallet.userId := 1; Wallet.name := Some "EUR";
                 Wallet.currency := EUR; Wallet.balance := 0%float;
                 Wallet.isPrimary := Some false; Wallet.createdAt := 3000 |}
              _).
    vm_compute. reflexivity.
  - refine (Husd 1
              {| User.id := 1; User.name := "Ada";
                 User.email := "ada@example.org"; User.password := "hash1";
                 User.createdAt := 1000 |} _).
    vm_compute. reflexivity.
Defined.

(** X20. Wallets added by a logged-in user: in a server reached through the
    routes every user already holds the USD wallet of their registration, so
    POST /api/wallets for USD is always answered with 400 "You already have a
    USD wallet", and a wallet that the route does create is never primary and
    never a USD wallet: the branch that makes the first wallet primary is not
    taken. *)
Theorem added_wallets_are_never_primary (sv : Server) (session now : Z)
    (user : User.t) (reqBody : AddWallet.t) :
  api_reachable sv →
  Users.getUser session (accounts sv) = Some user →
  let r := (post_api_wallets (User.id user) reqBody now (storage sv)).1 in
  let st' := (post_api_wallets (User.id user) reqBody now (storage sv)).2 in
  (AddWallet.currency reqBody = "USD" →
   r = reply 400 (PMessage "You already have a USD wallet")
   ∧ st' = storage sv)
  ∧ (∀ wallet,
       payload r = PWallet wallet →
       replyStatus r = 201
       ∧ Wallet.isPrimary wallet = Some false
       ∧ Wallet.currency wallet ≠ USD
       ∧ Wallet.balance wallet = 0%float
       ∧ getWallet (Wallet.id wallet) st' = Some wallet).
Proof.
  intros Hsv Hget r st'. subst r st'.
  destruct (api_invariants sv Hsv) as (_ & Hus & _).
  destruct (getUser_registered _ _ _ Hus Hget) as [_ Hid].
  destruct (api_usd_wallet sv (User.id user) Hsv)
    as (wid & w & Hw & Hu & Hc); [lia|].
  assert (w ∈ getWallets (User.id user) (storage sv)) as Hin.
  { apply elem_of_getWallets. eauto. }
  split.
  - intros Husd. unfold post_api_wallets. rewrite Husd.
    change (currencyOfCode "USD") with (Some USD). cbv iota beta.
    by destruct (find_currency_Some USD _ w Hin Hc) as [existing ->].
  - intros wallet.
    destruct (currencyOfCode (AddWallet.currency reqBody)) as [c|] eqn:Hcode;
      [|unfold post_api_wallets; by rewrite Hcode].
    destruct (List.find (λ w, bool_decide (Wallet.currency w = c))
                (getWallets (User.id user) (storage sv))) eqn:Hfind;
      [unfold post_api_wallets; by rewrite Hcode, Hfind|].
    rewrite (post_api_wallets_success _ _ _ _ _ Hcode Hfind).
    cbn [fst snd payload replyStatus]. intros [= <-].
    split; [done|]. split; [|split; [|split]].
    + simpl. destruct (getWallets (User.id user) (storage sv));
        [by apply elem_of_nil in Hin|done].
    + simpl. intros ->. apply list_elem_of_In in Hin.
      pose proof (find_none _ _ Hfind w Hin) as Hno. simpl in Hno.
      by rewrite bool_decide_eq_true_2 in Hno.
    + done.
    + rewrite getWallet_createWallet. by case_decide.
Qed.

(** The registered user asks for a EUR wallet: it is created, not primary. *)
Lemma added_wallets_are_never_primary_witness :
  let reqBody := {| AddWallet.currency := "EUR"; AddWallet.name := None |} in
  ∃ wallet,
    payload (post_api_wallets 1 reqBody 3000 (storage server_ada_funded)).1
    = PWallet wallet
    ∧ Wallet.isPrimary wallet = Some false.
Proof.
  eexists. split; [vm_compute; reflexivity|].
  refine (proj1 (proj2 (proj2 (added_wallets_are_never_primary
            server_ada_funded 1 3000
            {| User.id := 1; User.name := "Ada";
               User.email := "ada@example.org"; User.password := "hash1";
               User.createdAt := 1000 |}
            {| AddWallet.currency := "EUR"; AddWallet.name := None |}
            server_ada_funded_reachable _) _ _))).
  - reflexivity.
  - vm_compute. reflexivity.
Defined.

(** ** Transfers through the routes *)

(** X21. Transfers reached through the routes: since no account holds two
    wallets of one currency, a transfer that POST /api/transfers answers with
    201 has the same wallet as source and destination.  It takes nothing from
    any wallet: that wallet ends with its balance plus the amount and every
    other wallet reads as before. *)
Theorem api_transfers_are_self_transfers (sv : Server) (user now : Z)
    (reqBody : TransferFunds.t) :
  api_reachable sv →
  status (post_api_transfers user reqBody now (storage sv)).1 = 201 →
  let st' := (post_api_transfers user reqBody now (storage sv)).2 in
  TransferFunds.toWalletId reqBody = TransferFunds.fromWalletId reqBody
  ∧ (∃ w,
       getWallet (TransferFunds.fromWalletId reqBody) (storage sv) = Some w
       ∧ Wallet.userId w = user
       ∧ getWallet (TransferFunds.fromWalletId reqBody) st'
         = Some (Wallet.with_balance w
                   (Wallet.balance w + TransferFunds.amount reqBody)%float))
  ∧ (∀ id, id ≠ TransferFunds.fromWalletId reqBody →
       getWallet id st' = getWallet id (storage sv)).
Proof.
  intros Hsv Hok st'. subst st'.
  destruct (api_invariants sv Hsv) as (_ & _ & _ & Hone & _).
  unfold post_api_transfers in *.
  destruct (transferFundsSchema reqBody); [|done].
  destruct (transfer_inv user reqBody now (storage sv)) as [[Hne _]|H];
    [done|].
  destruct H as (fw & tw & Hfw & Htw & Hufw & Hutw & Hcur & _ & _ & Hc).
  assert (TransferFunds.fromWalletId reqBody = TransferFunds.toWalletId reqBody)
    as Hsame by (apply (Hone _ _ fw tw); congruence).
  rewrite <- Hsame in *. rewrite Hfw in Htw. injection Htw as <-.
  destruct Hc as (Hwallets & _). unfold getWallet in *.
  rewrite Hwallets. simpl.
  split; [done|]. split.
  - exists fw. split; [done|]. split; [done|].
    rewrite !lookup_alter. repeat case_decide; try done.
    by rewrite Hfw.
  - intros id Hne. rewrite !lookup_alter. by repeat case_decide.
Qed.

(** The registered user, holding 100 USD, transfers 40 from the USD wallet to
    the USD wallet and ends with 140. *)
Lemma api_transfers_are_self_transfers_witness :
  let reqBody :=
    {| TransferFunds.fromWalletId := 1; TransferFunds.toWalletId := 1;
       TransferFunds.amount := 40%float;
       TransferFunds.description := None |} in
  status (post_api_transfers 1 reqBody 4000 (storage server_ada_funded)).1
  = 201
  ∧ Wallet.balance
      <$> getWallet 1
            (post_api_transfers 1 reqBody 4000 (storage server_ada_funded)).2
    = Some 140%float.
Proof.
  split; [vm_compute; reflexivity|].
  destruct (api_transfers_are_self_transfers server_ada_funded 1 4000
              {| TransferFunds.fromWalletId := 1;
                 TransferFunds.toWalletId := 1;
                 TransferFunds.amount := 40%float;
                 TransferFunds.description := None |}
              server_ada_funded_reachable) as (_ & (w & Hw & _ & Hw') & _).
  - vm_compute. reflexivity.
  - vm_compute in Hw. injection Hw as <-.
    exact (f_equal (fmap Wallet.balance) Hw').
Defined.

(** X22. The transfer form: the destinations it offers are the account's other
    wallets of the source's currency.  Against a server reached through the
    routes, where the account's wallets are what GET /api/wallets lists, there
    is never such a wallet, whichever source is chosen: the list of
    destinations is always empty. *)
Theorem no_transfer_destination_offered (sv : Server) (user : Z)
    (fromWallet : option Wallet.t) :
  api_reachable sv →
  (∀ fw, fromWallet = Some fw → fw ∈ getWallets user (storage sv)) →
  filteredToWallets (getWallets user (storage sv)) fromWallet = [].
Proof.
  intros Hsv Hfrom. destruct fromWallet as [fw|]; [|done].
  specialize (Hfrom fw eq_refl).
  destruct (api_invariants sv Hsv) as (Hst & _ & _ & Hone & _).
  destruct (reachable_wf _ Hst) as [_ Hwf].
  apply elem_of_getWallets in Hfrom as [Hufw (idf & Hfw)].
  unfold filteredToWallets.
  destruct (List.filter _ (getWallets user (storage sv))) as [|w l] eqn:E;
    [done|].
  assert (In w (w :: l)) as Hin by by left.
  rewrite <- E in Hin. apply filter_In in Hin as [Hin Hpass].
  apply list_elem_of_In, elem_of_getWallets in Hin as [Huw (id & Hw)].
  apply andb_true_iff in Hpass as [Hc Hid].
  apply bool_decide_eq_true in Hc. apply negb_true_iff, Z.eqb_neq in Hid.
  destruct Hid.
  rewrite (proj1 (Hwf id) w Hw), (proj1 (Hwf idf) fw Hfw).
  apply (Hone id idf w fw); congruence.
Qed.

(** The user with a USD and a EUR wallet chooses the USD wallet as source. *)
Lemma no_transfer_destination_offered_witness :
  ∃ fw,
    getWallet 1 (storage server_ada_eur) = Some fw
    ∧ length (getWallets 1 (storage server_ada_eur)) = 2%nat
    ∧ filteredToWallets (getWallets 1 (storage server_ada_eur)) (Some fw) = [].
Proof.
  eexists. split; [vm_compute; reflexivity|]. split; [vm_compute; reflexivity|].
  apply (no_transfer_destination_offered server_ada_eur 1 _
           server_ada_eur_reachable).
  intros fw [= <-]. vm_compute. left.
Defined.

(** ** The client's quote *)

Lemma convertCurrency_rateFor amount from to :
  convertCurrency amount from to (Some exchangeRates)
  = match rateFor from to with
    | Some rate => (amount * rate)%float
    | None => 0%float
    end.
Proof. by destruct from, to. Qed.

(** X23. The client's quote and the server's conversion: with the table that
    GET /api/rates serves, [convertCurrency] on the client computes for the
    currencies of two wallets exactly the converted amount that a successful
    POST /api/conversions between them reports; for a pair of currencies
    outside USD, EUR and GBP the client shows 0 and the server does not
    convert; and while the table has not been fetched the client shows 0. *)
Theorem client_quote_matches_server (st : MemStorage) (user now : Z)
    (data : ConvertCurrency.t) (fw tw : Wallet.t) :
  getWallet (ConvertCurrency.fromWalletId data) st = Some fw →
  getWallet (ConvertCurrency.toWalletId data) st = Some tw →
  let quote rates :=
    convertCurrency (ConvertCurrency.amount data) (Wallet.currency fw)
      (Wallet.currency tw) rates in
  (outcome (convert user data now st).1 = Some Succeeded →
   convertedAmountOf (convert user data now st).1
   = Some (quote (Some exchangeRates)))
  ∧ (covered (Wallet.currency fw) (Wallet.currency tw) = false →
     quote (Some exchangeRates) = 0%float
     ∧ outcome (convert user data now st).1 ≠ Some Succeeded
     ∧ (convert user data now st).2 = st)
  ∧ quote None = 0%float.
Proof.
  intros Hfw Htw quote. subst quote. cbv beta.
  rewrite convertCurrency_rateFor.
  destruct (convert_inv user data now st) as [[Hne Hsame]|H].
  - split; [|split; [|done]].
    + intros Hok. by apply outcome_succeeded in Hok.
    + intros Hcov. rewrite (rateFor_uncovered _ _ Hcov).
      split; [done|]. split; [|done].
      intros Hok. by apply outcome_succeeded in Hok.
  - destruct H as (fw' & tw' & rate & Hfw' & Htw' & _ & _ & _ & Hrate & _
                   & _ & Hbody & _).
    rewrite Hfw in Hfw'. rewrite Htw in Htw'.
    injection Hfw' as <-. injection Htw' as <-.
    split; [|split; [|done]].
    + intros _. unfold convertedAmountOf. by rewrite Hbody, Hrate.
    + intros Hcov. rewrite (rateFor_uncovered _ _ Hcov) in Hrate. done.
Qed.

(** Converting 10 USD to EUR: the client quotes what the server reports. *)
Lemma client_quote_matches_server_witness :
  let data :=
    {| ConvertCurrency.fromWalletId := 1; ConvertCurrency.toWalletId := 2;
       ConvertCurrency.amount := 10%float |} in
  convertedAmountOf (convert 1 data 2000 (store_usd_eur 100 0)).1
  = Some (convertCurrency 10 USD EUR (Some exchangeRates))
  ∧ convertCurrency 10 USD EUR (Some exchangeRates) = (10 * 0.915)%float.
Proof.
  split; [|reflexivity].
  refine (proj1 (client_quote_matches_server (store_usd_eur 100 0) 1 2000
            {| ConvertCurrency.fromWalletId := 1;
               ConvertCurrency.toWalletId := 2;
               ConvertCurrency.amount := 10%float |}
            {| Wallet.id := 1; Wallet.userId := 1;
               Wallet.name := Some "USD"; Wallet.currency := USD;
               Wallet.balance := 100%float; Wallet.isPrimary := Some true;
               Wallet.createdAt := 1000 |}
            {| Wallet.id := 2; Wallet.userId := 1;
               Wallet.name := Some "EUR"; Wallet.currency := EUR;
               Wallet.balance := 0%float; Wallet.isPrimary := Some false;
               Wallet.createdAt := 1001 |} _ _) _);
    vm_compute; reflexivity.
Defined.

(** ** GET /api/transactions *)

Lemma getTransactions_elem user limit st entry :
  entry ∈ getTransactions user limit st →
  entry ∈ ledger st ∧ Transaction.userId entry = user.
Proof.
  unfold getTransactions. intros Hin.
  assert (entry ∈ JsArray.sort byCreatedAtDesc
            (List.filter
               (λ transaction, Transaction.userId transaction =? user)
               (JsMap.values (transactions st)))) as Hall.
  { destruct limit as [n|]; simpl in Hin; [|done].
    destruct (n =? 0); [done|]. unfold JsArray.slice0 in Hin.
    eapply subseteq_take, Hin. }
  rewrite sort_Permutation in Hall.
  apply list_elem_of_In, filter_In in Hall as [Hl Hn].
  split; [by apply list_elem_of_In|by apply Z.eqb_eq].
Qed.

Lemma limited_negative {A : Type} (k : Z) (l : list A) :
  0 < k → limited (Some (- k)) l = take (length l - Z.to_nat k) l.
Proof.
  intros Hk. unfold limited, JsArray.slice0.
  destruct (Z.eqb_spec (- k) 0); [lia|].
  destruct (Z.ltb_spec (- k) 0); [|lia].
  f_equal. lia.
Qed.

(** X24. The listing route: GET /api/transactions returns only ledger entries
    recorded for the calling account, whatever the limit in the query;
    without a limit in the query it returns the 10 newest entries of the
    account; and a negative limit -k is passed on to [slice], which counts it
    from the end: the k oldest entries are left out. *)
Theorem transactions_route_listing (st : MemStorage) (user : Z) :
  (∀ queryLimit entry,
     entry ∈ get_api_transactions user queryLimit st →
     entry ∈ ledger st ∧ Transaction.userId entry = user)
  ∧ get_api_transactions user None st
    = take 10 (getTransactions user None st)
  ∧ (∀ k, 0 < k →
       get_api_transactions user (Some (- k)) st
       = take (length (getTransactions user None st) - Z.to_nat k)
           (getTransactions user None st)).
Proof.
  split; [|split].
  - intros queryLimit entry. apply getTransactions_elem.
  - unfold get_api_transactions, getTransactions. simpl default.
    by rewrite limited_positive.
  - intros k Hk. unfold get_api_transactions, getTransactions. simpl default.
    by rewrite limited_negative.
Qed.

(** Account 1 has two entries; with limit -1 the route leaves the older one
    out. *)
Lemma transactions_route_listing_witness :
  get_api_transactions 1 (Some (-1)) (store_usd_eur 10 20)
  = take 1 (getTransactions 1 None (store_usd_eur 10 20))
  ∧ length (getTransactions 1 None (store_usd_eur 10 20)) = 2%nat.
Proof.
  split; [|vm_compute; reflexivity].
  apply (proj2 (proj2 (transactions_route_listing (store_usd_eur 10 20) 1)) 1).
  lia.
Defined.

(** ** The checks of conversions and deposits *)

(** X25. Conversion validation order: the response of a conversion is the
    outcome of the first failing check in the order existence of both wallets
    (NotFound), ownership of both (Forbidden), source balance not below the
    amount (InsufficientFunds), a rate for the pair of currencies
    (InvalidOperation): unlike a transfer, a conversion checks the funds
    before it looks at the currencies.  When no check fails it succeeds, and
    in every other case the store is returned as it was. *)
Theorem conversion_validation_order (st : MemStorage) (user now : Z)
    (data : ConvertCurrency.t) :
  let r := (convert user data now st).1 in
  let st' := (convert user data now st).2 in
  (getWallet (ConvertCurrency.fromWalletId data) st = None
   ∨ getWallet (ConvertCurrency.toWalletId data) st = None →
   outcome r = Some NotFound)
  ∧ (∀ fw tw,
       getWallet (ConvertCurrency.fromWalletId data) st = Some fw →
       getWallet (ConvertCurrency.toWalletId data) st = Some tw →
       (Wallet.userId fw ≠ user ∨ Wallet.userId tw ≠ user →
        outcome r = Some Forbidden)
       ∧ (Wallet.userId fw = user → Wallet.userId tw = user →
          ((Wallet.balance fw <? ConvertCurrency.amount data)%float = true →
           outcome r = Some InsufficientFunds)
          ∧ ((Wallet.balance fw <? ConvertCurrency.amount data)%float = false →
             outcome r
             = Some (if covered (Wallet.currency fw) (Wallet.currency tw)
                     then Succeeded else InvalidOperation))))
  ∧ (outcome r ≠ Some Succeeded → st' = st).
Proof.
  cbv zeta. split; [|split].
  - unfold convert. intros [-> | Hto]; [reflexivity|].
    rewrite Hto.
    destruct (getWallet (ConvertCurrency.fromWalletId data) st); reflexivity.
  - intros fw tw Hfw Htw. split.
    + intros Hown. unfold convert. rewrite Hfw, Htw.
      destruct (Z.eqb_spec (Wallet.userId fw) user);
        destruct (Z.eqb_spec (Wallet.userId tw) user); try reflexivity.
      by destruct Hown.
    + intros Hufw Hutw. split.
      * intros Hlt. unfold convert. rewrite Hfw, Htw, Hufw, Hutw.
        rewrite Z.eqb_refl. unfold Js.Number. rewrite Hlt. reflexivity.
      * by apply convert_outcome.
  - intros Hne. destruct (convert_inv user data now st) as [[_ Hsame]|H];
      [done|].
    destruct H as (fw & tw & rate & _ & _ & _ & _ & _ & _ & _ & Hs & Hbody & _).
    destruct Hne. unfold outcome. rewrite Hbody, Hs. done.
Qed.

(** A conversion of 500 from a USD wallet holding 100 to a JPY wallet is
    refused for its funds, not for the missing rate. *)
Lemma conversion_validation_order_witness :
  let st :=
    (post_api_deposits 1
       {| AddFunds.walletId := 1; AddFunds.amount := 100%float |} 1002
       (createWallet (newWallet 1 JPY false) 1001
          (createWallet (newWallet 1 USD true) 1000 MemStorage_new).2).2).2 in
  let data :=
    {| ConvertCurrency.fromWalletId := 1; ConvertCurrency.toWalletId := 2;
       ConvertCurrency.amount := 500%float |} in
  outcome (convert 1 data 2000 st).1 = Some InsufficientFunds.
Proof.
  refine (proj1 (proj2 (proj1 (proj2 (conversion_validation_order _ 1 2000
            {| ConvertCurrency.fromWalletId := 1;
               ConvertCurrency.toWalletId := 2;
               ConvertCurrency.amount := 500%float |}))
            {| Wallet.id := 1; Wallet.userId := 1;
               Wallet.name := Some "USD"; Wallet.currency := USD;
               Wallet.balance := 100%float; Wallet.isPrimary := Some true;
               Wallet.createdAt := 1000 |}
            {| Wallet.id := 2; Wallet.userId := 1;
               Wallet.name := Some "JPY"; Wallet.currency := JPY;
               Wallet.balance := 0%float; Wallet.isPrimary := Some false;
               Wallet.createdAt := 1001 |} _ _) _ _) _);
    vm_compute; reflexivity.
Defined.

(** X26. Deposits: in a reachable store POST /api/deposits answers 400 and
    changes nothing when the amount is not above 0, NotFound when the wallet
    does not exist and Forbidden when it belongs to another account, again
    without a change; otherwise it succeeds, whatever the amount and the
    balance: the wallet ends with its balance plus the amount, keeps its other
    fields, every other wallet reads as before and the ledger grows by one
    entry. *)
Theorem deposit_outcomes (st : MemStorage) (user now : Z)
    (reqBody : AddFunds.t) :
  reachable st →
  let r := (post_api_deposits user reqBody now st).1 in
  let st' := (post_api_deposits user reqBody now st).2 in
  ((0 <? AddFunds.amount reqBody)%float = false →
   r = json 400 ValidationError ∧ st' = st)
  ∧ ((0 <? AddFunds.amount reqBody)%float = true →
     (getWallet (AddFunds.walletId reqBody) st = None →
      outcome r = Some NotFound ∧ st' = st)
     ∧ (∀ w,
          getWallet (AddFunds.walletId reqBody) st = Some w →
          (Wallet.userId w ≠ user → outcome r = Some Forbidden ∧ st' = st)
          ∧ (Wallet.userId w = user →
             outcome r = Some Succeeded
             ∧ getWallet (AddFunds.walletId reqBody) st'
               = Some (Wallet.with_balance w
                         (Wallet.balance w + AddFunds.amount reqBody)%float)
             ∧ (∀ id, id ≠ AddFunds.walletId reqBody →
                  getWallet id st' = getWallet id st)
             ∧ length (ledger st') = S (length (ledger st))))).
Proof.
  intros Hst. cbv zeta.
  unfold post_api_deposits, addFundsSchema, positive_number.
  split; [by intros ->|]. intros ->. split.
  - intros Hw. unfold deposit. rewrite Hw. by split.
  - intros w Hw. split.
    + intros Hne. unfold deposit. rewrite Hw.
      destruct (Z.eqb_spec (Wallet.userId w) user); [done|]. by split.
    + intros Hu.
      destruct (deposit_inv user reqBody now st) as [[Hne Hsame]|H].
      { exfalso. apply Hne. unfold deposit. rewrite Hw, Hu, Z.eqb_refl.
        reflexivity. }
      destruct H as (w' & Hw' & _ & Hs & Hc).
      rewrite Hw in Hw'. injection Hw' as <-.
      split.
      { unfold deposit. rewrite Hw, Hu, Z.eqb_refl. reflexivity. }
      destruct (reachable_invariants st Hst) as [Hfresh _].
      destruct (committed_ledger _ _ _ _ _ Hfresh Hc) as [_ Hl].
      destruct Hc as (Hwallets & _). unfold getWallet in *.
      rewrite Hwallets. simpl. split; [|split].
      * rewrite lookup_alter. case_decide; [|done]. by rewrite Hw.
      * intros id Hne. rewrite lookup_alter. by case_decide.
      * rewrite Hl, length_app. simpl. lia.
Qed.

(** Depositing 25 into the wallet of the registered user, which holds 100. *)
Lemma deposit_outcomes_witness :
  let reqBody := {| AddFunds.walletId := 1; AddFunds.amount := 25%float |} in
  outcome (post_api_deposits 1 reqBody 5000 (storage server_ada_funded)).1
  = Some Succeeded
  ∧ Wallet.balance
      <$> getWallet 1
            (post_api_deposits 1 reqBody 5000 (storage server_ada_funded)).2
    = Some 125%float.
Proof.
  destruct (deposit_outcomes (storage server_ada_funded) 1 5000
              {| AddFunds.walletId := 1; AddFunds.amount := 25%float |})
    as [_ Hok].
  - apply reachable_deposits, reachable_createWallet, reachable_new.
  - destruct (Hok eq_refl) as [_ Hw].
    destruct (Hw {| Wallet.id := 1; Wallet.userId := 1;
                    Wallet.name := Some "Primary"; Wallet.currency := USD;
                    Wallet.balance := 100%float; Wallet.isPrimary := Some true;
                    Wallet.createdAt := 1001 |}) as [_ Hown];
      [vm_compute; reflexivity|].
    destruct (Hown eq_refl) as (Hr & Hget & _).
    split; [exact Hr|]. exact (f_equal (fmap Wallet.balance) Hget).
Defined.

(** ** Amounts that are not finite *)

Lemma add_infinity b :
  is_Some (Js.value b) → (b + infinity)%float = infinity.
Proof.
  unfold Js.value. intros Hfin. apply Prim2SF_inj. rewrite add_spec.
  change (Prim2SF infinity) with (S754_infinity false).
  destruct (Prim2SF b) as [[]|[]| |s m e]; try reflexivity;
    by destruct Hfin.
Qed.

Lemma nan_ltb x : (nan <? x)%float = false.
Proof.
  rewrite ltb_spec. change (Prim2SF nan) with S754_nan.
  by destruct (Prim2SF x).
Qed.

(** X27. Amounts are not checked for being finite: the schemas ask only for a
    number above 0, and infinity is one.  For two distinct wallets of the
    acting account with currencies among USD, EUR and GBP: a deposit of
    infinity into the first, if its balance is finite, succeeds and makes the
    balance infinite; a conversion of infinity out of it, if its balance is
    infinite, succeeds and leaves it with NaN; and if its balance is NaN,
    every conversion out of it with an amount above 0 succeeds, because NaN is
    below no amount. *)
Theorem amounts_need_not_be_finite (st : MemStorage) (user now : Z)
    (data : ConvertCurrency.t) (fw tw : Wallet.t) :
  getWallet (ConvertCurrency.fromWalletId data) st = Some fw →
  getWallet (ConvertCurrency.toWalletId data) st = Some tw →
  ConvertCurrency.fromWalletId data ≠ ConvertCurrency.toWalletId data →
  Wallet.userId fw = user → Wallet.userId tw = user →
  covered (Wallet.currency fw) (Wallet.currency tw) = true →
  (is_Some (Js.value (Wallet.balance fw)) →
   let deposited :=
     post_api_deposits user
       {| AddFunds.walletId := ConvertCurrency.fromWalletId data;
          AddFunds.amount := infinity |} now st in
   status deposited.1 = 201
   ∧ Wallet.balance
       <$> getWallet (ConvertCurrency.fromWalletId data) deposited.2
     = Some infinity)
  ∧ (Wallet.balance fw = infinity →
     ConvertCurrency.amount data = infinity →
     status (post_api_conversions user data now st).1 = 201
     ∧ Wallet.balance
         <$> getWallet (ConvertCurrency.fromWalletId data)
               (post_api_conversions user data now st).2
       = Some nan)
  ∧ (Wallet.balance fw = nan →
     (0 <? ConvertCurrency.amount data)%float = true →
     status (post_api_conversions user data now st).1 = 201).
Proof.
  intros Hfw Htw Hne Hufw Hutw Hcov. split; [|split].
  - intros Hfin. cbv zeta. unfold post_api_deposits, addFundsSchema.
    cbn [AddFunds.amount]. change (positive_number infinity) with true.
    cbv iota.
    destruct (deposit_inv user
                {| AddFunds.walletId := ConvertCurrency.fromWalletId data;
                   AddFunds.amount := infinity |} now st) as [[Hno _]|H].
    { exfalso. apply Hno. unfold deposit. cbn [AddFunds.walletId].
      rewrite Hfw, Hufw, Z.eqb_refl. reflexivity. }
    destruct H as (w & Hw & _ & Hs & Hc). cbn [AddFunds.walletId] in *.
    rewrite Hfw in Hw. injection Hw as <-. split; [exact Hs|].
    destruct Hc as (Hwallets & _). unfold getWallet in *.
    rewrite Hwallets. simpl. rewrite lookup_alter.
    case_decide; [|done]. rewrite Hfw. simpl. by rewrite add_infinity.
  - intros Hbal Hamount. unfold post_api_conversions, convertCurrencySchema.
    rewrite Hamount. change (positive_number infinity) with true. cbv iota.
    assert ((Wallet.balance fw <? ConvertCurrency.amount data)%float = false)
      as Hlt by by rewrite Hbal, Hamount.
    pose proof (convert_outcome user data now st fw tw Hfw Htw Hufw Hutw Hlt)
      as Hok.
    rewrite Hcov in Hok. apply outcome_succeeded in Hok. split; [exact Hok|].
    destruct (convert_inv user data now st) as [[Hno _]|H]; [done|].
    destruct H as (fw' & tw' & rate & Hfw' & Htw' & _ & _ & _ & _ & _ & _ & _
                   & Hc).
    rewrite Hfw in Hfw'. injection Hfw' as <-.
    destruct Hc as (Hwallets & _). unfold getWallet in *.
    rewrite Hwallets. simpl. rewrite !lookup_alter.
    repeat case_decide; try done.
    rewrite Hfw. simpl. by rewrite Hbal, Hamount.
  - intros Hbal Hpos. unfold post_api_conversions, convertCurrencySchema.
    unfold positive_number. rewrite Hpos.
    assert ((Wallet.balance fw <? ConvertCurrency.amount data)%float = false)
      as Hlt by (rewrite Hbal; apply nan_ltb).
    pose proof (convert_outcome user data now st fw tw Hfw Htw Hufw Hutw Hlt)
      as Hok.
    rewrite Hcov in Hok. by apply outcome_succeeded in Hok.
Qed.

(** Account 1 deposits infinity into its USD wallet, which held 100. *)
Lemma amounts_need_not_be_finite_witness :
  let deposited :=
    post_api_deposits 1
      {| AddFunds.walletId := 1; AddFunds.amount := infinity |} 2000
      (store_usd_eur 100 0) in
  status deposited.1 = 201
  ∧ Wallet.balance <$> getWallet 1 deposited.2 = Some infinity.
Proof.
  refine (proj1 (amounts_need_not_be_finite (store_usd_eur 100 0) 1 2000
            {| ConvertCurrency.fromWalletId := 1;
               ConvertCurrency.toWalletId := 2;
               ConvertCurrency.amount := 10%float |}
            {| Wallet.id := 1; Wallet.userId := 1;
               Wallet.name := Some "USD"; Wallet.currency := USD;
               Wallet.balance := 100%float; Wallet.isPrimary := Some true;
               Wallet.createdAt := 1000 |}
            {| Wallet.id := 2; Wallet.userId := 1;
               Wallet.name := Some "EUR"; Wallet.currency := EUR;
               Wallet.balance := 0%float; Wallet.isPrimary := Some false;
               Wallet.createdAt := 1001 |} _ _ _ _ _ _) _);
    try (vm_compute; reflexivity).
  - intros H. vm_compute in H. discriminate.
  - vm_compute. eauto.
Defined.
